(** * reaktor_challenge: satellite line of sight and shortest routes

    A shallow embedding of [reaktor_challenge.py] and the properties of
    its [Satellite] and [Network] classes.

    The program is a Python 2 script (it imports [print_function] from
    [__future__]).  What the script takes from its interpreter is kept
    as an explicit parameter (class [Runtime] below):
    - the C library's [sin] and [cos], which [math.sin] and [math.cos] wrap;
    - the order in which a [set] is iterated;
    - the interpreter's default ordering of two instances of a class that
      defines no comparison (Python 2 orders them by address), which decides
      ties between queue entries of equal length in [heapq].

    Floats are IEEE 754 binary64 numbers ([PrimFloat]); objects live in a
    heap addressed by locations; exceptions are values of [result]. *)

From Stdlib Require Import ZArith Floats Bool Lia ZifyNat Ascii.
From stdpp Require Import base option list gmap sets strings.

(* [set_solver] clears hypotheses that are not always there. *)
Set Warnings "-clear-no-such-hyp".

(** ** Exceptions and results *)

Inductive exception : Type :=
| ValueError
| ZeroDivisionError
| TypeError
| IndexError
| RouteNotFound (reason : string).

Inductive result (A : Type) : Type :=
| Ok (a : A)
| Raise (e : exception).
Arguments Ok {A} a.
Arguments Raise {A} e.

Definition result_bind {A B} (r : result A) (k : A → result B) : result B :=
  match r with
  | Ok a => k a
  | Raise e => Raise e
  end.

(** ** Python floats *)

Module PyFloat.
Local Open Scope float_scope.

(** [math.pi] *)
Definition pi : float := 0x1.921fb54442d18p+1.

(** [a / b] on two floats: [ZeroDivisionError] when [b == 0.0]. *)
Definition truediv (a b : float) : result float :=
  if b =? 0 then Raise ZeroDivisionError else Ok (a / b).

(** The wrapper [math_1] of CPython's [mathmodule.c], through which
    [math.sqrt], [math.sin] and [math.cos] call the C function [func]
    (with [can_overflow = 0]): a NaN result of an argument that is not a NaN,
    and an infinite result of a finite argument, raise
    [ValueError("math domain error")]. *)
Definition math_1 (func : float → float) (x : float) : result float :=
  let r := func x in
  if is_nan r && negb (is_nan x) then Raise ValueError
  else if is_infinity r && is_finite x then Raise ValueError
  else Ok r.

(** [math.sqrt] *)
Definition math_sqrt : float → result float := math_1 sqrt.

End PyFloat.

(** ** The parameters of the interpreter *)

Definition loc : Type := positive.

Class Runtime : Type := {
  (** the C library's [sin] and [cos] *)
  libm_sin : float → float;
  libm_cos : float → float;
  (** the order in which [for x in s] visits a set [s] *)
  set_iter : gset loc → list loc;
  (** [a < b] on two distinct instances that define no comparison *)
  obj_lt : loc → loc → bool;
}.

(** Iteration visits every element of the set once. *)
Definition set_iter_ok (rt : Runtime) : Prop :=
  ∀ X : gset loc, set_iter X ≡ₚ elements X.

(** The C library's [cos] is an even function. *)
Definition libm_cos_even (rt : Runtime) : Prop :=
  ∀ x : float, libm_cos (- x)%float = libm_cos x.

(** ** Coordinate types *)

(** [coord = namedtuple('Coordinates', ['latitude', 'longitude', 'altitude'])] *)
Record coord : Type := Coordinates {
  latitude : float;
  longitude : float;
  altitude : float;
}.

(** [spher = namedtuple('Spherical', ['theta', 'phi', 'radius'])] *)
Record spher : Type := Spherical {
  theta : float;
  phi : float;
  radius : float;
}.

(** [horizon = namedtuple('Horizon', ['sin', 'cos'])] *)
Record horizon : Type := Horizon {
  sin : float;
  cos : float;
}.

(** ** The heap of [Satellite] instances and the [Network] *)

(** The attributes of a [Satellite] instance.  [_neighbours] holds
    references. *)
Record Satellite_obj : Type := {
  _id : string;
  _coordinates : coord;
  _spherical : spher;
  _horizon : horizon;
  _neighbours : gset loc;
}.

(** The instances allocated so far and the attribute [_satellites] of the
    [Network] instance. *)
Record State : Type := {
  heap : gmap loc Satellite_obj;
  _satellites : gset loc;
}.

(** [Network()] in a fresh interpreter. *)
Definition initial : State := {| heap := ∅; _satellites := ∅ |}.

(** A computation reads and writes the state and returns or raises; what it
    wrote before raising stays written. *)
Definition M (A : Type) : Type := State → result A * State.

#[global] Instance M_ret : MRet M := λ A a σ, (Ok a, σ).
#[global] Instance M_bind : MBind M := λ A B k m σ,
  match m σ with
  | (Ok a, σ') => k a σ'
  | (Raise e, σ') => (Raise e, σ')
  end.

Definition lift {A} (r : result A) : M A := λ σ, (r, σ).
Definition raise {A} (e : exception) : M A := lift (Raise e).
Definition get {A} (f : State → A) : M A := λ σ, (Ok (f σ), σ).
Definition modify (f : State → State) : M unit := λ σ, (Ok tt, f σ).

(** [for x in xs: body(x)] *)
Fixpoint for_each {A} (xs : list A) (body : A → M unit) : M unit :=
  match xs with
  | [] => mret tt
  | x :: xs' => body x ≫= λ _, for_each xs' body
  end.

(** [[x for x in xs if test(x)]], the tests run in order *)
Fixpoint filter_in_order {A} (test : A → M bool) (xs : list A) : M (list A) :=
  match xs with
  | [] => mret []
  | x :: xs' =>
      b ← test x;
      ys ← filter_in_order test xs';
      mret (if b : bool then x :: ys else ys)
  end.

(** The instance at a location.  A Python reference always points to an
    instance; the blank instance is what the embedding reads at a location
    that was never allocated. *)
Definition blank : Satellite_obj :=
  {| _id := ""; _coordinates := Coordinates 0 0 0;
     _spherical := Spherical 0 0 0; _horizon := Horizon 0 0;
     _neighbours := ∅ |}.

Definition obj (σ : State) (l : loc) : Satellite_obj := default blank (heap σ !! l).

Definition set_neighbours (l : loc) (newset : gset loc) (σ : State) : State :=
  let o := obj σ l in
  {| heap := <[l := {| _id := _id o; _coordinates := _coordinates o;
                       _spherical := _spherical o; _horizon := _horizon o;
                       _neighbours := newset |}]> (heap σ);
     _satellites := _satellites σ |}.

(** ** class Satellite *)

Module Satellite.
Section WithRuntime.
Context {rt : Runtime}.
Local Open Scope float_scope.

(** The spherical coordinates and the horizon of [__init__], before the
    instance is stored. *)
Definition geometry (coordinates : coord) : result (spher * horizon) :=
  let conv := 2 * PyFloat.pi / 360 in
  let radius_of_earth := 6371 in
  let theta := (90 - latitude coordinates) * conv in
  let phi := longitude coordinates * conv in
  let _spherical := Spherical theta phi (radius_of_earth + altitude coordinates) in
  result_bind (PyFloat.truediv radius_of_earth (radius _spherical)) (λ coshorizon,
  result_bind (PyFloat.math_sqrt (1 - coshorizon * coshorizon)) (λ sinhorizon,
  Ok (_spherical, Horizon sinhorizon coshorizon))).

(** [Satellite(id, coordinates)]: the new instance's location.  The fields of
    [coordinates] are floats, which [float(c)] returns as they are. *)
Definition __init__ (id : string) (coordinates : coord) : M loc :=
  g ← lift (geometry coordinates);
  l ← get (λ σ, fresh (dom (heap σ)));
  modify (λ σ, {| heap := <[l := {| _id := id; _coordinates := coordinates;
                                     _spherical := g.1; _horizon := g.2;
                                     _neighbours := ∅ |}]> (heap σ);
                  _satellites := _satellites σ |});;
  mret l.

(** [__str__] *)
Definition __str__ (self : Satellite_obj) : string := _id self.

Definition math_sin : float → result float := PyFloat.math_1 libm_sin.
Definition math_cos : float → result float := PyFloat.math_1 libm_cos.

(** [cossumhorizon] of [lineofsight]: the cosine of the sum of the horizon
    angles. *)
Definition cossumhorizon (self another : Satellite_obj) : float :=
  cos (_horizon self) * cos (_horizon another)
  - sin (_horizon self) * sin (_horizon another).

(** [cospsi] of [lineofsight]: the cosine of the angle between the
    satellites.  The calls of [cos] and [sin] are made left to right. *)
Definition cospsi (self another : Satellite_obj) : result float :=
  result_bind (math_cos (theta (_spherical self))) (λ c1,
  result_bind (math_cos (theta (_spherical another))) (λ c2,
  result_bind (math_sin (theta (_spherical self))) (λ s1,
  result_bind (math_sin (theta (_spherical another))) (λ s2,
  result_bind (math_cos (phi (_spherical self) - phi (_spherical another))) (λ c3,
  Ok (c1 * c2 + s1 * s2 * c3)))))).

(** [self.lineofsight(another)] on the attributes of the two instances. *)
Definition lineofsight (self another : Satellite_obj) : result bool :=
  let cossumhorizon := cossumhorizon self another in
  result_bind (cospsi self another) (λ cospsi,
  Ok (cossumhorizon <? cospsi)).

(** [self.connect_with(neighbour)] *)
Definition connect_with (self neighbour : loc) : M unit :=
  modify (λ σ, set_neighbours self (_neighbours (obj σ self) ∪ {[neighbour]}) σ).

End WithRuntime.
End Satellite.

(** ** Loops *)

(** [while True: ...] with an exit: the body either continues with a new
    state or leaves with a value.  [None] is a run that did not leave the loop
    within [fuel] iterations, or a body that is stuck. *)
Fixpoint loop {S R : Type} (fuel : nat) (body : S → option (S + R)) (s : S) : option R :=
  match fuel with
  | 0 => None
  | S fuel' =>
      match body s with
      | Some (inl s') => loop fuel' body s'
      | Some (inr r) => Some r
      | None => None
      end
  end.
Global Arguments loop : simpl never.

(** ** heapq (Lib/heapq.py) on a Python list *)

Module heapq.
Section Heap.
Context {A : Type} (lt : A → A → bool).

(** One iteration of [while pos > startpos] in [_siftdown]. *)
Definition _siftdown_body (startpos : nat) (newitem : A)
    (s : list A * nat) : option (list A * nat + list A) :=
  let '(heap, pos) := s in
  if bool_decide (startpos < pos) then
    let parentpos := (pos - 1) / 2 in
    parent ← heap !! parentpos;
    if lt newitem parent
    then Some (inl (<[pos := parent]> heap, parentpos))
    else Some (inr (<[pos := newitem]> heap))
  else Some (inr (<[pos := newitem]> heap)).

Definition _siftdown (heap : list A) (startpos pos : nat) : option (list A) :=
  newitem ← heap !! pos;
  loop (S pos) (_siftdown_body startpos newitem) (heap, pos).

(** One iteration of [while childpos < endpos] in [_siftup]. *)
Definition _siftup_body (endpos : nat)
    (s : list A * nat) : option (list A * nat + list A * nat) :=
  let '(heap, pos) := s in
  let childpos := 2 * pos + 1 in
  if bool_decide (childpos < endpos) then
    let rightpos := childpos + 1 in
    childpos ←
      (if bool_decide (rightpos < endpos) then
         l ← heap !! childpos;
         r ← heap !! rightpos;
         Some (if negb (lt l r) then rightpos else childpos)
       else Some childpos);
    child ← heap !! childpos;
    Some (inl (<[pos := child]> heap, childpos))
  else Some (inr (heap, pos)).

Definition _siftup (heap : list A) (pos : nat) : option (list A) :=
  let endpos := length heap in
  let startpos := pos in
  newitem ← heap !! pos;
  s ← loop (S endpos) (_siftup_body endpos) (heap, pos);
  _siftdown (<[s.2 := newitem]> s.1) startpos s.2.

Definition heappush (heap : list A) (item : A) : option (list A) :=
  let heap := heap ++ [item] in
  _siftdown heap 0 (length heap - 1).

(** [heap.pop()] raises [IndexError] on an empty list. *)
Definition heappop (heap : list A) : option (result (A * list A)) :=
  match last heap with
  | None => Some (Raise IndexError)
  | Some lastelt =>
      match removelast heap with
      | [] => Some (Ok (lastelt, []))
      | returnitem :: rest =>
          heap ← _siftup (lastelt :: rest) 0;
          Some (Ok (returnitem, heap))
      end
  end.

End Heap.
End heapq.

(** ** class Network *)

Module Network.
Section WithRuntime.
Context {rt : Runtime}.

Definition s_lineofsight (s t : loc) : M bool :=
  λ σ, (Satellite.lineofsight (obj σ s) (obj σ t), σ).

(** [visible_satellites_at]: the generator is consumed by [set], member by
    member in the order of iteration. *)
Definition visible_satellites_at (coordinates : coord) : M (gset loc) :=
  t ← Satellite.__init__ "T" coordinates;
  members ← get (λ σ, set_iter (_satellites σ));
  visible ← filter_in_order (λ s, s_lineofsight s t) members;
  mret (list_to_set visible).

(** [connect].  The loop iterates the set it has just stored in
    [satellite.neighbours]; [connect_with] adds [satellite] to the sets of the
    members of that set, which changes the set under iteration only when
    [satellite] is one of them, and then [satellite] is already in it. *)
Definition connect (satellite : loc) : M unit :=
  coordinates ← get (λ σ, _coordinates (obj σ satellite));
  newset ← visible_satellites_at coordinates;
  modify (set_neighbours satellite newset);;
  modify (λ σ, {| heap := heap σ; _satellites := _satellites σ ∪ {[satellite]} |});;
  neighbours ← get (λ σ, set_iter (_neighbours (obj σ satellite)));
  for_each neighbours (λ n, Satellite.connect_with n satellite).

(** A positional argument of a call. *)
Inductive argument : Type :=
| ArgFloat (x : float)
| ArgCoord (c : coord).

(** [*c]: the fields of the named tuple, one argument each. *)
Definition star (c : coord) : list argument :=
  [ArgFloat (latitude c); ArgFloat (longitude c); ArgFloat (altitude c)].

(** [self.visible_satellites_at(args...)]: the method takes one argument
    besides [self]; any other number is a [TypeError], and so is a float
    where the constructor iterates over its coordinates. *)
Definition call_visible_satellites_at (args : list argument) : M (gset loc) :=
  match args with
  | [ArgCoord c] => visible_satellites_at c
  | _ => raise TypeError
  end.

(** [reset] *)
Definition reset : M unit :=
  members ← get (λ σ, set_iter (_satellites σ));
  for_each members (λ s,
    coordinates ← get (λ σ, _coordinates (obj σ s));
    newset ← call_visible_satellites_at (star coordinates);
    modify (set_neighbours s newset)).

(** An entry of the queue of [route]: [(length, satellite, path)]. *)
Definition entry : Type := nat * loc * list loc.

(** [p < q] on two lists of satellites: the first pair of different
    instances decides, a proper prefix is smaller. *)
Fixpoint list_lt (p q : list loc) : bool :=
  match p, q with
  | [], [] => false
  | [], _ :: _ => true
  | _ :: _, [] => false
  | x :: p', y :: q' => if decide (x = y) then list_lt p' q' else obj_lt x y
  end.

(** [a < b] on two entries, as tuples. *)
Definition entry_lt (a b : entry) : bool :=
  let '(la, sa, pa) := a in
  let '(lb, sb, pb) := b in
  if decide (la = lb) then
    if decide (sa = sb) then list_lt pa pb else obj_lt sa sb
  else bool_decide (la < lb).

(** [for neighbour in satellite.neighbours: heappush(queue, (length + 1, neighbour, path))] *)
Fixpoint push_neighbours (queue : list entry) (neighbours : list loc)
    (length : nat) (path : list loc) : option (list entry) :=
  match neighbours with
  | [] => Some queue
  | neighbour :: rest =>
      queue ← heapq.heappush entry_lt queue (length + 1, neighbour, path);
      push_neighbours queue rest length path
  end.

Definition no_route : string := "No route found between given coordinates".
Definition no_start : string := "No satellites in sight at start coordinates".
Definition no_finish : string := "No satellites in sight at finish coordinates".

(** One iteration of [while True] in [route], under [try ... except
    IndexError]. *)
Definition route_body (σ : State) (finishset : gset loc)
    (s : list entry * gset loc) : option (list entry * gset loc + result (list loc)) :=
  let '(queue, seen) := s in
  popped ← heapq.heappop entry_lt queue;
  match popped with
  | Raise IndexError => Some (inr (Raise (RouteNotFound no_route)))
  | Raise e => Some (inr (Raise e))
  | Ok ((length, satellite, path), queue) =>
      if decide (satellite ∈ seen) then Some (inl (queue, seen))
      else
        let path := path ++ [satellite] in
        let seen := seen ∪ {[satellite]} in
        if decide (satellite ∈ finishset) then Some (inr (Ok path))
        else
          queue ← push_neighbours queue
                    (set_iter (_neighbours (obj σ satellite))) length path;
          Some (inl (queue, seen))
  end.

(** The number of iterations [route] can make: every entry is popped once,
    and a satellite pushes its neighbours once. *)
Definition budget (σ : State) (seen : gset loc) : nat :=
  sum_list ((λ l, if decide (l ∈ seen) then 0
                  else S (length (set_iter (_neighbours (obj σ l)))))
            <$> elements (dom (heap σ))).

Definition route_fuel (σ : State) (queue : list entry) : nat :=
  S (length queue + budget σ ∅).

(** [route].  [None]: the search did not end. *)
Definition route (start finish : coord) (σ : State) : option (result (list loc) * State) :=
  match visible_satellites_at start σ with
  | (Raise e, σ) => Some (Raise e, σ)
  | (Ok startset, σ) =>
      if decide (startset = ∅) then Some (Raise (RouteNotFound no_start), σ)
      else
        match visible_satellites_at finish σ with
        | (Raise e, σ) => Some (Raise e, σ)
        | (Ok finishset, σ) =>
            if decide (finishset = ∅) then Some (Raise (RouteNotFound no_finish), σ)
            else
              let queue : list entry := (λ s, (0, s, [])) <$> set_iter startset in
              let seen : gset loc := ∅ in
              r ← loop (route_fuel σ queue) (route_body σ finishset) (queue, seen);
              Some (r, σ)
        end
  end.

End WithRuntime.
End Network.

(** ** Scripts: sequences of calls on one network *)

Inductive call : Type :=
| NewSatellite (id : string) (coordinates : coord)
| Connect (satellite : loc)
| VisibleSatellitesAt (coordinates : coord)
| Route (start finish : coord).

(** The state after a call, whether it returned or raised.  A script can only
    pass an instance it holds: [Connect] of a location that is not allocated
    is not a call. *)
Definition exec {rt : Runtime} (σ : State) (c : call) : State :=
  match c with
  | NewSatellite id coordinates => (Satellite.__init__ id coordinates σ).2
  | Connect satellite =>
      if decide (satellite ∈ dom (heap σ)) then (Network.connect satellite σ).2 else σ
  | VisibleSatellitesAt coordinates => (Network.visible_satellites_at coordinates σ).2
  | Route start finish =>
      match Network.route start finish σ with
      | Some (_, σ') => σ'
      | None => σ
      end
  end.

Definition run {rt : Runtime} (script : list call) : State := foldl exec initial script.

(** The satellites a script connects, in order. *)
Definition connected (script : list call) : list loc :=
  omap (λ c, match c with Connect l => Some l | _ => None end) script.

(** ** [Network.__iter__] *)

(** [iter(network)]: the members, in the order of the set. *)
Definition __iter__ {rt : Runtime} : M (list loc) :=
  get (λ σ, set_iter (_satellites σ)).

(** ** The script *)

(** [float] on a string is the interpreter's: the number it reads, or [None]
    where it raises [ValueError]. *)
Class Builtins : Type := {
  float_of_str : string → option float;
}.

(** A field of a named tuple that [main] builds: a string of the line, or the
    default [0] of [coord]. *)
Inductive field : Type :=
| Str (s : string)
| Default.

(** [coord(lat, lon, alt)] and [coord(lat, lon)] on the strings of a line. *)
Record raw_coord : Type := RawCoordinates {
  raw_latitude : field;
  raw_longitude : field;
  raw_altitude : field;
}.

(** What the script ends with. *)
Inductive outcome : Type :=
| Printed (out : string)                    (** standard output, exit status 0 *)
| Exited (message : string) (exitcode : Z)  (** [fail(message, exitcode)] *)
| Traceback (e : exception)                 (** an exception nobody catches *)
| NameError (name : string).                (** a name that was never assigned *)

(** [start] and [finish], once a line has assigned them. *)
Definition request : Type := option (raw_coord * raw_coord).

Module Script.
Section WithRuntime.
Context {rt : Runtime} {bt : Builtins}.

(** [float(c)] *)
Definition float_ (c : field) : result float :=
  match c with
  | Str s =>
      match float_of_str s with
      | Some x => Ok x
      | None => Raise ValueError
      end
  | Default => Ok 0%float
  end.

(** [coord] of the floats [float(c) for c in coordinates]: the fields are converted in
    order. *)
Definition floats (coordinates : raw_coord) : result coord :=
  result_bind (float_ (raw_latitude coordinates)) (λ latitude,
  result_bind (float_ (raw_longitude coordinates)) (λ longitude,
  result_bind (float_ (raw_altitude coordinates)) (λ altitude,
  Ok (Coordinates latitude longitude altitude)))).

(** [Satellite(id, coordinates)] on coordinates that are not floats yet. *)
Definition Satellite_ (id : string) (coordinates : raw_coord) : M loc :=
  c ← lift (floats coordinates);
  Satellite.__init__ id c.

(** [network.visible_satellites_at(coordinates)] on such coordinates: the
    constructor of the probe converts them. *)
Definition visible_satellites_at (coordinates : raw_coord) : M (gset loc) :=
  c ← lift (floats coordinates);
  Network.visible_satellites_at c.

(** [network.route(start, finish)] on such coordinates: the method of
    [Network], whose two calls of [visible_satellites_at] convert them. *)
Definition route (start finish : raw_coord) (σ : State) : option (result (list loc) * State) :=
  match visible_satellites_at start σ with
  | (Raise e, σ) => Some (Raise e, σ)
  | (Ok startset, σ) =>
      if decide (startset = ∅) then Some (Raise (RouteNotFound Network.no_start), σ)
      else
        match visible_satellites_at finish σ with
        | (Raise e, σ) => Some (Raise e, σ)
        | (Ok finishset, σ) =>
            if decide (finishset = ∅) then Some (Raise (RouteNotFound Network.no_finish), σ)
            else
              let queue : list Network.entry := (λ s, (0, s, [])) <$> set_iter startset in
              let seen : gset loc := ∅ in
              r ← loop (Network.route_fuel σ queue) (Network.route_body σ finishset) (queue, seen);
              Some (r, σ)
        end
  end.

(** [line.startswith(prefix)] *)
Definition startswith (line prefix : string) : bool := String.prefix prefix line.

(** [line.split(sep)] for a separator of one character: one more string than
    the line has separators. *)
Fixpoint split (sep : Ascii.ascii) (line : string) : list string :=
  match line with
  | EmptyString => [EmptyString]
  | String c line' =>
      if Ascii.eqb c sep then EmptyString :: split sep line'
      else
        match split sep line' with
        | word :: words => String c word :: words
        | [] => [String c EmptyString]
        end
  end.

(** The body of [if line.startswith('SAT')]; unpacking a list that has not
    four items raises [ValueError]. *)
Definition sat_line (line : string) : M unit :=
  match split ","%char line with
  | [ID; lat; lon; alt] =>
      s ← Satellite_ ID (RawCoordinates (Str lat) (Str lon) (Str alt));
      Network.connect s
  | _ => raise ValueError
  end.

(** The body of [if line.startswith('ROUTE')]: the new [start] and
    [finish]. *)
Definition route_line (line : string) : result (raw_coord * raw_coord) :=
  match split ","%char line with
  | [route; lat1; lon1; lat2; lon2] =>
      Ok (RawCoordinates (Str lat1) (Str lon1) Default,
          RawCoordinates (Str lat2) (Str lon2) Default)
  | _ => Raise ValueError
  end.

(** The body of [for line in fileinput.input()], on the network and the
    variables [start] and [finish]. *)
Definition read_line (line : string) (v : State * request) : result unit * (State * request) :=
  let '(σ, q) := v in
  if startswith line "#" then (Ok tt, (σ, q))
  else
    match (if startswith line "SAT" then sat_line line σ else (Ok tt, σ)) with
    | (Raise e, σ) => (Raise e, (σ, q))
    | (Ok _, σ) =>
        if startswith line "ROUTE" then
          match route_line line with
          | Ok q' => (Ok tt, (σ, Some q'))
          | Raise e => (Raise e, (σ, q))
          end
        else (Ok tt, (σ, q))
    end.

(** The loop over the lines; the handler [except Exception] raises the
    exception again. *)
Fixpoint read (lines : list string) (v : State * request) : result unit * (State * request) :=
  match lines with
  | [] => (Ok tt, v)
  | line :: lines' =>
      match read_line line v with
      | (Ok _, v') => read lines' v'
      | (Raise e, v') => (Raise e, v')
      end
  end.

(** [print] of the satellites of [path], with [sep] a comma *)
Definition print_path (σ : State) (path : list loc) : string :=
  String.concat "," ((λ s, Satellite.__str__ (obj σ s)) <$> path) +:+ String "010" EmptyString.

(** The script on the lines of its input.  [None]: the search of [route] did
    not end. *)
Definition main (lines : list string) : option outcome :=
  match read lines (initial, None) with
  | (Raise e, _) => Some (Traceback e)
  | (Ok _, (σ, None)) => Some (NameError "start")
  | (Ok _, (σ, Some (start, finish))) =>
      r ← route start finish σ;
      Some match r.1 with
           | Ok path => Printed (print_path r.2 path)
           | Raise (RouteNotFound reason) => Exited reason 1
           | Raise e => Traceback e
           end
  end.

(** The names of the satellites of a data file: the first field of every
    line that starts with [SAT]. *)
Definition names (lines : list string) : list string :=
  omap (λ line, if startswith line "SAT" then head (split "," line) else None) lines.

End WithRuntime.
End Script.

(** * Specifications *)

(** ** States *)

(** The neighbour set of the instance at [x]. *)
Definition nb (σ : State) (x : loc) : gset loc := _neighbours (obj σ x).

Definition with_neighbours (o : Satellite_obj) (X : gset loc) : Satellite_obj :=
  {| _id := _id o; _coordinates := _coordinates o; _spherical := _spherical o;
     _horizon := _horizon o; _neighbours := X |}.

(** The instance [Satellite(id, c)] builds from the geometry [g] of [c]. *)
Definition instance (id : string) (c : coord) (g : spher * horizon) : Satellite_obj :=
  {| _id := id; _coordinates := c; _spherical := g.1; _horizon := g.2; _neighbours := ∅ |}.

Definition alloc (o : Satellite_obj) (σ : State) : State :=
  {| heap := <[fresh (dom (heap σ)) := o]> (heap σ); _satellites := _satellites σ |}.

Definition add_member (l : loc) (σ : State) : State :=
  {| heap := heap σ; _satellites := _satellites σ ∪ {[l]} |}.

(** The state after [n.connect_with(l)] for every [n] of [ns]. *)
Definition link_all (l : loc) (ns : list loc) (σ : State) : State :=
  foldl (λ σ n, set_neighbours n (nb σ n ∪ {[l]}) σ) σ ns.

(** The state after the three steps of [connect] that follow
    [visible_satellites_at]. *)
Definition connect_state {rt : Runtime} (l : loc) (X : gset loc) (σ : State) : State :=
  link_all l (set_iter X) (add_member l (set_neighbours l X σ)).

(** A step that only allocates an instance without neighbours, or does
    nothing. *)
Definition allocates (σ σ' : State) : Prop :=
  σ' = σ ∨ ∃ o, _neighbours o = ∅ ∧
    Satellite.geometry (_coordinates o) = Ok (_spherical o, _horizon o) ∧ σ' = alloc o σ.

(** [filter_in_order] with a test that leaves the state as it is. *)
Fixpoint filter_res {A} (f : A → result bool) (xs : list A) : result (list A) :=
  match xs with
  | [] => Ok []
  | x :: xs' =>
      result_bind (f x) (λ b,
      result_bind (filter_res f xs') (λ ys, Ok (if b : bool then x :: ys else ys)))
  end.

Definition same_geometry (o o' : Satellite_obj) : Prop :=
  _spherical o = _spherical o' ∧ _horizon o = _horizon o'.

(** The neighbour relation is symmetric. *)
Definition symmetric (σ : State) : Prop := ∀ x y, y ∈ nb σ x → x ∈ nb σ y.

(** No satellite is its own neighbour. *)
Definition self_free (σ : State) : Prop := ∀ x, x ∉ nb σ x.

(** The states of a running script: members are allocated, neighbours are
    members, every instance has the geometry of its coordinates, and a
    neighbour was in line of sight when it was added. *)
Record wf_state {rt : Runtime} (σ : State) : Prop := {
  wf_members : _satellites σ ⊆ dom (heap σ);
  wf_neighbours : ∀ x y, y ∈ nb σ x → x ∈ _satellites σ ∧ y ∈ _satellites σ;
  wf_geometry : ∀ x, x ∈ dom (heap σ) →
    Satellite.geometry (_coordinates (obj σ x)) = Ok (_spherical (obj σ x), _horizon (obj σ x));
  wf_sight : ∀ x y, y ∈ nb σ x →
    Satellite.lineofsight (obj σ y) (obj σ x) = Ok true ∨
    Satellite.lineofsight (obj σ x) (obj σ y) = Ok true;
}.

(** What a query may change: nothing of the network, of a neighbour set or
    of an instance that exists. *)
Definition unchanged (σ σ' : State) : Prop :=
  _satellites σ' = _satellites σ ∧
  (∀ l, _neighbours (obj σ' l) = _neighbours (obj σ l)) ∧
  (∀ l o, heap σ !! l = Some o → heap σ' !! l = Some o).

(** ** Visibility and paths *)

(** The member [s] is visible at [c]: [s.lineofsight(t)] is [True] for the
    probe [t = Satellite('T', c)]. *)
Definition sees {rt : Runtime} (σ : State) (c : coord) (s : loc) : Prop :=
  s ∈ _satellites σ ∧
  ∃ g, Satellite.geometry c = Ok g ∧
       Satellite.lineofsight (obj σ s) (instance "T" c g) = Ok true.

(** Consecutive satellites of [p] are neighbours. *)
Definition is_path (σ : State) (p : list loc) : Prop :=
  ∀ i x y, p !! i = Some x → p !! S i = Some y → y ∈ nb σ x.

(** [p] leads from a satellite visible at [start] to one visible at
    [finish]. *)
Definition connects {rt : Runtime} (σ : State) (start finish : coord) (p : list loc) : Prop :=
  is_path σ p ∧ (∃ s, head p = Some s ∧ sees σ start s) ∧
  (∃ f, last p = Some f ∧ sees σ finish f).

(** The number of edges of a path. *)
Definition hops (p : list loc) : nat := length p - 1.

(** ** The search of [route] *)

Definition walk (σ : State) (S : gset loc) (p : list loc) (v : loc) : Prop :=
  is_path σ (p ++ [v]) ∧ ∃ s, head (p ++ [v]) = Some s ∧ s ∈ S.

Definition route_path (σ : State) (S F : gset loc) (p : list loc) : Prop :=
  is_path σ p ∧ (∃ s, head p = Some s ∧ s ∈ S) ∧ (∃ f, last p = Some f ∧ f ∈ F).

(** The key of a queue entry. *)
Definition entry_length (e : Network.entry) : nat := e.1.1.

Section HeapOrder.
Context {A : Type} (key : A → nat).

(** No item has a smaller key than its parent. *)
Definition heap_ok (h : list A) : Prop :=
  ∀ j x y, 0 < j → h !! ((j - 1) / 2) = Some x → h !! j = Some y → key x ≤ key y.

(** The same, but for the position [pos], whose item is being moved. *)
Definition hole_ok (h : list A) (pos : nat) : Prop :=
  (∀ j x y, 0 < j → j ≠ pos → (j - 1) / 2 ≠ pos →
     h !! ((j - 1) / 2) = Some x → h !! j = Some y → key x ≤ key y) ∧
  (∀ j x y, 0 < pos → 0 < j → (j - 1) / 2 = pos →
     h !! ((pos - 1) / 2) = Some x → h !! j = Some y → key x ≤ key y).

Definition above_children (h : list A) (pos : nat) (item : A) : Prop :=
  ∀ j y, 0 < j → (j - 1) / 2 = pos → h !! j = Some y → key item ≤ key y.

End HeapOrder.

(** The invariant of [while True] in [route]. *)
Record bfs_inv (σ : State) (S F : gset loc) (Q : list Network.entry) (seen : gset loc) : Prop := {
  bfs_heap : heap_ok entry_length Q;
  bfs_entries : ∀ k s p, (k, s, p) ∈ Q → length p = k ∧ walk σ S p s;
  bfs_seen : ∀ u p w, u ∈ seen → walk σ S p u → w ∈ nb σ u →
    w ∈ seen ∨ ∃ k q, (k, w, q) ∈ Q ∧ k ≤ length p + 1;
  bfs_start : ∀ s, s ∈ S → s ∈ seen ∨ ∃ q, (0, s, q) ∈ Q;
  bfs_finish : ∀ f, f ∈ seen → f ∉ F;
}.

Definition route_post (σ : State) (S F : gset loc) (r : result (list loc)) : Prop :=
  match r with
  | Ok p => route_path σ S F p ∧ ∀ p', route_path σ S F p' → length p ≤ length p'
  | Raise e => e = RouteNotFound Network.no_route ∧ ∀ p', ¬ route_path σ S F p'
  end.

(** The state [route] ends in. *)
Definition route_end {rt : Runtime} (start finish : coord) (σ : State) : State :=
  match Network.visible_satellites_at start σ with
  | (Raise e, σ1) => σ1
  | (Ok startset, σ1) =>
      if decide (startset = ∅) then σ1 else (Network.visible_satellites_at finish σ1).2
  end.

(** What [route] does, by what its two calls of [visible_satellites_at] do:
    an exception of either call is the exception of [route]; an empty set ends
    the call with its own reason; otherwise the search decides. *)
Definition route_outcome {rt : Runtime} (σ : State) (start finish : coord)
    (r : result (list loc)) : Prop :=
  match Network.visible_satellites_at start σ with
  | (Raise e, _) => r = Raise e
  | (Ok startset, σ1) =>
      if decide (startset = ∅) then r = Raise (RouteNotFound Network.no_start)
      else
        match Network.visible_satellites_at finish σ1 with
        | (Raise e, _) => r = Raise e
        | (Ok finishset, _) =>
            if decide (finishset = ∅) then r = Raise (RouteNotFound Network.no_finish)
            else (r = Raise (RouteNotFound Network.no_route) ∧
                  ∀ p, ¬ connects σ start finish p) ∨
                 ∃ p, r = Ok p ∧ connects σ start finish p ∧
                      ∀ p', connects σ start finish p' → length p ≤ length p'
        end
  end.

(** ** Two interpreters *)

Definition same_libm (rt1 rt2 : Runtime) : Prop :=
  @libm_sin rt1 = @libm_sin rt2 ∧ @libm_cos rt1 = @libm_cos rt2.

(** Two outcomes of [route] that differ at most in which of the shortest
    paths they return. *)
Definition agree (o1 o2 : option (result (list loc) * State)) : Prop :=
  match o1, o2 with
  | Some (Ok p1, σ1), Some (Ok p2, σ2) => length p1 = length p2 ∧ σ1 = σ2
  | Some (Raise e1, σ1), Some (Raise e2, σ2) => e1 = e2 ∧ σ1 = σ2
  | _, _ => False
  end.

(** * The interpreters of the examples *)

(** The values the C library returns at the arguments the examples below
    evaluate; each is the correctly rounded value of the function.  Elsewhere
    the table holds a NaN, which [math_1] turns into a [ValueError]: an example
    that left the table would raise. *)
Definition table_cos (x : float) : float :=
  let a := abs x in
  if (a =? 0)%float then 1%float
  else if (a =? 0x1.0c152382d7365p+0)%float then 0x1.0000000000001p-1%float
  else if (a =? 0x1.0c152382d7366p+0)%float then 0x1.ffffffffffffep-2%float
  else if (a =? 0x1.657184ae74487p+0)%float then 0x1.63a1a7e0b738cp-3%float
  else if (a =? 0x1.657184ae74487p-1)%float then 0x1.8836fa2cf5039p-1%float
  else if (a =? 0x1.657184ae74487p-2)%float then 0x1.e11f642522d1cp-1%float
  else if (a =? 0x1.657184ae74488p-2)%float then 0x1.e11f642522d1bp-1%float
  else if (a =? 0x1.6e6127ff9d971p+0)%float then 0x1.1d06c968d9e1ap-3%float
  else if (a =? 0x1.921fb54442d18p+0)%float then 0x1.1a62633145c07p-54%float
  else if (a =? 0x1.becde5da115a9p+0)%float then (-0x1.63a1a7e0b7388p-3)%float
  else nan.

Definition table_sin (x : float) : float :=
  if (x =? 0)%float then x
  else if (x =? 0x1.6e6127ff9d971p+0)%float then 0x1.fb046a930947ap-1%float
  else if (x =? 0x1.921fb54442d18p+0)%float then 1%float
  else nan.

(** Sets are iterated in the order of [elements]; instances are ordered by
    their locations. *)
Definition table_rt : Runtime :=
  {| libm_sin := table_sin; libm_cos := table_cos;
     set_iter := elements; obj_lt := Pos.ltb |}.

(** The same interpreter, but sets are iterated the other way round. *)
Definition reverse_rt : Runtime :=
  {| libm_sin := table_sin; libm_cos := table_cos;
     set_iter := λ X, reverse (elements X); obj_lt := Pos.ltb |}.

(** Three satellites over the equator, 40 degrees apart, 1000 km high: the
    first and the third do not see each other. *)
Definition equator : list call :=
  [ NewSatellite "S1" (Coordinates 0 0 1000); Connect 1%positive;
    NewSatellite "S2" (Coordinates 0 40 1000); Connect 3%positive;
    NewSatellite "S3" (Coordinates 0 80 1000); Connect 5%positive ].

(** Two satellites over the north pole. *)
Definition pole_pair : list call :=
  [ NewSatellite "S1" (Coordinates 90 0 1000); Connect 1%positive;
    NewSatellite "S2" (Coordinates 90 0 2000); Connect 3%positive ].

(** One satellite, connected twice. *)
Definition connected_twice : list call :=
  [ NewSatellite "S1" (Coordinates 90 0 1000); Connect 1%positive; Connect 1%positive ].

(** One satellite on the ground, at 8 degrees north. *)
Definition grounded : list call :=
  [ NewSatellite "S1" (Coordinates 8 0 0); Connect 1%positive ].

(** [float] on the strings of the example below. *)
Definition table_float (s : string) : option float :=
  if String.eqb s "0" then Some 0%float
  else if String.eqb s "40" then Some 40%float
  else if String.eqb s "80" then Some 80%float
  else if String.eqb s "-20" then Some (-20)%float
  else if String.eqb s "1000
" then Some 1000%float
  else if String.eqb s "100
" then Some 100%float
  else None.

Definition table_bt : Builtins := {| float_of_str := table_float |}.

(** The three satellites of [equator] as a data file. *)
Definition equator_file : list string :=
  [ "#SEED: 0.5
"; "SAT1,0,0,1000
"; "SAT2,0,40,1000
"; "SAT3,0,80,1000
"; "ROUTE,0,-20,0,100
" ].

(** Two satellites, the second not connected yet. *)
Definition equator_two : list call :=
  [ NewSatellite "S1" (Coordinates 0 0 1000); Connect 1%positive;
    NewSatellite "S2" (Coordinates 0 40 1000) ].

(** The same, 33 degrees apart: a difference of longitudes that is not in the
    table of [table_cos]. *)
Definition off_table : list call :=
  [ NewSatellite "S1" (Coordinates 0 0 1000); Connect 1%positive;
    NewSatellite "S2" (Coordinates 0 33 1000) ].

(** * Proofs *)

(** ** Floats *)

Module FloatFacts.
Local Open Scope float_scope.

Lemma Prim2SF_inj (x y : float) : Prim2SF x = Prim2SF y → x = y.
Proof.
  intros H. rewrite <- (SF2Prim_Prim2SF x), <- (SF2Prim_Prim2SF y). by rewrite H.
Qed.

Lemma mul_comm (x y : float) : x * y = y * x.
Proof.
  apply Prim2SF_inj. rewrite !mul_spec.
  destruct (Prim2SF x) as [sx|sx| |sx mx ex], (Prim2SF y) as [sy|sy| |sy my ey];
    unfold SF64mul; simpl; rewrite ?(xorb_comm sx sy); try reflexivity.
  by rewrite Pos.mul_comm, Z.add_comm.
Qed.

Lemma binary_round_aux_opp (s : bool) (m e : Z) (l : location) :
  SFopp (binary_round_aux prec emax s m e l) = binary_round_aux prec emax (negb s) m e l.
Proof.
  unfold binary_round_aux.
  destruct (shr_fexp prec emax m e l) as [mrs' e'].
  destruct (shr_fexp prec emax _ e' loc_Exact) as [mrs'' e''].
  destruct (shr_m mrs''); try reflexivity.
  by destruct (Z.leb e'' (emax - prec)).
Qed.

Lemma binary_normalize_opp (m e : Z) :
  m ≠ 0%Z →
  SFopp (binary_normalize prec emax m e false) = binary_normalize prec emax (- m) e false.
Proof.
  destruct m as [|p|p]; [done| |]; intros _; simpl; unfold binary_round;
    destruct (shl_align _ _ _) as [mz ez]; apply binary_round_aux_opp.
Qed.

Lemma SFsub_swap (x y : spec_float) :
  SF64sub x y = SFopp (SF64sub y x) ∨
  (SF64sub x y = S754_zero false ∧ SF64sub y x = S754_zero false).
Proof.
  destruct x as [sx|sx| |sx mx ex], y as [sy|sy| |sy my ey];
    try (left; by repeat match goal with b : bool |- _ => destruct b end).
  all: try (destruct sx, sy; ((left; reflexivity) || (right; done))).
  unfold SF64sub, SFsub. rewrite (Z.min_comm ey ex).
  set (ez := Z.min ex ey).
  set (a := cond_Zopp sx (Z.pos (shl_align mx ex ez).1)).
  set (b := cond_Zopp sy (Z.pos (shl_align my ey ez).1)).
  destruct (decide (a - b = 0)%Z) as [Hz|Hnz].
  - right. replace (b - a)%Z with 0%Z by lia. by rewrite Hz.
  - left. rewrite binary_normalize_opp by lia. f_equal. lia.
Qed.

Lemma sub_swap (x y : float) : x - y = - (y - x) ∨ x - y = y - x.
Proof.
  destruct (SFsub_swap (Prim2SF x) (Prim2SF y)) as [H|[H1 H2]].
  - left. apply Prim2SF_inj. by rewrite opp_spec, !sub_spec.
  - right. apply Prim2SF_inj. by rewrite !sub_spec, H1, H2.
Qed.

Lemma SFeqb_refl (s : spec_float) :
  SFeqb s s = match s with S754_nan => false | _ => true end.
Proof.
  unfold SFeqb. destruct s as [[]|[]| |[] m e]; simpl; try done;
    by rewrite Z.compare_refl, Pos.compare_cont_refl.
Qed.

Lemma is_nan_spec (x : float) :
  is_nan x = match Prim2SF x with S754_nan => true | _ => false end.
Proof.
  unfold is_nan. rewrite FloatAxioms.eqb_spec, SFeqb_refl. by destruct (Prim2SF x).
Qed.

Lemma is_nan_opp (x : float) : is_nan (- x) = is_nan x.
Proof. rewrite !is_nan_spec, opp_spec. by destruct (Prim2SF x). Qed.

Lemma abs_opp (x : float) : abs (- x) = abs x.
Proof.
  apply Prim2SF_inj. rewrite !abs_spec, opp_spec. by destruct (Prim2SF x).
Qed.

Lemma is_infinity_opp (x : float) : is_infinity (- x) = is_infinity x.
Proof. unfold is_infinity. by rewrite abs_opp. Qed.

Lemma is_finite_opp (x : float) : is_finite (- x) = is_finite x.
Proof. unfold is_finite. by rewrite is_nan_opp, is_infinity_opp. Qed.

(** A C function that is even stays even behind [math_1]. *)
Lemma math_1_even (f : float → float) (x : float) :
  f (- x) = f x → PyFloat.math_1 f (- x) = PyFloat.math_1 f x.
Proof.
  intros H. unfold PyFloat.math_1.
  by rewrite H, is_nan_opp, is_finite_opp.
Qed.

Lemma math_1_raises (f : float → float) (x : float) (e : exception) :
  PyFloat.math_1 f x = Raise e → e = ValueError.
Proof.
  unfold PyFloat.math_1. repeat case_match; congruence.
Qed.

End FloatFacts.

Module SqrtFacts.
Local Open Scope Z_scope.

Lemma digits2_pos_size (p : positive) : digits2_pos p = Pos.size p.
Proof. induction p; simpl; by rewrite ?IHp. Qed.

Lemma Zdigits2_log2 (m : Z) : 0 < m → Zdigits2 m = Z.log2 m + 1.
Proof.
  destruct m as [|p|p]; try lia. intros _. simpl.
  destruct p; simpl; rewrite ?digits2_pos_size; lia.
Qed.

Lemma Zdigits2_nonneg (m : Z) : 0 ≤ Zdigits2 m.
Proof. destruct m; simpl; lia. Qed.

Lemma Zdigits2_le (a b : Z) : 0 ≤ a ≤ b → Zdigits2 a ≤ Zdigits2 b.
Proof.
  intros [Ha Hab]. destruct (decide (a = 0)) as [->|]; [apply Zdigits2_nonneg|].
  rewrite !Zdigits2_log2 by lia. pose proof (Z.log2_le_mono a b Hab). lia.
Qed.

Lemma Zdigits2_succ (a : Z) : 0 ≤ a → Zdigits2 (a + 1) ≤ Zdigits2 a + 1.
Proof.
  intros Ha. destruct (decide (a = 0)) as [->|]; [done|].
  rewrite !Zdigits2_log2 by lia. pose proof (Z.log2_succ_le a) as H.
  rewrite <- Z.add_1_r in H. lia.
Qed.

Lemma Zdigits2_shiftl (a s : Z) : 0 < a → 0 ≤ s → Zdigits2 (Z.shiftl a s) = Zdigits2 a + s.
Proof.
  intros Ha Hs. rewrite !Zdigits2_log2; [|done|].
  2:{ rewrite Z.shiftl_mul_pow2 by done. apply Z.mul_pos_pos; [done|]. by apply Z.pow_pos_nonneg. }
  rewrite Z.log2_shiftl by done. lia.
Qed.

Lemma shr_1_bounds (mrs : shr_record) :
  0 ≤ shr_m mrs → 0 ≤ shr_m (shr_1 mrs) ≤ shr_m mrs.
Proof. destruct mrs as [[|[p|p|]|p] r s]; simpl; lia. Qed.

Lemma iter_shr_1_bounds (p : positive) (mrs : shr_record) :
  0 ≤ shr_m mrs → 0 ≤ shr_m (SpecFloat.iter_pos shr_1 p mrs) ≤ shr_m mrs.
Proof.
  revert mrs. induction p as [p IH|p IH|]; intros mrs Hm; simpl.
  - pose proof (shr_1_bounds mrs Hm) as H1.
    pose proof (IH (shr_1 mrs) (proj1 H1)) as H2.
    pose proof (IH _ (proj1 H2)). lia.
  - pose proof (IH mrs Hm) as H2. pose proof (IH _ (proj1 H2)). lia.
  - by apply shr_1_bounds.
Qed.

Lemma shr_m_record_of_loc (m : Z) (l : location) : shr_m (shr_record_of_loc m l) = m.
Proof. by destruct l as [|[]]. Qed.

Lemma shr_fexp_bounds (m e : Z) (l : location) :
  0 ≤ m →
  0 ≤ shr_m (shr_fexp prec emax m e l).1 ≤ m ∧
  (shr_fexp prec emax m e l).2 = Z.max e (fexp prec emax (Zdigits2 m + e)).
Proof.
  intros Hm. unfold shr_fexp, shr.
  destruct (fexp prec emax (Zdigits2 m + e) - e) as [|p|p] eqn:Hn; simpl;
    rewrite ?shr_m_record_of_loc; try lia.
  pose proof (iter_shr_1_bounds p (shr_record_of_loc m l)) as H.
  rewrite shr_m_record_of_loc in H. lia.
Qed.

Lemma round_nearest_even_bounds (m : Z) (l : location) :
  0 ≤ m → 0 ≤ round_nearest_even m l ≤ m + 1.
Proof. intros Hm. destruct l as [|[]]; simpl; try lia. destruct (Z.even m); lia. Qed.

(** Rounding a mantissa that is not negative gives no NaN, and no infinity
    when the number is far from the largest exponent. *)
Lemma binary_round_aux_finite (s : bool) (m e : Z) (l : location) :
  0 ≤ m → e ≤ 600 → Zdigits2 m ≤ 200 →
  match binary_round_aux prec emax s m e l with
  | S754_nan | S754_infinity _ => False
  | _ => True
  end.
Proof.
  intros Hm He Hd. unfold binary_round_aux.
  destruct (shr_fexp_bounds m e l Hm) as [Hm1 He1].
  destruct (shr_fexp prec emax m e l) as [mrs' e']. simpl in Hm1, He1.
  pose proof (round_nearest_even_bounds (shr_m mrs') (loc_of_shr_record mrs') (proj1 Hm1)) as Hr.
  set (mr := round_nearest_even (shr_m mrs') (loc_of_shr_record mrs')) in *.
  destruct (shr_fexp_bounds mr e' loc_Exact (proj1 Hr)) as [Hm2 He2].
  destruct (shr_fexp prec emax mr e' loc_Exact) as [mrs'' e'']. simpl in Hm2, He2.
  destruct (shr_m mrs'') as [|p|p]; [done| |lia].
  assert (Zdigits2 mr ≤ Zdigits2 m + 1).
  { etrans; [apply (Zdigits2_le mr (m + 1)); lia|]. by apply Zdigits2_succ. }
  assert (e'' ≤ emax - prec) as ->%Z.leb_le; [|done].
  subst e' e''. unfold fexp, emin, emax, prec in *. lia.
Qed.

Lemma SFsqrt_finite (m : positive) (e : Z) :
  bounded prec emax m e = true →
  match SF64sqrt (S754_finite false m e) with
  | S754_nan | S754_infinity _ => False
  | _ => True
  end.
Proof.
  intros [Hcan He%Z.leb_le]%andb_true_iff. apply Z.eqb_eq in Hcan.
  unfold SF64sqrt, SFsqrt, SFsqrt_core_binary.
  set (d := Zdigits2 (Z.pos m)).
  set (e' := Z.min (fexp prec emax (Z.div2 (d + e + 1))) (Z.div2 e)).
  set (sh := e - 2 * e').
  set (m' := match sh with Z.pos _ => Z.shiftl (Z.pos m) sh | 0 => Z.pos m | Z.neg _ => 0 end).
  assert (Hd : 1 ≤ d ≤ 53).
  { unfold d. simpl. unfold fexp, emin, emax, prec in *. lia. }
  assert (He' : Z.div2 e - 53 ≤ e' ≤ Z.div2 e).
  { unfold e', fexp, emin, emax, prec. rewrite !Z.div2_div. lia. }
  assert (Hsh : 0 ≤ sh ≤ 107).
  { unfold sh. rewrite Z.div2_div in He'. lia. }
  assert (Hm' : 0 ≤ m' ∧ Zdigits2 m' ≤ d + sh).
  { unfold m'. destruct sh as [|p|p] eqn:Hp; [fold d; lia| |lia].
    rewrite Zdigits2_shiftl by lia. pose proof (proj2 (Z.shiftl_nonneg (Z.pos m) (Z.pos p))). fold d. lia. }
  destruct (Z.sqrtrem m') as [q r] eqn:Hqr.
  assert (q = Z.sqrt m') as -> by by rewrite <- Z.sqrtrem_sqrt, Hqr.
  apply binary_round_aux_finite.
  - apply Z.sqrt_nonneg.
  - rewrite Z.div2_div in He'. unfold emax, prec in He. lia.
  - etrans; [apply (Zdigits2_le _ m'); split; [apply Z.sqrt_nonneg|apply Z.sqrt_le_lin; lia]|lia].
Qed.

End SqrtFacts.

(** ** Line of sight *)

Section LineOfSight.
Context (rt : Runtime).
Local Open Scope float_scope.

Lemma math_cos_sub_swap (x y : float) :
  libm_cos_even rt → Satellite.math_cos (x - y) = Satellite.math_cos (y - x).
Proof.
  intros Heven. unfold Satellite.math_cos.
  destruct (FloatFacts.sub_swap x y) as [-> | ->]; [|done].
  apply FloatFacts.math_1_even, Heven.
Qed.

Lemma lineofsight_sym (A B : Satellite_obj) :
  libm_cos_even rt → Satellite.lineofsight A B = Satellite.lineofsight B A.
Proof.
  intros Heven. unfold Satellite.lineofsight, Satellite.cospsi, Satellite.cossumhorizon.
  rewrite (math_cos_sub_swap (phi (_spherical A)) (phi (_spherical B)) Heven).
  rewrite (FloatFacts.mul_comm (cos (_horizon A))), (FloatFacts.mul_comm (sin (_horizon A))).
  unfold Satellite.math_cos, Satellite.math_sin.
  destruct (PyFloat.math_1 libm_cos (theta (_spherical A))) as [c1|e1] eqn:E1;
  destruct (PyFloat.math_1 libm_cos (theta (_spherical B))) as [c2|e2] eqn:E2;
  destruct (PyFloat.math_1 libm_sin (theta (_spherical A))) as [s1|e3] eqn:E3;
  destruct (PyFloat.math_1 libm_sin (theta (_spherical B))) as [s2|e4] eqn:E4;
  destruct (PyFloat.math_1 libm_cos (phi (_spherical B) - phi (_spherical A))) as [c3|e5] eqn:E5;
  simpl;
  repeat match goal with
         | H : PyFloat.math_1 _ _ = Raise _ |- _ => apply FloatFacts.math_1_raises in H; subst
         end; try reflexivity.
  by rewrite (FloatFacts.mul_comm c1), (FloatFacts.mul_comm s1).
Qed.
End LineOfSight.

(** ** Geometry *)

Section Geometry.
Local Open Scope float_scope.

Lemma is_infinity_spec (x : float) :
  is_infinity x = match Prim2SF x with S754_infinity _ => true | _ => false end.
Proof.
  unfold is_infinity. rewrite FloatAxioms.eqb_spec, abs_spec.
  replace (Prim2SF infinity) with (S754_infinity false) by reflexivity.
  by destruct (Prim2SF x) as [[]|[]| |[] m e].
Qed.

Lemma ltb_zero_spec (x : float) :
  (x <? 0) = match Prim2SF x with
             | S754_infinity true | S754_finite true _ _ => true
             | _ => false
             end.
Proof.
  rewrite ltb_spec. replace (Prim2SF 0) with (S754_zero false) by reflexivity.
  by destruct (Prim2SF x) as [[]|[]| |[] m e].
Qed.

(** [math.sqrt] raises on the negative numbers and on nothing else. *)
Lemma math_sqrt_spec (x : float) :
  PyFloat.math_sqrt x = if x <? 0 then Raise ValueError else Ok (sqrt x).
Proof.
  unfold PyFloat.math_sqrt, PyFloat.math_1, is_finite.
  rewrite ltb_zero_spec, !FloatFacts.is_nan_spec, !is_infinity_spec, sqrt_spec.
  pose proof (Prim2SF_valid x) as Hvalid.
  destruct (Prim2SF x) as [[]|[]| |[] m e] eqn:Hx; try reflexivity.
  pose proof (SqrtFacts.SFsqrt_finite m e Hvalid) as H.
  by destruct (SF64sqrt (S754_finite false m e)).
Qed.

Lemma geometry_eq (c : coord) :
  Satellite.geometry c =
  let radius := 6371 + altitude c in
  let coshorizon := 6371 / radius in
  if radius =? 0 then Raise ZeroDivisionError
  else if 1 - coshorizon * coshorizon <? 0 then Raise ValueError
  else Ok (Spherical ((90 - latitude c) * (2 * PyFloat.pi / 360))
                     (longitude c * (2 * PyFloat.pi / 360)) radius,
           Horizon (sqrt (1 - coshorizon * coshorizon)) coshorizon).
Proof.
  unfold Satellite.geometry, PyFloat.truediv. cbn [radius].
  destruct (6371 + altitude c =? 0); [done|]. cbn [result_bind].
  rewrite math_sqrt_spec. by destruct (_ <? 0).
Qed.

(** On the ground the horizon angle is zero. *)
Lemma geometry_ground (lat lon : float) :
  Satellite.geometry (Coordinates lat lon 0) =
  Ok (Spherical ((90 - lat) * (2 * PyFloat.pi / 360)) (lon * (2 * PyFloat.pi / 360)) 6371,
      Horizon 0 1).
Proof. rewrite geometry_eq. reflexivity. Qed.

Lemma lineofsight_ground {rt : Runtime} (a b : Satellite_obj) :
  _horizon a = Horizon 0 1 → _horizon b = Horizon 0 1 →
  Satellite.lineofsight a b = result_bind (Satellite.cospsi a b) (λ cospsi, Ok (1 <? cospsi)).
Proof.
  intros Ha Hb. unfold Satellite.lineofsight, Satellite.cossumhorizon. by rewrite Ha, Hb.
Qed.

End Geometry.

(** ** Loops and heapq *)

Lemma loop_S {S R} (fuel : nat) (body : S → option (S + R)) (s : S) :
  loop (Datatypes.S fuel) body s =
  match body s with
  | Some (inl s') => loop fuel body s'
  | Some (inr r) => Some r
  | None => None
  end.
Proof. done. Qed.

Lemma loop_spec {S R} (I : S → Prop) (Q : R → Prop) (μ : S → nat)
    (body : S → option (S + R)) :
  (∀ s, I s → match body s with
              | Some (inl s') => I s' ∧ μ s' < μ s
              | Some (inr r) => Q r
              | None => False
              end) →
  ∀ fuel s, I s → μ s < fuel → ∃ r, loop fuel body s = Some r ∧ Q r.
Proof.
  intros Hbody fuel. induction fuel as [|fuel IH]; intros s HI Hμ; [lia|].
  rewrite loop_S. specialize (Hbody s HI). destruct (body s) as [[s'|r]|]; [|eauto|done].
  destruct Hbody as [HI' Hlt]. apply IH; [done|lia].
Qed.

Lemma insert_swap_perm {A} (l : list A) (i : nat) (x y : A) :
  l !! i = Some x → x :: <[i := y]> l ≡ₚ y :: l.
Proof.
  revert i. induction l as [|a l IH]; intros [|i] H; simplify_eq/=; [apply perm_swap|].
  rewrite (perm_swap a x), (IH _ H). apply perm_swap.
Qed.

Section HeapFacts.
Context {A : Type} (lt : A → A → bool) (key : A → nat).
Context (Hlt : ∀ a b, lt a b = true → key a ≤ key b).
Context (Hnlt : ∀ a b, lt a b = false → key b ≤ key a).

Lemma fill_hole (h : list A) (pos : nat) (item : A) :
  pos < length h →
  hole_ok key h pos → above_children key h pos item →
  (∀ x, 0 < pos → h !! ((pos - 1) / 2) = Some x → key x ≤ key item) →
  heap_ok key (<[pos := item]> h).
Proof.
  intros Hpos [Hpairs Hbridge] Hch Hpar j x y Hj Hx Hy.
  destruct (decide (j = pos)) as [->|Hne].
  - rewrite list_lookup_insert_eq in Hy by done. simplify_eq.
    rewrite list_lookup_insert_ne in Hx by lia. by apply Hpar.
  - rewrite list_lookup_insert_ne in Hy by done.
    destruct (decide ((j - 1) / 2 = pos)) as [Hp|Hp].
    + rewrite Hp, list_lookup_insert_eq in Hx by done. simplify_eq. by eapply Hch.
    + rewrite list_lookup_insert_ne in Hx by done. by eapply Hpairs.
Qed.

Lemma _siftdown_spec (h : list A) (pos : nat) (newitem : A) :
  h !! pos = Some newitem →
  hole_ok key h pos → above_children key h pos newitem →
  ∃ h', heapq._siftdown lt h 0 pos = Some h' ∧ heap_ok key h' ∧ h' ≡ₚ h.
Proof.
  intros Hnew Hhole Hch. unfold heapq._siftdown. rewrite Hnew. cbn [mbind option_bind].
  apply (loop_spec
    (λ s, length s.1 = length h ∧ s.2 < length h ∧ hole_ok key s.1 s.2 ∧
          above_children key s.1 s.2 newitem ∧
          ∃ x, s.1 !! s.2 = Some x ∧ newitem :: s.1 ≡ₚ x :: h)
    (λ h', heap_ok key h' ∧ h' ≡ₚ h) snd); [|by eauto 10 using lookup_lt_Some|simpl; lia].
  intros [g p] (Hlen & Hp & Hh & Hc & x & Hx & Hperm); cbn [fst snd] in *.
  unfold heapq._siftdown_body.
  assert (Hfill : (∀ z, 0 < p → g !! ((p - 1) / 2) = Some z → key z ≤ key newitem) →
                  heap_ok key (<[p:=newitem]> g) ∧ <[p:=newitem]> g ≡ₚ h).
  { intros Hpar. split; [apply fill_hole; [lia|done..]|].
    apply (Permutation_cons_inv (a := x)).
    by rewrite (insert_swap_perm _ _ _ _ Hx), Hperm. }
  case_bool_decide as Hgt; [|apply Hfill; intros; lia].
  destruct (lookup_lt_is_Some_2 g ((p - 1) / 2)) as [parent Hparent]; [lia|].
  rewrite Hparent. cbn [mbind option_bind]. destruct (lt newitem parent) eqn:Hcmp.
  - cbn [fst snd]. rewrite length_insert. split_and!; [done|lia| | | |lia].
    + destruct Hh as [Hpairs Hbridge]. split.
      * intros j a b Hj Hj1 Hj2 Ha Hb.
        assert (j ≠ p) by lia.
        rewrite list_lookup_insert_ne in Hb by done.
        destruct (decide ((j - 1) / 2 = p)) as [Hjp|Hjp].
        -- rewrite Hjp, list_lookup_insert_eq in Ha by lia. simplify_eq.
           by eapply (Hbridge j).
        -- rewrite list_lookup_insert_ne in Ha by done. by eapply Hpairs.
      * intros j a b Hpp Hj Hjp Ha Hb.
        rewrite list_lookup_insert_ne in Ha by lia.
        assert (key a ≤ key parent) by (eapply (Hpairs ((p - 1) / 2)); [lia..|done|done]).
        destruct (decide (j = p)) as [->|Hne].
        -- rewrite list_lookup_insert_eq in Hb by lia. by simplify_eq.
        -- rewrite list_lookup_insert_ne in Hb by done.
           etrans; [done|]. eapply (Hpairs j); [lia..|by rewrite Hjp|done].
    + intros j b Hj Hjp Hb. apply Hlt in Hcmp.
      destruct (decide (j = p)) as [->|Hne].
      * rewrite list_lookup_insert_eq in Hb by lia. by simplify_eq.
      * rewrite list_lookup_insert_ne in Hb by done.
        etrans; [done|]. destruct Hh as [Hpairs _].
        eapply (Hpairs j); [lia..|by rewrite Hjp|done].
    + exists parent. split; [by rewrite list_lookup_insert_ne by lia|].
      apply (Permutation_cons_inv (a := x)).
      rewrite (perm_swap newitem x), (insert_swap_perm _ _ _ _ Hx).
      rewrite (perm_swap parent newitem), Hperm. apply perm_swap.
  - apply Hfill. intros z _ Hz. rewrite Hparent in Hz. simplify_eq. by apply Hnlt.
Qed.


Lemma hole_ok_insert (h : list A) (pos : nat) (item : A) :
  hole_ok key h pos → hole_ok key (<[pos := item]> h) pos.
Proof.
  intros [Hpairs Hbridge]. split.
  - intros j x y Hj Hj1 Hj2. rewrite !list_lookup_insert_ne by done. by apply Hpairs.
  - intros j x y Hp Hj Hjp. rewrite !list_lookup_insert_ne by lia. by apply Hbridge.
Qed.

Lemma heap_ok_hole (h : list A) (pos : nat) : heap_ok key h → hole_ok key h pos.
Proof.
  intros Hh. split.
  - intros j x y Hj _ _. by apply Hh.
  - intros j x y Hp Hj Hjp Hx Hy.
    destruct (lookup_lt_is_Some_2 h pos) as [z Hz].
    { apply lookup_lt_Some in Hy. lia. }
    etrans; [eapply (Hh pos); done|]. eapply (Hh j); [done| |done]. by rewrite Hjp.
Qed.

Lemma heap_ok_app_l (h1 h2 : list A) : heap_ok key (h1 ++ h2) → heap_ok key h1.
Proof.
  intros Hh j x y Hj Hx Hy.
  apply (Hh j x y Hj); by apply lookup_app_l_Some.
Qed.

Lemma heap_ok_root (h : list A) (x : A) :
  heap_ok key h → h !! 0 = Some x → ∀ y, y ∈ h → key x ≤ key y.
Proof.
  intros Hh Hx y [i Hy]%list_elem_of_lookup. revert y Hy.
  induction (lt_wf i) as [i _ IH]. intros y Hy.
  destruct (decide (i = 0)) as [->|Hi]; [by simplify_eq|].
  destruct (lookup_lt_is_Some_2 h ((i - 1) / 2)) as [z Hz].
  { apply lookup_lt_Some in Hy. lia. }
  etrans; [apply (IH ((i - 1) / 2)); [lia|done]|]. eapply (Hh i); [lia|done..].
Qed.

Lemma _siftup_spec (h : list A) :
  0 < length h → hole_ok key h 0 →
  ∃ h', heapq._siftup lt h 0 = Some h' ∧ heap_ok key h' ∧ h' ≡ₚ h.
Proof.
  intros Hne Hhole. unfold heapq._siftup.
  destruct (lookup_lt_is_Some_2 h 0 Hne) as [newitem Hnew].
  rewrite Hnew. cbn [mbind option_bind].
  set (I := λ s : list A * nat,
    length s.1 = length h ∧ s.2 < length h ∧ hole_ok key s.1 s.2 ∧
    ∃ x, s.1 !! s.2 = Some x ∧ newitem :: s.1 ≡ₚ x :: h).
  destruct (loop_spec I (λ s, I s ∧ length h ≤ 2 * s.2 + 1) (λ s, length h - s.2)
              (heapq._siftup_body lt (length h)) ) with (fuel := S (length h)) (s := (h, 0))
    as ([g p] & -> & (Hlen & Hp & Hh & x & Hx & Hperm) & Hleaf);
    [|by unfold I; eauto 10|simpl; lia|].
  - clear Hhole. intros [g p] (Hlen & Hp & [Hpairs Hbridge] & x & Hx & Hperm).
    cbn [fst snd] in *. unfold heapq._siftup_body.
    case_bool_decide as Hchild;
      [|split; [unfold I; cbn [fst snd]; split_and!; [done|done|by split|eauto]|cbn [fst snd]; lia]].
    assert (∃ c child, (c = 2 * p + 1 ∨ c = 2 * p + 2) ∧ g !! c = Some child ∧
              (∀ j y, 0 < j → (j - 1) / 2 = p → g !! j = Some y → key child ≤ key y) ∧
              (if bool_decide (2 * p + 1 + 1 < length h)
               then g !! (2 * p + 1) ≫= λ l, g !! (2 * p + 1 + 1) ≫= λ r,
                      Some (if negb (lt l r) then 2 * p + 1 + 1 else 2 * p + 1)
               else Some (2 * p + 1)) = Some c) as (c & child & Hc & Hchildc & Hmin & ->).
    { destruct (lookup_lt_is_Some_2 g (2 * p + 1)) as [l Hl]; [lia|].
      case_bool_decide as Hright.
      - destruct (lookup_lt_is_Some_2 g (2 * p + 1 + 1)) as [r Hr]; [lia|].
        rewrite Hl, Hr. cbn [mbind option_bind].
        destruct (lt l r) eqn:Hcmp; cbn [negb].
        + exists (2 * p + 1), l. split_and!; [lia|done| |done].
          intros j y Hj Hjp Hy. assert (j = 2 * p + 1 ∨ j = 2 * p + 1 + 1) as [->| ->] by lia;
            simplify_eq; [done|by apply Hlt].
        + exists (2 * p + 1 + 1), r. split_and!; [lia|done| |done].
          intros j y Hj Hjp Hy. assert (j = 2 * p + 1 ∨ j = 2 * p + 1 + 1) as [->| ->] by lia;
            simplify_eq; [by apply Hnlt|done].
      - exists (2 * p + 1), l. split_and!; [lia|done| |done].
        intros j y Hj Hjp Hy. apply lookup_lt_Some in Hy as Hjlt.
        assert (j = 2 * p + 1) as -> by lia. by simplify_eq. }
    cbn [mbind option_bind]. rewrite Hchildc. cbn [mbind option_bind fst snd].
    apply lookup_lt_Some in Hchildc as Hclt.
    split; [|lia]. unfold I. cbn [fst snd]. rewrite length_insert.
    split_and!; [done|lia| |].
    + split.
      * intros j a b Hj Hj1 Hj2 Ha Hb.
        destruct (decide (j = p)) as [->|Hjp].
        -- rewrite list_lookup_insert_eq in Hb by lia. simplify_eq.
           rewrite list_lookup_insert_ne in Ha by lia.
           eapply (Hbridge c); [lia..|done|done].
        -- rewrite list_lookup_insert_ne in Hb by done.
           destruct (decide ((j - 1) / 2 = p)) as [Hjp'|Hjp'].
           ++ rewrite Hjp', list_lookup_insert_eq in Ha by lia. simplify_eq.
              by eapply Hmin.
           ++ rewrite list_lookup_insert_ne in Ha by done. by eapply Hpairs.
      * intros j a b _ Hj Hjc Ha Hb.
        replace ((c - 1) / 2) with p in Ha by lia.
        rewrite list_lookup_insert_eq in Ha by lia.
        assert (a = child) as -> by congruence.
        rewrite list_lookup_insert_ne in Hb by lia.
        eapply (Hpairs j); [lia..|by rewrite Hjc|done].
    + exists child. split; [by rewrite list_lookup_insert_ne by lia|].
      apply (Permutation_cons_inv (a := x)).
      rewrite (perm_swap newitem x), (insert_swap_perm _ _ _ _ Hx).
      rewrite (perm_swap child newitem), Hperm. apply perm_swap.
  - cbn [mbind option_bind fst snd] in *.
    destruct (_siftdown_spec (<[p:=newitem]> g) p newitem) as (h' & -> & Hok & Hperm').
    + by rewrite list_lookup_insert_eq by lia.
    + by apply hole_ok_insert.
    + intros j y Hj Hjp Hy. apply lookup_lt_Some in Hy. rewrite length_insert in Hy. lia.
    + exists h'. split_and!; [done..|]. rewrite Hperm'.
      apply (Permutation_cons_inv (a := x)).
      by rewrite (insert_swap_perm _ _ _ _ Hx), Hperm.
Qed.

Lemma heappush_spec (h : list A) (item : A) :
  heap_ok key h →
  ∃ h', heapq.heappush lt h item = Some h' ∧ heap_ok key h' ∧ h' ≡ₚ item :: h.
Proof.
  intros Hh. unfold heapq.heappush.
  replace (length (h ++ [item]) - 1) with (length h) by (rewrite length_app; simpl; lia).
  destruct (_siftdown_spec (h ++ [item]) (length h) item) as (h' & -> & Hok & Hperm).
  - by rewrite lookup_app_r, Nat.sub_diag by lia.
  - split.
    + intros j x y Hj Hj1 Hj2 Hx Hy.
      apply lookup_lt_Some in Hx as Hx', Hy as Hy'. rewrite length_app in Hx', Hy'. simpl in *.
      rewrite lookup_app_l in Hx, Hy by lia. by eapply Hh.
    + intros j x y _ Hj Hjp _ Hy.
      apply lookup_lt_Some in Hy. rewrite length_app in Hy. simpl in Hy. lia.
  - intros j y Hj Hjp Hy.
    apply lookup_lt_Some in Hy. rewrite length_app in Hy. simpl in Hy. lia.
  - exists h'. split_and!; [done..|]. by rewrite Hperm, <- Permutation_cons_append.
Qed.

Lemma heappop_nil : heapq.heappop lt [] = Some (Raise IndexError).
Proof. done. Qed.

Lemma heappop_spec (h : list A) :
  heap_ok key h → h ≠ [] →
  ∃ x h', heapq.heappop lt h = Some (Ok (x, h')) ∧ h ≡ₚ x :: h' ∧ heap_ok key h' ∧
          ∀ y, y ∈ h → key x ≤ key y.
Proof.
  intros Hh Hne. unfold heapq.heappop.
  destruct (decide (h = [])) as [|_]; [done|].
  assert (∃ init lastelt, h = init ++ [lastelt]) as (init & lastelt & ->).
  { destruct h as [|a h] using rev_ind; [done|eauto]. }
  rewrite last_snoc, removelast_last.
  destruct init as [|returnitem rest].
  - exists lastelt, []. split_and!; [done|done|by intros [] | by intros y ->%list_elem_of_singleton].
  - destruct (_siftup_spec (lastelt :: rest)) as (h' & -> & Hok & Hperm); [simpl; lia| |].
    { apply (hole_ok_insert (returnitem :: rest) 0 lastelt).
      apply heap_ok_hole. by eapply heap_ok_app_l. }
    exists returnitem, h'. cbn [mbind option_bind]. split_and!; [done| |done|].
    + rewrite Hperm. simpl. by rewrite <- Permutation_cons_append, perm_swap.
    + by apply heap_ok_root.
Qed.

End HeapFacts.

(** ** Construction of the network *)

Section StateFacts.
Context {rt : Runtime}.

Lemma obj_alloc o σ x :
  obj (alloc o σ) x = if decide (x = fresh (dom (heap σ))) then o else obj σ x.
Proof.
  unfold obj, alloc. simpl. case_decide as H.
  - by rewrite H, lookup_insert_eq.
  - by rewrite lookup_insert_ne.
Qed.

Lemma obj_alloc_old o σ x : x ∈ dom (heap σ) → obj (alloc o σ) x = obj σ x.
Proof.
  intros Hx. rewrite obj_alloc. case_decide as H; [|done].
  subst. by apply is_fresh in Hx.
Qed.

Lemma dom_alloc o σ : dom (heap (alloc o σ)) = {[fresh (dom (heap σ))]} ∪ dom (heap σ).
Proof. unfold alloc. simpl. by rewrite dom_insert_L. Qed.

Lemma obj_set_neighbours l X σ x :
  obj (set_neighbours l X σ) x = if decide (x = l) then with_neighbours (obj σ l) X else obj σ x.
Proof.
  unfold obj at 1, set_neighbours. simpl. case_decide as H.
  - by rewrite H, lookup_insert_eq.
  - by rewrite lookup_insert_ne.
Qed.

Lemma dom_set_neighbours l X σ : dom (heap (set_neighbours l X σ)) = {[l]} ∪ dom (heap σ).
Proof. unfold set_neighbours. simpl. by rewrite dom_insert_L. Qed.

Lemma __init___eq id c σ :
  Satellite.__init__ id c σ =
  match Satellite.geometry c with
  | Ok g => (Ok (fresh (dom (heap σ))), alloc (instance id c g) σ)
  | Raise e => (Raise e, σ)
  end.
Proof.
  unfold Satellite.__init__, mbind, M_bind, lift.
  by destruct (Satellite.geometry c).
Qed.

Lemma filter_in_order_eq (t : loc) (xs : list loc) (σ : State) :
  filter_in_order (λ s, Network.s_lineofsight s t) xs σ =
  (filter_res (λ s, Satellite.lineofsight (obj σ s) (obj σ t)) xs, σ).
Proof.
  induction xs as [|x xs IH]; [done|].
  simpl. unfold mbind, M_bind, Network.s_lineofsight at 1.
  destruct (Satellite.lineofsight (obj σ x) (obj σ t)) as [b|e]; [|done].
  unfold mbind, M_bind in IH. rewrite IH. simpl.
  by destruct (filter_res _ xs).
Qed.

Lemma visible_satellites_at_eq c σ :
  Network.visible_satellites_at c σ =
  match Satellite.geometry c with
  | Ok g =>
      let σ' := alloc (instance "T" c g) σ in
      (match filter_res (λ s, Satellite.lineofsight (obj σ' s) (instance "T" c g))
               (set_iter (_satellites σ)) with
       | Ok ys => Ok (list_to_set ys)
       | Raise e => Raise e
       end, σ')
  | Raise e => (Raise e, σ)
  end.
Proof.
  unfold Network.visible_satellites_at, mbind, M_bind.
  rewrite __init___eq. destruct (Satellite.geometry c) as [g|e]; [|done].
  unfold get at 1. cbn [_satellites alloc].
  pose proof (filter_in_order_eq (fresh (dom (heap σ))) (set_iter (_satellites σ))
                (alloc (instance "T" c g) σ)) as H.
  unfold mbind, M_bind in H. rewrite H.
  replace (obj (alloc (instance "T" c g) σ) (fresh (dom (heap σ)))) with (instance "T" c g)
    by (by rewrite obj_alloc, decide_True).
  clear H. by destruct (filter_res _ (set_iter _)).
Qed.

Lemma filter_res_Ok {A} (f : A → result bool) (xs ys : list A) :
  filter_res f xs = Ok ys →
  (∀ x, x ∈ xs → ∃ b, f x = Ok b) ∧ ∀ x, x ∈ ys ↔ x ∈ xs ∧ f x = Ok true.
Proof.
  revert ys. induction xs as [|x xs IH]; intros ys H; simpl in H.
  - simplify_eq. split; [by intros ? ?%elem_of_nil|]. intros x. set_solver.
  - destruct (f x) as [b|] eqn:Hx; [|done]. simpl in H.
    destruct (filter_res f xs) as [zs|] eqn:Hzs; [|done]. simpl in H. simplify_eq.
    destruct (IH zs eq_refl) as [IH1 IH2]. split.
    + intros y [->|Hy]%elem_of_cons; eauto.
    + intros y. destruct b; rewrite !elem_of_cons, IH2; intuition (subst; congruence).
Qed.

Lemma filter_res_Raise {A} (f : A → result bool) (xs : list A) (e : exception) :
  filter_res f xs = Raise e → ∃ x, x ∈ xs ∧ f x = Raise e.
Proof.
  induction xs as [|x xs IH]; intros H; simpl in H; [done|].
  destruct (f x) as [b|e'] eqn:Hx; simpl in H.
  - destruct (filter_res f xs) as [zs|e'']; simpl in H; [done|]. simplify_eq.
    destruct IH as (y & Hy & Hfy); [done|]. exists y. split; [by apply elem_of_cons; right|done].
  - simplify_eq. exists x. split; [by apply elem_of_cons; left|done].
Qed.


Lemma set_iter_elem (Hiter : set_iter_ok rt) (X : gset loc) (x : loc) :
  x ∈ set_iter X ↔ x ∈ X.
Proof. by rewrite (Hiter X), elem_of_elements. Qed.

Lemma for_each_connect_with (ns : list loc) (l : loc) (σ : State) :
  for_each ns (λ n, Satellite.connect_with n l) σ = (Ok tt, link_all l ns σ).
Proof.
  revert σ. induction ns as [|n ns IH]; intros σ; [done|].
  simpl. unfold mbind, M_bind. simpl. apply IH.
Qed.

Lemma obj_link_all (l : loc) (ns : list loc) (σ : State) (x : loc) :
  obj (link_all l ns σ) x =
  if decide (x ∈ ns) then with_neighbours (obj σ x) (nb σ x ∪ {[l]}) else obj σ x.
Proof.
  revert σ. induction ns as [|n ns IH]; intros σ.
  - by rewrite decide_False by apply not_elem_of_nil.
  - change (link_all l (n :: ns) σ) with (link_all l ns (set_neighbours n (nb σ n ∪ {[l]}) σ)).
    rewrite IH. unfold nb. rewrite !obj_set_neighbours.
    destruct (decide (x = n)) as [->|Hn].
    + rewrite (decide_True (P := n ∈ n :: ns)) by (apply elem_of_cons; by left).
      case_decide; [|done]. unfold with_neighbours. simpl. f_equal. set_solver.
    + destruct (decide (x ∈ ns)) as [Hx|Hx].
      * rewrite decide_True; [done|]. apply elem_of_cons; by right.
      * rewrite decide_False; [done|]. by intros [?|?]%elem_of_cons.
Qed.

Lemma dom_link_all (l : loc) (ns : list loc) (σ : State) :
  dom (heap (link_all l ns σ)) = list_to_set ns ∪ dom (heap σ).
Proof.
  revert σ. induction ns as [|n ns IH]; intros σ; simpl; [set_solver|].
  rewrite IH, dom_set_neighbours. set_solver.
Qed.

Lemma satellites_link_all (l : loc) (ns : list loc) (σ : State) :
  _satellites (link_all l ns σ) = _satellites σ.
Proof. revert σ. induction ns as [|n ns IH]; intros σ; simpl; [done|]. by rewrite IH. Qed.

Lemma connect_eq (l : loc) (σ : State) :
  Network.connect l σ =
  match Network.visible_satellites_at (_coordinates (obj σ l)) σ with
  | (Ok X, σ1) => (Ok tt, connect_state l X σ1)
  | (Raise e, σ1) => (Raise e, σ1)
  end.
Proof.
  unfold Network.connect, mbind, M_bind. unfold get at 1.
  destruct (Network.visible_satellites_at _ σ) as [[X|e] σ1]; [|done].
  unfold modify, get. rewrite for_each_connect_with. unfold connect_state. do 2 f_equal.
  cbn [heap _satellites]. unfold obj at 1, set_neighbours at 1. cbn [heap]. 
  by rewrite lookup_insert_eq.
Qed.

Lemma lineofsight_ext (a a' b b' : Satellite_obj) :
  same_geometry a a' → same_geometry b b' →
  Satellite.lineofsight a b = Satellite.lineofsight a' b'.
Proof.
  intros [Ha1 Ha2] [Hb1 Hb2].
  unfold Satellite.lineofsight, Satellite.cospsi, Satellite.cossumhorizon.
  by rewrite Ha1, Ha2, Hb1, Hb2.
Qed.

Lemma wf_initial : wf_state initial.
Proof.
  split; unfold nb, obj; simpl; try set_solver.
Qed.

Lemma wf_alloc (σ : State) (id : string) (c : coord) (g : spher * horizon) :
  wf_state σ → Satellite.geometry c = Ok g → wf_state (alloc (instance id c g) σ).
Proof.
  intros [Hm Hn Hg Hs] Hc.
  assert (Hfresh : fresh (dom (heap σ)) ∉ _satellites σ).
  { intros H%Hm. by apply is_fresh in H. }
  assert (Hnb : ∀ x, nb (alloc (instance id c g) σ) x = nb σ x).
  { intros x. unfold nb. rewrite obj_alloc. case_decide as Hx; [|done].
    subst. simpl. symmetry. apply leibniz_equiv. apply elem_of_equiv_empty. intros y Hy.
    apply Hn in Hy as [Hy _]. done. }
  assert (Hobj : ∀ x, x ∈ _satellites σ → obj (alloc (instance id c g) σ) x = obj σ x).
  { intros x Hx. apply obj_alloc_old. by apply Hm. }
  split.
  - rewrite dom_alloc. simpl. set_solver.
  - intros x y. rewrite Hnb. apply Hn.
  - intros x. rewrite dom_alloc, obj_alloc. case_decide as Hx.
    + subst. intros _. simpl. by destruct g.
    + intros Hd. apply Hg. set_solver.
  - intros x y. rewrite Hnb. intros Hy. destruct (Hn _ _ Hy). rewrite !Hobj by done. by apply Hs.
Qed.


Lemma nb_alloc (σ : State) (o : Satellite_obj) (x : loc) :
  wf_state σ → _neighbours o = ∅ → nb (alloc o σ) x = nb σ x.
Proof.
  intros Hwf Ho. unfold nb. rewrite obj_alloc. case_decide as Hx; [|done].
  subst. rewrite Ho. symmetry. apply leibniz_equiv, elem_of_equiv_empty. intros y Hy.
  apply (wf_neighbours _ Hwf) in Hy as [Hy _].
  apply (wf_members _ Hwf), is_fresh in Hy. done.
Qed.

Lemma filter_res_ext {A} (f g : A → result bool) (xs : list A) :
  (∀ x, x ∈ xs → f x = g x) → filter_res f xs = filter_res g xs.
Proof.
  induction xs as [|x xs IH]; intros H; [done|]. simpl.
  rewrite (H x) by (apply elem_of_cons; by left).
  rewrite IH; [done|]. intros y Hy. apply H, elem_of_cons. by right.
Qed.

(** What [visible_satellites_at] returns, and the state it leaves. *)
Lemma visible_satellites_at_Ok (Hiter : set_iter_ok rt) (c : coord) (σ σ1 : State) (X : gset loc) :
  wf_state σ → Network.visible_satellites_at c σ = (Ok X, σ1) →
  ∃ g, Satellite.geometry c = Ok g ∧ σ1 = alloc (instance "T" c g) σ ∧
       (∀ s, s ∈ _satellites σ → ∃ b, Satellite.lineofsight (obj σ s) (instance "T" c g) = Ok b) ∧
       ∀ s, s ∈ X ↔ s ∈ _satellites σ ∧ Satellite.lineofsight (obj σ s) (instance "T" c g) = Ok true.
Proof.
  intros Hwf. rewrite visible_satellites_at_eq.
  destruct (Satellite.geometry c) as [g|e]; [|done]. cbn zeta.
  rewrite (filter_res_ext _ (λ s, Satellite.lineofsight (obj σ s) (instance "T" c g))).
  2:{ intros s Hs%(set_iter_elem Hiter). rewrite obj_alloc_old; [done|]. by apply (wf_members _ Hwf). }
  destruct (filter_res _ _) as [ys|e] eqn:Hys; [|done]. intros [= <- <-].
  apply filter_res_Ok in Hys as [Hall Hys]. exists g. split_and!; [done..| |].
  - intros s Hs. apply Hall. by apply (set_iter_elem Hiter).
  - intros s. by rewrite elem_of_list_to_set, Hys, (set_iter_elem Hiter).
Qed.

Lemma visible_satellites_at_state (c : coord) (σ : State) :
  (Network.visible_satellites_at c σ).2 = σ ∨
  ∃ g, Satellite.geometry c = Ok g ∧
       (Network.visible_satellites_at c σ).2 = alloc (instance "T" c g) σ.
Proof.
  rewrite visible_satellites_at_eq. destruct (Satellite.geometry c) as [g|e]; [|by left].
  right. by exists g.
Qed.

Lemma wf_visible_satellites_at (c : coord) (σ : State) :
  wf_state σ → wf_state (Network.visible_satellites_at c σ).2.
Proof.
  intros Hwf. destruct (visible_satellites_at_state c σ) as [->|(g & Hg & ->)]; [done|].
  by apply wf_alloc.
Qed.

Lemma obj_add_member (l : loc) (σ : State) (x : loc) : obj (add_member l σ) x = obj σ x.
Proof. done. Qed.

Lemma obj_connect_state (Hiter : set_iter_ok rt) (l : loc) (X : gset loc) (σ : State) (x : loc) :
  obj (connect_state l X σ) x =
  with_neighbours (obj σ x)
    ((if decide (x = l) then X else nb σ x) ∪ (if decide (x ∈ X) then {[l]} else ∅)).
Proof.
  unfold connect_state. rewrite obj_link_all. unfold nb.
  rewrite !obj_add_member, !obj_set_neighbours.
  destruct (decide (x ∈ set_iter X)) as [Hx|Hx]; rewrite (set_iter_elem Hiter) in Hx.
  - rewrite (decide_True (P := x ∈ X)) by done. by case_decide; subst.
  - rewrite (decide_False (P := x ∈ X)) by done.
    case_decide; subst; unfold with_neighbours; simpl; f_equal; try set_solver.
    destruct (obj σ x). simpl. f_equal. set_solver.
Qed.

Lemma nb_connect_state (Hiter : set_iter_ok rt) (l : loc) (X : gset loc) (σ : State) (x y : loc) :
  y ∈ nb (connect_state l X σ) x ↔
  (x = l ∧ y ∈ X) ∨ (x ≠ l ∧ y ∈ nb σ x) ∨ (x ∈ X ∧ y = l).
Proof.
  unfold nb at 1. rewrite (obj_connect_state Hiter). simpl.
  repeat case_decide; set_solver.
Qed.

Lemma geometry_connect_state (Hiter : set_iter_ok rt) (l : loc) (X : gset loc) (σ : State) (x : loc) :
  _coordinates (obj (connect_state l X σ) x) = _coordinates (obj σ x) ∧
  same_geometry (obj (connect_state l X σ) x) (obj σ x).
Proof. by rewrite (obj_connect_state Hiter). Qed.

Lemma dom_connect_state (l : loc) (X : gset loc) (σ : State) :
  dom (heap (connect_state l X σ)) = list_to_set (set_iter X) ∪ ({[l]} ∪ dom (heap σ)).
Proof.
  unfold connect_state. rewrite dom_link_all. cbn [add_member heap].
  by rewrite dom_set_neighbours.
Qed.

Lemma satellites_connect_state (l : loc) (X : gset loc) (σ : State) :
  _satellites (connect_state l X σ) = _satellites σ ∪ {[l]}.
Proof. unfold connect_state. by rewrite satellites_link_all. Qed.


(** The facts about a successful [connect l] that the invariants use. *)
Lemma connect_Ok (Hiter : set_iter_ok rt) (l : loc) (σ σ1 : State) (X : gset loc) :
  wf_state σ → l ∈ dom (heap σ) →
  Network.visible_satellites_at (_coordinates (obj σ l)) σ = (Ok X, σ1) →
  wf_state σ1 ∧ l ∈ dom (heap σ1) ∧ _satellites σ1 = _satellites σ ∧
  (∀ x, nb σ1 x = nb σ x) ∧
  (∀ x, x ∈ dom (heap σ) → obj σ1 x = obj σ x) ∧
  ∀ s, s ∈ X ↔ s ∈ _satellites σ ∧ Satellite.lineofsight (obj σ1 s) (obj σ1 l) = Ok true.
Proof.
  intros Hwf Hl Hvis.
  apply (visible_satellites_at_Ok Hiter) in Hvis as (g & Hg & -> & _ & HX); [|done].
  split_and!.
  - by apply wf_alloc.
  - rewrite dom_alloc. set_solver.
  - done.
  - intros x. by apply nb_alloc.
  - intros x Hx. by apply obj_alloc_old.
  - intros s. rewrite HX.
    assert (Hsame : s ∈ _satellites σ →
      Satellite.lineofsight (obj σ s) (instance "T" (_coordinates (obj σ l)) g) =
      Satellite.lineofsight (obj (alloc (instance "T" (_coordinates (obj σ l)) g) σ) s)
                            (obj (alloc (instance "T" (_coordinates (obj σ l)) g) σ) l)).
    { intros Hs. rewrite !obj_alloc_old by (done || by apply (wf_members _ Hwf)).
      apply lineofsight_ext; [done|].
      pose proof (wf_geometry _ Hwf l Hl) as Hgl. rewrite Hg in Hgl. by simplify_eq. }
    split; intros [Hs H]; (split; [done|]); [by rewrite <- Hsame|by rewrite Hsame].
Qed.

Lemma wf_connect_state (Hiter : set_iter_ok rt) (l : loc) (X : gset loc) (σ : State) :
  wf_state σ → l ∈ dom (heap σ) →
  (∀ s, s ∈ X → s ∈ _satellites σ ∧ Satellite.lineofsight (obj σ s) (obj σ l) = Ok true) →
  wf_state (connect_state l X σ).
Proof.
  intros Hwf Hl HX.
  assert (Hdom : dom (heap (connect_state l X σ)) = dom (heap σ)).
  { rewrite dom_connect_state. apply leibniz_equiv. intros x.
    rewrite !elem_of_union, elem_of_list_to_set, (set_iter_elem Hiter), elem_of_singleton.
    split; [|by auto]. intros [Hx|[->|Hx]]; [|done..].
    apply HX in Hx as [Hx _]. by apply (wf_members _ Hwf). }
  assert (Hlos : ∀ x y, Satellite.lineofsight (obj (connect_state l X σ) x) (obj (connect_state l X σ) y)
                       = Satellite.lineofsight (obj σ x) (obj σ y)).
  { intros x y. apply lineofsight_ext; apply (geometry_connect_state Hiter). }
  split.
  - rewrite satellites_connect_state, Hdom. pose proof (wf_members _ Hwf). set_solver.
  - intros x y. rewrite (nb_connect_state Hiter), satellites_connect_state, !elem_of_union,
      !elem_of_singleton.
    intros [[-> Hy]|[[Hx Hy]|[Hx ->]]].
    + apply HX in Hy as [Hy _]. auto.
    + apply (wf_neighbours _ Hwf) in Hy as [? ?]. auto.
    + apply HX in Hx as [Hx _]. auto.
  - intros x. rewrite Hdom. intros Hx.
    destruct (geometry_connect_state Hiter l X σ x) as (-> & -> & ->).
    by apply (wf_geometry _ Hwf).
  - intros x y. rewrite (nb_connect_state Hiter), !Hlos.
    intros [[-> Hy]|[[Hx Hy]|[Hx ->]]].
    + apply HX in Hy as [_ Hy]. auto.
    + by apply (wf_sight _ Hwf).
    + apply HX in Hx as [_ Hx]. auto.
Qed.

Lemma wf_connect (Hiter : set_iter_ok rt) (l : loc) (σ : State) :
  wf_state σ → l ∈ dom (heap σ) → wf_state (Network.connect l σ).2.
Proof.
  intros Hwf Hl. rewrite connect_eq.
  destruct (Network.visible_satellites_at _ σ) as [[X|e] σ1] eqn:Hvis; simpl.
  - destruct (connect_Ok Hiter l σ σ1 X Hwf Hl Hvis) as (Hwf1 & Hl1 & Hm & _ & _ & HX).
    apply (wf_connect_state Hiter); [done..|]. intros s Hs%HX. by rewrite Hm.
  - replace σ1 with (Network.visible_satellites_at (_coordinates (obj σ l)) σ).2
      by by rewrite Hvis.
    by apply wf_visible_satellites_at.
Qed.

Lemma symmetric_connect (Hiter : set_iter_ok rt) (Heven : libm_cos_even rt) (l : loc) (σ : State) :
  wf_state σ → symmetric σ → l ∈ dom (heap σ) → symmetric (Network.connect l σ).2.
Proof.
  intros Hwf Hsym Hl. rewrite connect_eq.
  destruct (Network.visible_satellites_at _ σ) as [[X|e] σ1] eqn:Hvis; simpl.
  - destruct (connect_Ok Hiter l σ σ1 X Hwf Hl Hvis) as (Hwf1 & Hl1 & Hm & Hnb & _ & HX).
    intros x y. rewrite !(nb_connect_state Hiter).
    intros [[-> Hy]|[[Hx Hy]|[Hx ->]]]; [by auto| |by auto].
    destruct (decide (y = l)) as [->|Hyl].
    + left. split; [done|]. apply HX. rewrite <- Hm.
      split; [by apply (wf_neighbours _ Hwf1) in Hy as [? ?]|].
      apply (wf_sight _ Hwf1) in Hy as [Hy|Hy]; [|done].
      by rewrite lineofsight_sym.
    + right. left. split; [done|]. rewrite Hnb in *. by apply Hsym.
  - destruct (visible_satellites_at_state (_coordinates (obj σ l)) σ) as [H|(g & Hg & H)];
      rewrite Hvis in H; simpl in H; subst σ1; [done|].
    intros x y. rewrite !nb_alloc by done. apply Hsym.
Qed.


Lemma symmetric_alloc (σ : State) (o : Satellite_obj) :
  wf_state σ → _neighbours o = ∅ → symmetric σ → symmetric (alloc o σ).
Proof. intros Hwf Ho Hsym x y. rewrite !nb_alloc by done. apply Hsym. Qed.

Lemma self_free_alloc (σ : State) (o : Satellite_obj) :
  wf_state σ → _neighbours o = ∅ → self_free σ → self_free (alloc o σ).
Proof. intros Hwf Ho Hfree x. rewrite nb_alloc by done. apply Hfree. Qed.

Lemma __init___state (id : string) (c : coord) (σ : State) :
  (Satellite.__init__ id c σ).2 = σ ∨
  ∃ g, Satellite.geometry c = Ok g ∧ (Satellite.__init__ id c σ).2 = alloc (instance id c g) σ.
Proof.
  rewrite __init___eq. destruct (Satellite.geometry c) as [g|e]; [|by left].
  right. by exists g.
Qed.

Lemma route_state (start finish : coord) (σ σ' : State) (r : result (list loc)) :
  Network.route start finish σ = Some (r, σ') →
  σ' = (Network.visible_satellites_at start σ).2 ∨
  σ' = (Network.visible_satellites_at finish (Network.visible_satellites_at start σ).2).2.
Proof.
  unfold Network.route.
  destruct (Network.visible_satellites_at start σ) as [[S|e] σ1]; simpl; [|by intros [= <- <-]; left].
  case_decide; [by intros [= <- <-]; left|].
  destruct (Network.visible_satellites_at finish σ1) as [[F|e] σ2]; simpl; [|by intros [= <- <-]; right].
  case_decide; [by intros [= <- <-]; right|].
  match goal with |- context [loop ?f ?b ?s] => destruct (loop f b s) end; simpl; [|done].
  intros [= <- <-]. by right.
Qed.

Lemma allocates_init id c σ : allocates σ (Satellite.__init__ id c σ).2.
Proof.
  destruct (__init___state id c σ) as [->|(g & Hg & ->)]; [by left|].
  right. exists (instance id c g). simpl. by destruct g.
Qed.

Lemma allocates_visible c σ : allocates σ (Network.visible_satellites_at c σ).2.
Proof.
  destruct (visible_satellites_at_state c σ) as [->|(g & Hg & ->)]; [by left|].
  right. exists (instance "T" c g). simpl. by destruct g.
Qed.

Lemma wf_allocates (σ σ' : State) : wf_state σ → allocates σ σ' → wf_state σ'.
Proof.
  intros Hwf [->|(o & Ho & Hg & ->)]; [done|].
  destruct o as [id c sph hor N]. simpl in *. subst.
  by apply (wf_alloc σ id c (sph, hor)).
Qed.

Lemma nb_allocates (σ σ' : State) (x : loc) :
  wf_state σ → allocates σ σ' → nb σ' x = nb σ x.
Proof. intros Hwf [->|(o & Ho & Hg & ->)]; [done|]. by apply nb_alloc. Qed.

Lemma satellites_allocates (σ σ' : State) : allocates σ σ' → _satellites σ' = _satellites σ.
Proof. by intros [->|(o & Ho & Hg & ->)]. Qed.

(** Every call but a [Connect] that returns only allocates. *)
Lemma exec_cases (Hiter : set_iter_ok rt) (σ : State) (c : call) :
  wf_state σ →
  (∃ σ1, allocates σ σ1 ∧ allocates σ1 (exec σ c)) ∨
  ∃ l X σ1, c = Connect l ∧ l ∈ dom (heap σ) ∧
    Network.visible_satellites_at (_coordinates (obj σ l)) σ = (Ok X, σ1) ∧
    exec σ c = connect_state l X σ1.
Proof.
  intros Hwf. destruct c as [id c|l|c|start finish]; simpl.
  - left. exists σ. split; [by left|apply allocates_init].
  - case_decide as Hl; [|left; exists σ; split; by left].
    rewrite connect_eq.
    destruct (Network.visible_satellites_at _ σ) as [[X|e] σ1] eqn:Hvis; simpl.
    + right. by exists l, X, σ1.
    + left. exists σ. split; [by left|].
      replace σ1 with (Network.visible_satellites_at (_coordinates (obj σ l)) σ).2
        by by rewrite Hvis.
      apply allocates_visible.
  - left. exists σ. split; [by left|apply allocates_visible].
  - left. destruct (Network.route start finish σ) as [[r σ']|] eqn:Hr;
      [|exists σ; split; by left].
    apply route_state in Hr as [->| ->].
    + exists σ. split; [by left|apply allocates_visible].
    + eexists. split; apply allocates_visible.
Qed.

Lemma run_snoc (script : list call) (c : call) : run (script ++ [c]) = exec (run script) c.
Proof. unfold run. by rewrite foldl_app. Qed.

Lemma wf_run (Hiter : set_iter_ok rt) (script : list call) : wf_state (run script).
Proof.
  induction script as [|c script IH] using rev_ind; [apply wf_initial|].
  rewrite run_snoc.
  destruct (exec_cases Hiter (run script) c IH) as [(σ1 & H1 & H2)|(l & X & σ1 & -> & Hl & Hvis & ->)].
  - eauto using wf_allocates.
  - destruct (connect_Ok Hiter l _ σ1 X IH Hl Hvis) as (Hwf1 & Hl1 & Hm & _ & _ & HX).
    apply (wf_connect_state Hiter); [done..|]. intros s Hs%HX. by rewrite Hm.
Qed.

Lemma symmetric_run (Hiter : set_iter_ok rt) (Heven : libm_cos_even rt) (script : list call) :
  symmetric (run script).
Proof.
  induction script as [|c script IH] using rev_ind; [by intros x y ?%elem_of_empty|].
  pose proof (wf_run Hiter script) as Hwf. rewrite run_snoc.
  destruct (exec_cases Hiter (run script) c Hwf) as [(σ1 & H1 & H2)|(l & X & σ1 & -> & Hl & Hvis & Hex)].
  - assert (Hnb : ∀ z, nb (exec (run script) c) z = nb (run script) z).
    { intros z. rewrite (nb_allocates σ1 _) by eauto using wf_allocates.
      by apply nb_allocates. }
    intros x y. rewrite !Hnb. apply IH.
  - pose proof (symmetric_connect Hiter Heven l (run script) Hwf IH Hl) as H.
    rewrite connect_eq, Hvis in H. simpl in H. by rewrite Hex.
Qed.

Lemma self_free_run (Hiter : set_iter_ok rt) (script : list call) :
  NoDup (connected script) →
  self_free (run script) ∧ ∀ x, x ∈ _satellites (run script) → x ∈ connected script.
Proof.
  induction script as [|c script IH] using rev_ind.
  { intros _. split; [by intros x ?%elem_of_empty|by intros x ?%elem_of_empty]. }
  unfold connected. rewrite omap_app. fold (connected script).
  intros [Hnd [Hl _]]%NoDup_app. destruct (IH Hnd) as [Hfree Hsub].
  pose proof (wf_run Hiter script) as Hwf. rewrite run_snoc.
  destruct (exec_cases Hiter (run script) c Hwf) as [(σ1 & H1 & H2)|(l & X & σ1 & -> & Hd & Hvis & ->)].
  - split.
    + intros x. rewrite (nb_allocates σ1 _) by eauto using wf_allocates.
      rewrite (nb_allocates (run script) σ1) by done. apply Hfree.
    + intros x. rewrite (satellites_allocates σ1 _), (satellites_allocates (run script) σ1) by done.
      intros Hx. apply elem_of_app. left. by apply Hsub.
  - destruct (connect_Ok Hiter l _ σ1 X Hwf Hd Hvis) as (Hwf1 & Hl1 & Hm & Hnb & _ & HX).
    assert (l ∉ X) as HlX.
    { intros [Hin _]%HX. apply (Hl l); [by apply Hsub|]. simpl. apply elem_of_cons. by left. }
    split.
    + intros x. rewrite (nb_connect_state Hiter), Hnb.
      intros [[-> Hx]|[[Hx Hy]|[Hx ->]]]; [done|by apply (Hfree x)|done].
    + intros x. rewrite satellites_connect_state, Hm, elem_of_union, elem_of_singleton, elem_of_app.
      intros [Hx| ->]; [left; by apply Hsub|right; simpl; apply elem_of_cons; by left].
Qed.

End StateFacts.

(** ** The search *)

Section RouteFacts.
Context {rt : Runtime} (Hiter : set_iter_ok rt).

Lemma entry_lt_key (a b : Network.entry) : Network.entry_lt a b = true → entry_length a ≤ entry_length b.
Proof.
  destruct a as [[la sa] pa], b as [[lb sb] pb]. unfold Network.entry_lt, entry_length. simpl.
  case_decide; [lia|]. intros ?%bool_decide_eq_true. lia.
Qed.

Lemma entry_nlt_key (a b : Network.entry) : Network.entry_lt a b = false → entry_length b ≤ entry_length a.
Proof.
  destruct a as [[la sa] pa], b as [[lb sb] pb]. unfold Network.entry_lt, entry_length. simpl.
  case_decide; [lia|]. intros ?%bool_decide_eq_false. lia.
Qed.

Lemma push_neighbours_spec (Q : list Network.entry) (ns : list loc) (k : nat) (path : list loc) :
  heap_ok entry_length Q →
  ∃ Q', Network.push_neighbours Q ns k path = Some Q' ∧ heap_ok entry_length Q' ∧
        Q' ≡ₚ ((λ n, (k + 1, n, path)) <$> ns) ++ Q.
Proof.
  revert Q. induction ns as [|n ns IH]; intros Q HQ; simpl; [by eauto|].
  destruct (heappush_spec Network.entry_lt entry_length entry_lt_key entry_nlt_key Q (k + 1, n, path) HQ)
    as (Q1 & -> & HQ1 & Hperm1). simpl.
  destruct (IH Q1 HQ1) as (Q' & -> & HQ' & Hperm'). exists Q'. split_and!; [done..|].
  rewrite Hperm', Hperm1. by rewrite Permutation_middle.
Qed.

Lemma sum_list_seen (g : loc → nat) (seen : gset loc) (v : loc) (L : list loc) :
  NoDup L → v ∉ seen →
  sum_list ((λ l, if decide (l ∈ seen) then 0 else g l) <$> L) =
  sum_list ((λ l, if decide (l ∈ seen ∪ {[v]}) then 0 else g l) <$> L) +
  (if decide (v ∈ L) then g v else 0).
Proof.
  intros Hnd Hv. induction Hnd as [|x L Hx Hnd IH]; [done|].
  cbn [fmap list_fmap sum_list]. rewrite IH.
  destruct (decide (x = v)) as [->|Hxv].
  - rewrite (decide_False (P := v ∈ seen)) by done.
    rewrite (decide_True (P := v ∈ seen ∪ {[v]})) by set_solver.
    rewrite (decide_True (P := v ∈ v :: L)) by (apply elem_of_cons; by left).
    rewrite (decide_False (P := v ∈ L)) by done. unfold id. lia.
  - destruct (decide (x ∈ seen)) as [Hs|Hs].
    + rewrite (decide_True (P := x ∈ seen ∪ {[v]})) by set_solver.
      destruct (decide (v ∈ L)) as [HL|HL].
      * rewrite (decide_True (P := v ∈ x :: L)); [unfold id; lia|]. apply elem_of_cons; by right.
      * rewrite (decide_False (P := v ∈ x :: L)); [unfold id; lia|]. by intros [?|?]%elem_of_cons.
    + rewrite (decide_False (P := x ∈ seen ∪ {[v]})) by set_solver.
      destruct (decide (v ∈ L)) as [HL|HL].
      * rewrite (decide_True (P := v ∈ x :: L)); [unfold id; lia|]. apply elem_of_cons; by right.
      * rewrite (decide_False (P := v ∈ x :: L)); [unfold id; lia|]. by intros [?|?]%elem_of_cons.
Qed.

Lemma budget_insert (σ : State) (seen : gset loc) (v : loc) :
  v ∉ seen →
  length (set_iter (nb σ v)) + Network.budget σ (seen ∪ {[v]}) < Network.budget σ seen
  ∨ (length (set_iter (nb σ v)) = 0 ∧ Network.budget σ (seen ∪ {[v]}) = Network.budget σ seen).
Proof.
  intros Hv. unfold Network.budget.
  rewrite (sum_list_seen (λ l, S (length (set_iter (_neighbours (obj σ l))))) seen v)
    by (done || apply NoDup_elements).
  case_decide as Hd.
  - left. unfold nb. lia.
  - right. split; [|lia].
    assert (nb σ v = ∅) as ->.
    { unfold nb, obj. rewrite elem_of_elements in Hd. apply not_elem_of_dom in Hd. by rewrite Hd. }
    pose proof (Hiter ∅) as H. rewrite elements_empty in H. by apply Permutation_nil_r in H as ->.
Qed.


Lemma is_path_app_l (σ : State) (p q : list loc) : is_path σ (p ++ q) → is_path σ p.
Proof. intros H i x y Hx Hy. apply (H i); by apply lookup_app_l_Some. Qed.

Lemma is_path_snoc (σ : State) (p : list loc) (u v : loc) :
  is_path σ ((p ++ [u]) ++ [v]) ↔ is_path σ (p ++ [u]) ∧ v ∈ nb σ u.
Proof.
  split.
  - intros H. split; [by eapply is_path_app_l|].
    apply (H (length p)).
    + rewrite lookup_app_l by (rewrite length_app; simpl; lia).
      by rewrite lookup_app_r, Nat.sub_diag by lia.
    + rewrite lookup_app_r by (rewrite length_app; simpl; lia).
      rewrite length_app. simpl. by replace (S (length p) - (length p + 1)) with 0 by lia.
  - intros [H Hv] i x y Hx Hy.
    apply lookup_lt_Some in Hy as Hlt. rewrite !length_app in Hlt. simpl in Hlt.
    rewrite lookup_app_l in Hx by (rewrite length_app; simpl; lia).
    destruct (decide (i = length p)) as [->|Hi].
    + rewrite lookup_app_r, Nat.sub_diag in Hx by lia.
      rewrite lookup_app_r in Hy by (rewrite length_app; simpl; lia).
      rewrite length_app in Hy. simpl in Hy.
      replace (S (length p) - (length p + 1)) with 0 in Hy by lia. by simplify_eq/=.
    + rewrite lookup_app_l in Hy by (rewrite length_app; simpl; lia). by apply (H i).
Qed.

Lemma head_snoc_snoc (p : list loc) (u v : loc) : head ((p ++ [u]) ++ [v]) = head (p ++ [u]).
Proof. by destruct p. Qed.

Lemma walk_nil (σ : State) (S : gset loc) (s : loc) : s ∈ S → walk σ S [] s.
Proof.
  intros Hs. split; [|by exists s]. intros i x y Hx Hy. by destruct i.
Qed.

Lemma walk_snoc (σ : State) (S : gset loc) (p : list loc) (u v : loc) :
  walk σ S (p ++ [u]) v ↔ walk σ S p u ∧ v ∈ nb σ u.
Proof. unfold walk. rewrite is_path_snoc, head_snoc_snoc. tauto. Qed.

Lemma route_path_walk (σ : State) (S F : gset loc) (p : list loc) :
  route_path σ S F p ↔ ∃ q f, p = q ++ [f] ∧ f ∈ F ∧ walk σ S q f.
Proof.
  split.
  - intros (Hp & Hs & f & Hf & HF).
    destruct p as [|x p] using rev_ind; [done|]. rewrite last_snoc in Hf. simplify_eq.
    by exists p, f.
  - intros (q & f & -> & HF & Hp & Hs). split_and!; [done..|].
    exists f. by rewrite last_snoc.
Qed.

Lemma bfs_frontier (σ : State) (S F : gset loc) (Q : list Network.entry) (seen : gset loc) :
  bfs_inv σ S F Q seen →
  ∀ p v, walk σ S p v → v ∈ seen ∨ ∃ e, e ∈ Q ∧ entry_length e ≤ length p.
Proof.
  intros Hinv p. induction p as [|u p IH] using rev_ind; intros v Hw.
  - destruct Hw as [_ (s & Hs & HS)]. assert (s = v) as -> by (simpl in Hs; congruence).
    destruct (bfs_start _ _ _ _ _ Hinv v HS) as [?|[q Hq]]; [by left|].
    right. exists (0, v, q). split; [done|]. unfold entry_length. simpl. lia.
  - apply walk_snoc in Hw as [Hw Hv]. rewrite length_app. simpl.
    destruct (IH u Hw) as [Hu|(e & He & Hk)].
    + destruct (bfs_seen _ _ _ _ _ Hinv u p v Hu Hw Hv) as [?|(k & q & Hq & Hk)]; [by left|].
      right. by exists (k, v, q).
    + right. exists e. split; [done|lia].
Qed.

Lemma bfs_inv_initial (σ : State) (S F : gset loc) :
  bfs_inv σ S F ((λ s, (0, s, [])) <$> set_iter S) ∅.
Proof.
  split.
  - intros j x y Hj Hx Hy.
    apply list_lookup_fmap_Some_1 in Hx as (? & -> & _).
    apply list_lookup_fmap_Some_1 in Hy as (? & -> & _). done.
  - intros k s p (s' & [= -> -> ->] & Hs)%list_elem_of_fmap.
    split; [done|]. apply walk_nil. by apply (set_iter_elem Hiter).
  - intros u p w Hu. set_solver.
  - intros s Hs. right. exists []. apply list_elem_of_fmap. exists s.
    split; [done|]. by apply (set_iter_elem Hiter).
  - set_solver.
Qed.


Lemma route_body_step (σ : State) (S F : gset loc) (Q : list Network.entry) (seen : gset loc) :
  bfs_inv σ S F Q seen →
  match Network.route_body σ F (Q, seen) with
  | Some (inl s') =>
      bfs_inv σ S F s'.1 s'.2 ∧
      length s'.1 + Network.budget σ s'.2 < length Q + Network.budget σ seen
  | Some (inr r) => route_post σ S F r
  | None => False
  end.
Proof.
  intros Hinv. pose proof (bfs_frontier σ S F Q seen Hinv) as Hfront.
  destruct Hinv as [Hheap Hent Hseen Hstart Hfin].
  unfold Network.route_body. destruct (decide (Q = [])) as [->|HQ].
  { rewrite heappop_nil. simpl. split; [done|].
    intros p' (q & f & -> & HF & Hw)%route_path_walk.
    destruct (Hfront q f Hw) as [Hf|(e & He & _)]; [by apply (Hfin f)|by apply elem_of_nil in He]. }
  destruct (heappop_spec Network.entry_lt entry_length entry_lt_key entry_nlt_key Q Hheap HQ)
    as ([[k v] p] & Q' & -> & Hperm & Hheap' & Hmin).
  cbn [mbind option_bind].
  assert (Hsub : ∀ e, e ∈ Q' → e ∈ Q).
  { intros e He. rewrite Hperm. apply elem_of_cons. by right. }
  assert (Hpop : ∀ e, e ∈ Q → e = (k, v, p) ∨ e ∈ Q').
  { intros e He. rewrite Hperm in He. by apply elem_of_cons in He. }
  assert (Hlen : length Q = Datatypes.S (length Q')) by by rewrite Hperm.
  destruct (Hent k v p) as [Hk Hwalk]; [rewrite Hperm; apply elem_of_cons; by left|].
  case_decide as Hv.
  { cbn [fst snd]. split; [|lia]. split; [done|by auto|..|done].
    - intros u p1 w Hu Hw1 Hw.
      destruct (Hseen u p1 w Hu Hw1 Hw) as [?|(k' & q & [?|?]%Hpop & ?)];
        [by left|simplify_eq; by left|right; by exists k', q].
    - intros s Hs. destruct (Hstart s Hs) as [?|(q & [?|?]%Hpop)];
        [by left|simplify_eq; by left|right; by exists q]. }
  assert (Hshort : ∀ p1, walk σ S p1 v → k ≤ length p1).
  { intros p1 Hp1. destruct (Hfront p1 v Hp1) as [?|(e & He & Hke)]; [done|].
    etrans; [apply (Hmin e He)|done]. }
  case_decide as HvF.
  { split.
    - apply route_path_walk. by exists p, v.
    - intros p' (q & f & -> & HF & Hw)%route_path_walk.
      rewrite !length_app. simpl.
      destruct (Hfront q f Hw) as [Hf|(e & He & Hke)]; [by destruct (Hfin f)|].
      pose proof (Hmin e He). unfold entry_length in *. simpl in *. lia. }
  destruct (push_neighbours_spec Q' (set_iter (_neighbours (obj σ v))) k (p ++ [v]) Hheap')
    as (Q'' & -> & Hheap'' & Hperm'').
  cbn [mbind option_bind fst snd].
  assert (Hin'' : ∀ e, e ∈ Q'' ↔ (∃ n, e = (k + 1, n, p ++ [v]) ∧ n ∈ nb σ v) ∨ e ∈ Q').
  { intros e. rewrite Hperm'', elem_of_app, list_elem_of_fmap.
    by setoid_rewrite (set_iter_elem Hiter). }
  split.
  - split; [done|..].
    + intros k' s q [(n & [= -> -> ->] & Hn)|He]%Hin''; [|by auto].
      split; [rewrite length_app; simpl; lia|]. by apply walk_snoc.
    + intros u p1 w [Hu| ->%elem_of_singleton]%elem_of_union Hw1 Hw.
      * destruct (Hseen u p1 w Hu Hw1 Hw) as [?|(k' & q & [?|?]%Hpop & ?)].
        -- left. set_solver.
        -- simplify_eq. left. set_solver.
        -- right. exists k', q. split; [|done]. apply Hin''. by right.
      * right. exists (k + 1), (p ++ [v]). split; [apply Hin''; left; by exists w|].
        specialize (Hshort p1 Hw1). lia.
    + intros s Hs. destruct (Hstart s Hs) as [?|(q & [?|?]%Hpop)].
      * left. set_solver.
      * simplify_eq. left. set_solver.
      * right. exists q. apply Hin''. by right.
    + intros f [Hf| ->%elem_of_singleton]%elem_of_union; [by apply Hfin|done].
  - rewrite Hperm'', length_app, length_fmap, Hlen.
    destruct (budget_insert σ seen v Hv) as [H|[H1 H2]]; unfold nb in *; lia.
Qed.

Lemma route_loop_spec (σ : State) (S F : gset loc) :
  let queue : list Network.entry := (λ s, (0, s, [])) <$> set_iter S in
  ∃ r, loop (Network.route_fuel σ queue) (Network.route_body σ F) (queue, ∅) = Some r ∧
       route_post σ S F r.
Proof.
  intros queue.
  apply (loop_spec (λ s, bfs_inv σ S F s.1 s.2) (route_post σ S F)
           (λ s, length s.1 + Network.budget σ s.2)).
  - intros [Q seen] Hinv. by apply route_body_step.
  - apply bfs_inv_initial.
  - unfold Network.route_fuel. simpl. lia.
Qed.


Lemma visible_satellites_at_sees (c : coord) (σ σ1 : State) (X : gset loc) :
  wf_state σ → Network.visible_satellites_at c σ = (Ok X, σ1) →
  ∀ s, s ∈ X ↔ sees σ c s.
Proof.
  intros Hwf Hvis s.
  apply (visible_satellites_at_Ok Hiter) in Hvis as (g & Hg & -> & _ & HX); [|done].
  rewrite HX. unfold sees. split; [intros [? ?]; eauto|].
  intros [? (g' & Hg' & ?)]. rewrite Hg in Hg'. by simplify_eq.
Qed.

Lemma sees_allocates (σ σ' : State) (c : coord) (s : loc) :
  wf_state σ → allocates σ σ' → sees σ' c s ↔ sees σ c s.
Proof.
  intros Hwf [->|(o & Ho & Hg & ->)]; [done|]. unfold sees. simpl.
  split; intros [Hs H]; (split; [done|]);
    by rewrite obj_alloc_old in * by by apply (wf_members _ Hwf).
Qed.

Lemma is_path_allocates (σ σ' : State) (p : list loc) :
  wf_state σ → allocates σ σ' → is_path σ' p ↔ is_path σ p.
Proof.
  intros Hwf Ha. unfold is_path.
  by setoid_rewrite (nb_allocates σ σ' _ Hwf Ha).
Qed.

(** What [route] returns, by the sets the two calls of
    [visible_satellites_at] return. *)
Lemma route_spec (start finish : coord) (σ : State) :
  wf_state σ →
  ∃ r σ', Network.route start finish σ = Some (r, σ') ∧
    match Network.visible_satellites_at start σ with
    | (Raise e, _) => r = Raise e
    | (Ok startset, σ1) =>
        if decide (startset = ∅) then r = Raise (RouteNotFound Network.no_start)
        else
          match Network.visible_satellites_at finish σ1 with
          | (Raise e, _) => r = Raise e
          | (Ok finishset, _) =>
              if decide (finishset = ∅) then r = Raise (RouteNotFound Network.no_finish)
              else (r = Raise (RouteNotFound Network.no_route) ∧
                    ∀ p, ¬ connects σ start finish p) ∨
                   ∃ p, r = Ok p ∧ connects σ start finish p ∧
                        ∀ p', connects σ start finish p' → length p ≤ length p'
          end
    end.
Proof.
  intros Hwf. unfold Network.route.
  pose proof (allocates_visible start σ) as Ha1.
  destruct (Network.visible_satellites_at start σ) as [[S|e] σ1] eqn:Hv1; [|by eauto].
  case_decide as HS; [by eauto|]. simpl in Ha1.
  pose proof (wf_allocates _ _ Hwf Ha1) as Hwf1.
  pose proof (allocates_visible finish σ1) as Ha2.
  destruct (Network.visible_satellites_at finish σ1) as [[F|e] σ2] eqn:Hv2; [|by eauto].
  case_decide as HF; [by eauto|]. simpl in Ha2.
  destruct (route_loop_spec σ2 S F) as (r & -> & Hpost). cbn [mbind option_bind].
  exists r, σ2. split; [done|].
  assert (Hpath : ∀ p, route_path σ2 S F p ↔ connects σ start finish p).
  { intros p. unfold route_path, connects.
    rewrite (is_path_allocates σ1 σ2), (is_path_allocates σ σ1) by done.
    setoid_rewrite (visible_satellites_at_sees start σ σ1 S Hwf Hv1).
    setoid_rewrite (visible_satellites_at_sees finish σ1 σ2 F Hwf1 Hv2).
    by setoid_rewrite (sees_allocates σ σ1 finish _ Hwf Ha1). }
  destruct r as [p|e]; simpl in Hpost.
  - right. exists p. destruct Hpost as [Hp Hmin]. split_and!; [done|by apply Hpath|].
    intros p' Hp'. by apply Hmin, Hpath.
  - left. destruct Hpost as [-> Hno]. split; [done|]. intros p Hp. by apply (Hno p), Hpath.
Qed.

End RouteFacts.

(** ** Queries *)

Section Frame.
Context {rt : Runtime}.

Lemma reset_eq (σ : State) :
  Network.reset σ =
  (match set_iter (_satellites σ) with [] => Ok tt | _ :: _ => Raise TypeError end, σ).
Proof.
  unfold Network.reset, mbind, M_bind, get. by destruct (set_iter (_satellites σ)).
Qed.

Lemma unchanged_refl (σ : State) : unchanged σ σ.
Proof. done. Qed.

Lemma unchanged_trans (σ1 σ2 σ3 : State) :
  unchanged σ1 σ2 → unchanged σ2 σ3 → unchanged σ1 σ3.
Proof.
  intros (Hs1 & Hn1 & Hh1) (Hs2 & Hn2 & Hh2). split_and!.
  - by rewrite Hs2.
  - intros l. by rewrite Hn2.
  - intros l o Hl. by apply Hh2, Hh1.
Qed.

Lemma unchanged_alloc (σ : State) (o : Satellite_obj) :
  _neighbours o = ∅ → unchanged σ (alloc o σ).
Proof.
  intros Ho. split_and!; [done| |].
  - intros l. rewrite obj_alloc. case_decide as Hl; [|done]. subst.
    rewrite Ho. unfold obj.
    by rewrite (not_elem_of_dom_1 (heap σ) (fresh (dom (heap σ)))) by apply is_fresh.
  - intros l o' Hl. unfold alloc. simpl. rewrite lookup_insert_ne; [done|].
    intros <-. apply (is_fresh (dom (heap σ))). by apply elem_of_dom.
Qed.

Lemma unchanged_visible (c : coord) (σ : State) :
  unchanged σ (Network.visible_satellites_at c σ).2.
Proof.
  destruct (visible_satellites_at_state c σ) as [->|(g & _ & ->)];
    [apply unchanged_refl|by apply unchanged_alloc].
Qed.

Lemma unchanged_route (start finish : coord) (σ : State) :
  match Network.route start finish σ with
  | Some (_, σ') => unchanged σ σ'
  | None => True
  end.
Proof.
  destruct (Network.route start finish σ) as [[r σ']|] eqn:Hr; [|done].
  apply route_state in Hr as [->| ->]; [apply unchanged_visible|].
  eapply unchanged_trans; apply unchanged_visible.
Qed.

End Frame.

(** ** Two interpreters *)

Section Independence.
Context (rt1 rt2 : Runtime).
Context (Hiter1 : set_iter_ok rt1) (Hiter2 : set_iter_ok rt2) (Hlibm : same_libm rt1 rt2).

Lemma lineofsight_same_libm (a b : Satellite_obj) :
  @Satellite.lineofsight rt1 a b = @Satellite.lineofsight rt2 a b.
Proof.
  destruct Hlibm as [Hs Hc].
  unfold Satellite.lineofsight, Satellite.cospsi, Satellite.math_sin, Satellite.math_cos.
  by rewrite Hs, Hc.
Qed.

Lemma lineofsight_raises (rt : Runtime) (a b : Satellite_obj) (e : exception) :
  Satellite.lineofsight a b = Raise e → e = ValueError.
Proof.
  unfold Satellite.lineofsight, Satellite.cospsi, Satellite.math_sin, Satellite.math_cos.
  repeat (match goal with
          | |- context [PyFloat.math_1 ?f ?x] =>
              let H := fresh in destruct (PyFloat.math_1 f x) eqn:H;
              [|apply FloatFacts.math_1_raises in H]
          end; simpl); congruence.
Qed.

Lemma filter_res_perm {A} (f : A → result bool) (xs ys : list A) :
  xs ≡ₚ ys → (∀ x e, f x = Raise e → e = ValueError) →
  match filter_res f xs, filter_res f ys with
  | Ok l1, Ok l2 => ∀ x, x ∈ l1 ↔ x ∈ l2
  | Raise e1, Raise e2 => e1 = e2
  | _, _ => False
  end.
Proof.
  intros Hperm Hraise.
  destruct (filter_res f xs) as [l1|e1] eqn:H1, (filter_res f ys) as [l2|e2] eqn:H2.
  - apply filter_res_Ok in H1 as [_ H1], H2 as [_ H2].
    intros x. rewrite H1, H2. by rewrite Hperm.
  - apply filter_res_Ok in H1 as [H1 _]. apply filter_res_Raise in H2 as (x & Hx & Hfx).
    rewrite <- Hperm in Hx. destruct (H1 x Hx) as [b Hb]. congruence.
  - apply filter_res_Ok in H2 as [H2 _]. apply filter_res_Raise in H1 as (x & Hx & Hfx).
    rewrite Hperm in Hx. destruct (H2 x Hx) as [b Hb]. congruence.
  - apply filter_res_Raise in H1 as (x1 & _ & ->%Hraise), H2 as (x2 & _ & ->%Hraise). done.
Qed.

Lemma visible_independent (c : coord) (σ : State) :
  @Network.visible_satellites_at rt1 c σ = @Network.visible_satellites_at rt2 c σ.
Proof.
  rewrite !visible_satellites_at_eq. destruct (Satellite.geometry c) as [g|e]; [|done].
  cbn zeta. f_equal.
  rewrite (filter_res_ext (λ s, @Satellite.lineofsight rt1 _ _)
             (λ s, @Satellite.lineofsight rt2 (obj (alloc (instance "T" c g) σ) s) (instance "T" c g)))
    by (intros; apply lineofsight_same_libm).
  pose proof (filter_res_perm
    (λ s, @Satellite.lineofsight rt2 (obj (alloc (instance "T" c g) σ) s) (instance "T" c g))
    (@set_iter rt1 (_satellites σ)) (@set_iter rt2 (_satellites σ))) as H.
  destruct (filter_res _ (@set_iter rt1 _)) as [l1|e1], (filter_res _ (@set_iter rt2 _)) as [l2|e2].
  - f_equal. apply leibniz_equiv. intros x. rewrite !elem_of_list_to_set. apply H.
    + by rewrite (Hiter1 _), (Hiter2 _).
    + intros ? ?. apply lineofsight_raises.
  - destruct H; [by rewrite (Hiter1 _), (Hiter2 _)|intros ? ?; apply lineofsight_raises].
  - destruct H; [by rewrite (Hiter1 _), (Hiter2 _)|intros ? ?; apply lineofsight_raises].
  - f_equal. apply H; [by rewrite (Hiter1 _), (Hiter2 _)|intros ? ?; apply lineofsight_raises].
Qed.

Lemma state_ext (σ σ' : State) :
  _satellites σ = _satellites σ' → dom (heap σ) = dom (heap σ') →
  (∀ x, obj σ x = obj σ' x) → σ = σ'.
Proof.
  destruct σ as [h s], σ' as [h' s']. simpl. intros -> Hdom Hobj. f_equal.
  apply map_eq. intros x. specialize (Hobj x). unfold obj in Hobj. simpl in Hobj.
  destruct (h !! x) as [o|] eqn:Hx, (h' !! x) as [o'|] eqn:Hx'; simpl in *.
  - by subst.
  - apply elem_of_dom_2 in Hx. rewrite Hdom in Hx. by apply not_elem_of_dom in Hx'.
  - apply elem_of_dom_2 in Hx'. rewrite <- Hdom in Hx'. by apply not_elem_of_dom in Hx.
  - done.
Qed.

Lemma connect_state_independent (l : loc) (X : gset loc) (σ : State) :
  @connect_state rt1 l X σ = @connect_state rt2 l X σ.
Proof.
  apply state_ext.
  - by rewrite !satellites_connect_state.
  - rewrite !dom_connect_state. f_equal. apply leibniz_equiv. intros x.
    by rewrite !elem_of_list_to_set, (Hiter1 _), (Hiter2 _).
  - intros x. by rewrite (obj_connect_state (rt:=rt1)), (obj_connect_state (rt:=rt2)).
Qed.

Lemma connect_independent (l : loc) (σ : State) :
  @Network.connect rt1 l σ = @Network.connect rt2 l σ.
Proof.
  rewrite !connect_eq, visible_independent.
  destruct (Network.visible_satellites_at _ σ) as [[X|e] σ1]; [|done].
  by rewrite connect_state_independent.
Qed.

Lemma route_end_eq (rt : Runtime) (start finish : coord) (σ σ' : State) (r : result (list loc)) :
  Network.route start finish σ = Some (r, σ') → σ' = route_end start finish σ.
Proof.
  unfold Network.route, route_end.
  destruct (Network.visible_satellites_at start σ) as [[S|e] σ1]; [|by intros [= <- <-]].
  case_decide; [by intros [= <- <-]|].
  destruct (Network.visible_satellites_at finish σ1) as [[F|e] σ2]; simpl; [|by intros [= <- <-]].
  case_decide; [by intros [= <- <-]|].
  match goal with |- context [loop ?f ?b ?s] => destruct (loop f b s) end; simpl; [|done].
  by intros [= <- <-].
Qed.

Lemma route_end_independent (start finish : coord) (σ : State) :
  @route_end rt1 start finish σ = @route_end rt2 start finish σ.
Proof.
  unfold route_end. rewrite visible_independent.
  destruct (Network.visible_satellites_at start σ) as [[S|e] σ1]; [|done].
  case_decide; [done|]. by rewrite visible_independent.
Qed.

Lemma connects_independent (σ : State) (start finish : coord) (p : list loc) :
  @connects rt1 σ start finish p ↔ @connects rt2 σ start finish p.
Proof.
  unfold connects, sees. by setoid_rewrite lineofsight_same_libm.
Qed.

Lemma wf_state_independent (σ : State) : @wf_state rt1 σ → @wf_state rt2 σ.
Proof.
  intros [H1 H2 H3 H4]. split; [done..|].
  intros x y Hy. rewrite <- !lineofsight_same_libm. by apply H4.
Qed.

Lemma route_agree (start finish : coord) (σ : State) :
  @wf_state rt1 σ →
  agree (@Network.route rt1 start finish σ) (@Network.route rt2 start finish σ).
Proof.
  intros Hwf. pose proof (wf_state_independent σ Hwf) as Hwf2.
  destruct (route_spec (rt:=rt1) Hiter1 start finish σ Hwf) as (r1 & σ1' & Hr1 & H1).
  destruct (route_spec (rt:=rt2) Hiter2 start finish σ Hwf2) as (r2 & σ2' & Hr2 & H2).
  rewrite Hr1, Hr2.
  apply route_end_eq in Hr1, Hr2. rewrite route_end_independent in Hr1. subst σ1' σ2'.
  rewrite visible_independent in H1.
  assert (r1 = r2 ∨ ∃ p1 p2, r1 = Ok p1 ∧ r2 = Ok p2 ∧ length p1 = length p2) as Hr.
  { destruct (Network.visible_satellites_at start σ) as [[S|e] σ1]; [|left; congruence].
    case_decide; [left; congruence|]. rewrite visible_independent in H1.
    destruct (Network.visible_satellites_at finish σ1) as [[F|e] σ2]; [|left; congruence].
    case_decide; [left; congruence|].
    destruct H1 as [[-> Hno1]|(p1 & -> & Hp1 & Hmin1)], H2 as [[-> Hno2]|(p2 & -> & Hp2 & Hmin2)].
    - by left.
    - by apply connects_independent, Hno1 in Hp2.
    - by apply connects_independent, Hno2 in Hp1.
    - right. exists p1, p2. split_and!; [done..|].
      apply connects_independent in Hp1 as Hp1', Hp2 as Hp2'.
      specialize (Hmin1 p2 Hp2'). specialize (Hmin2 p1 Hp1'). lia. }
  destruct Hr as [->|(p1 & p2 & -> & -> & Hlen)]; [by destruct r2|done].
Qed.

Lemma exec_independent (σ : State) (c : call) :
  @wf_state rt1 σ → @exec rt1 σ c = @exec rt2 σ c.
Proof.
  intros Hwf. destruct c as [id c|l|c|start finish]; simpl.
  - done.
  - by rewrite connect_independent.
  - by rewrite visible_independent.
  - pose proof (route_agree start finish σ Hwf) as H.
    destruct (@Network.route rt1 start finish σ) as [[[p1|e1] σ1]|],
             (@Network.route rt2 start finish σ) as [[[p2|e2] σ2]|]; simpl in H;
      try done; by destruct H.
Qed.

Lemma run_independent (script : list call) : @run rt1 script = @run rt2 script.
Proof.
  induction script as [|c script IH] using rev_ind; [done|].
  rewrite !run_snoc, <- IH. apply exec_independent. by apply wf_run.
Qed.

End Independence.

(** ** The examples *)

Lemma table_rt_iter_ok : set_iter_ok table_rt.
Proof. by intros X. Qed.

Lemma reverse_rt_iter_ok : set_iter_ok reverse_rt.
Proof. intros X. apply reverse_Permutation. Qed.

Lemma table_cos_even : libm_cos_even table_rt.
Proof. intros x. simpl. unfold table_cos. by rewrite FloatFacts.abs_opp. Qed.

Lemma table_reverse_same_libm : same_libm table_rt reverse_rt.
Proof. done. Qed.

(** * The specification *)

(** C1.  A path that [route] returns on a network built by a script of calls
    is a path of the neighbour graph from a satellite visible at [start] to
    one visible at [finish], and no such path has fewer edges. *)
Theorem route_shortest_path (rt : Runtime) :
  set_iter_ok rt →
  ∀ (script : list call) (start finish : coord) (path : list loc),
    fst <$> Network.route start finish (run script) = Some (Ok path) →
    connects (run script) start finish path ∧
    ∀ p, connects (run script) start finish p → hops path ≤ hops p.
Proof.
  intros Hiter script start finish path Hr.
  destruct (route_spec Hiter start finish (run script) (wf_run Hiter script))
    as (r & σ' & Hroute & Hout).
  rewrite Hroute in Hr. simpl in Hr. injection Hr as ->.
  destruct (Network.visible_satellites_at start _) as [[S|e] σ1]; [|done].
  case_decide; [done|].
  destruct (Network.visible_satellites_at finish σ1) as [[F|e] σ2]; [|done].
  case_decide; [done|].
  destruct Hout as [[? _]|(p & Hp & Hc & Hmin)]; [done|].
  injection Hp as <-. split; [done|].
  intros p' Hp'. unfold hops. specialize (Hmin p' Hp'). lia.
Qed.

Lemma route_shortest_path_witness :
  connects (rt:=table_rt) (run (rt:=table_rt) equator) (Coordinates 0 (-20) 0) (Coordinates 0 100 0)
    [1; 3; 5]%positive ∧
  ∀ p, connects (rt:=table_rt) (run (rt:=table_rt) equator) (Coordinates 0 (-20) 0) (Coordinates 0 100 0) p →
       hops [1; 3; 5]%positive ≤ hops p.
Proof.
  apply (route_shortest_path table_rt table_rt_iter_ok equator).
  vm_compute. reflexivity.
Defined.

(** C2, amended.  On a network built by a script, [route] always ends, and
    its outcome is [route_outcome]: an exception of one of its two calls of
    [visible_satellites_at] (the [ValueError] or [ZeroDivisionError] of a
    probe that cannot be constructed) is the exception of [route]; otherwise
    it raises [RouteNotFound] when no satellite is visible at [start], when
    none is visible at [finish], or when no path connects the two, each with
    a reason of its own, and it returns a path in every other case. *)
Theorem route_outcomes (rt : Runtime) :
  set_iter_ok rt →
  ∀ (script : list call) (start finish : coord),
    (∃ r σ', Network.route start finish (run script) = Some (r, σ') ∧
             route_outcome (run script) start finish r) ∧
    Network.no_start ≠ Network.no_finish ∧
    Network.no_start ≠ Network.no_route ∧
    Network.no_finish ≠ Network.no_route.
Proof.
  intros Hiter script start finish. split; [|done].
  apply (route_spec Hiter), (wf_run Hiter).
Qed.

Lemma route_outcomes_witness :
  (∃ r σ', Network.route (rt:=table_rt) (Coordinates 0 (-20) 0) (Coordinates 0 100 0)
             (run (rt:=table_rt) equator) = Some (r, σ') ∧
           route_outcome (rt:=table_rt) (run (rt:=table_rt) equator)
             (Coordinates 0 (-20) 0) (Coordinates 0 100 0) r) ∧
  Network.no_start ≠ Network.no_finish ∧
  Network.no_start ≠ Network.no_route ∧
  Network.no_finish ≠ Network.no_route.
Proof. apply (route_outcomes table_rt table_rt_iter_ok equator). Defined.

(** C2 as stated fails: at a start 7000 km under the ground the probe cannot
    be constructed, and [route] raises [ValueError], not [RouteNotFound], on
    the empty network as on any other. *)
Lemma route_raises_ValueError :
  fst <$> Network.route (rt:=table_rt) (Coordinates 0 0 (-7000)) (Coordinates 0 0 0) initial
    = Some (Raise ValueError) ∧
  fst <$> Network.route (rt:=table_rt) (Coordinates 0 0 (-7000)) (Coordinates 0 0 0)
            (run (rt:=table_rt) equator)
    = Some (Raise ValueError).
Proof. split; vm_compute; reflexivity. Qed.

(** C3.  After any script of calls on an empty network, [B] is a neighbour
    of [A] exactly when [A] is a neighbour of [B]. *)
Theorem neighbours_symmetric (rt : Runtime) :
  set_iter_ok rt → libm_cos_even rt →
  ∀ (script : list call) (A B : loc),
    B ∈ _neighbours (obj (run script) A) ↔ A ∈ _neighbours (obj (run script) B).
Proof.
  intros Hiter Heven script A B.
  split; apply (symmetric_run Hiter Heven script).
Qed.

Lemma neighbours_symmetric_witness :
  3%positive ∈ _neighbours (obj (run (rt:=table_rt) equator) 1%positive) ↔
  1%positive ∈ _neighbours (obj (run (rt:=table_rt) equator) 3%positive).
Proof.
  apply (neighbours_symmetric table_rt table_rt_iter_ok table_cos_even equator).
Defined.

(** C4.  [A.lineofsight(B)] and [B.lineofsight(A)] have the same outcome, for
    any two instances, whatever their positions and horizon angles. *)
Theorem lineofsight_symmetric (rt : Runtime) :
  libm_cos_even rt →
  ∀ A B : Satellite_obj, Satellite.lineofsight A B = Satellite.lineofsight B A.
Proof. intros Heven A B. by apply lineofsight_sym. Qed.

Lemma lineofsight_symmetric_witness :
  Satellite.lineofsight (rt:=table_rt)
    (obj (run (rt:=table_rt) equator) 1%positive) (obj (run (rt:=table_rt) equator) 5%positive) =
  Satellite.lineofsight (rt:=table_rt)
    (obj (run (rt:=table_rt) equator) 5%positive) (obj (run (rt:=table_rt) equator) 1%positive).
Proof. apply (lineofsight_symmetric table_rt table_cos_even). Defined.

(** C5, amended.  [Satellite(id, c)] raises [ZeroDivisionError] when the
    radius [6371 + altitude] is zero, [ValueError] when one minus the square
    of [6371 / radius] is negative, and returns a new instance in every other
    case. *)
Theorem construction_failures (id : string) (c : coord) (σ : State) :
  (Satellite.__init__ id c σ).1 =
  let radius := (6371 + altitude c)%float in
  let coshorizon := (6371 / radius)%float in
  if (radius =? 0)%float then Raise ZeroDivisionError
  else if (1 - coshorizon * coshorizon <? 0)%float then Raise ValueError
  else Ok (fresh (dom (heap σ))).
Proof.
  rewrite __init___eq, geometry_eq. cbv zeta.
  destruct (_ =? 0)%float; [done|]. by destruct (_ <? 0)%float.
Qed.

(** C5 as stated fails: at the altitude -20000 the radius is negative, and
    the instance is constructed. *)
Lemma negative_radius_constructs :
  (6371 + altitude (Coordinates 0 0 (-20000)) <=? 0)%float = true ∧
  (Satellite.__init__ "S" (Coordinates 0 0 (-20000)) initial).1 = Ok 1%positive.
Proof. split; vm_compute; reflexivity. Qed.

(** C6.  [reset] raises [TypeError] on every network that has a member, and
    changes nothing: it passes the three coordinates of the member as three
    arguments to [visible_satellites_at], which takes one. *)
Theorem reset_raises_TypeError (rt : Runtime) (σ : State) :
  set_iter_ok rt → _satellites σ ≠ ∅ →
  Network.reset σ = (Raise TypeError, σ).
Proof.
  intros Hiter Hne. rewrite reset_eq.
  destruct (set_iter (_satellites σ)) as [|s l] eqn:Hl; [|done].
  destruct Hne. apply leibniz_equiv, elements_empty_iff.
  apply Permutation_nil_r. rewrite <- Hl. symmetry. apply Hiter.
Qed.

Lemma reset_raises_TypeError_witness :
  Network.reset (rt:=table_rt) (run (rt:=table_rt) grounded) =
  (Raise TypeError, run (rt:=table_rt) grounded).
Proof.
  apply (reset_raises_TypeError table_rt _ table_rt_iter_ok).
  intros H. vm_compute in H. discriminate H.
Defined.

(** C7.  [visible_satellites_at] and [route] leave the network as it was,
    whether they return or raise: the same members (the probe is not one of
    them), the same neighbours of every instance, and every instance that
    existed unchanged. *)
Theorem queries_change_nothing (rt : Runtime) (σ : State) (start finish c : coord) :
  unchanged σ (Network.visible_satellites_at c σ).2 ∧
  match Network.route start finish σ with
  | Some (_, σ') => unchanged σ σ'
  | None => True
  end.
Proof. split; [apply unchanged_visible|apply unchanged_route]. Qed.

(** C8, amended.  After a script that connects no instance twice, no
    satellite is its own neighbour. *)
Theorem no_self_neighbour (rt : Runtime) :
  set_iter_ok rt →
  ∀ script : list call, NoDup (connected script) →
    ∀ A : loc, A ∉ _neighbours (obj (run script) A).
Proof.
  intros Hiter script Hnd A. by apply (self_free_run Hiter script Hnd).
Qed.

Lemma no_self_neighbour_witness :
  NoDup (connected equator) ∧
  (3%positive ∈ _neighbours (obj (run (rt:=table_rt) equator) 3%positive) → False).
Proof.
  assert (Hnd : NoDup (connected equator)).
  { vm_compute. repeat constructor; set_solver. }
  split; [done|].
  apply (no_self_neighbour table_rt table_rt_iter_ok equator Hnd).
Defined.

(** C8 as stated fails: a satellite that is connected a second time is
    visible at its own coordinates, and becomes its own neighbour. *)
Lemma connected_twice_self_neighbour :
  1%positive ∈ _neighbours (obj (run (rt:=table_rt) connected_twice) 1%positive).
Proof. vm_compute. reflexivity. Qed.

(** C9, amended.  Two interpreters with the same [sin] and [cos] build the
    same network from a script, and [route] ends the same way on both: with
    the same exception, or with two paths of the same length. *)
Theorem route_determined_up_to_ties (rt1 rt2 : Runtime) :
  set_iter_ok rt1 → set_iter_ok rt2 → same_libm rt1 rt2 →
  ∀ (script : list call) (start finish : coord),
    run (rt:=rt1) script = run (rt:=rt2) script ∧
    agree (Network.route (rt:=rt1) start finish (run (rt:=rt1) script))
          (Network.route (rt:=rt2) start finish (run (rt:=rt2) script)).
Proof.
  intros Hiter1 Hiter2 Hlibm script start finish.
  pose proof (run_independent rt1 rt2 Hiter1 Hiter2 Hlibm script) as Hrun.
  split; [done|]. rewrite <- Hrun.
  apply (route_agree rt1 rt2 Hiter1 Hiter2 Hlibm), (wf_run Hiter1).
Qed.

Lemma route_determined_up_to_ties_witness :
  run (rt:=table_rt) pole_pair = run (rt:=reverse_rt) pole_pair ∧
  agree (Network.route (rt:=table_rt) (Coordinates 90 0 0) (Coordinates 90 0 0)
           (run (rt:=table_rt) pole_pair))
        (Network.route (rt:=reverse_rt) (Coordinates 90 0 0) (Coordinates 90 0 0)
           (run (rt:=reverse_rt) pole_pair)).
Proof.
  apply (route_determined_up_to_ties table_rt reverse_rt
           table_rt_iter_ok reverse_rt_iter_ok table_reverse_same_libm pole_pair).
Defined.

(** C9 as stated fails: the order in which the interpreter iterates a set
    is no part of the input, and it decides which of two shortest paths
    [route] returns. *)
Lemma route_depends_on_set_order :
  fst <$> Network.route (rt:=table_rt) (Coordinates 90 0 0) (Coordinates 90 0 0)
            (run (rt:=table_rt) pole_pair) = Some (Ok [3%positive]) ∧
  fst <$> Network.route (rt:=reverse_rt) (Coordinates 90 0 0) (Coordinates 90 0 0)
            (run (rt:=reverse_rt) pole_pair) = Some (Ok [1%positive]).
Proof. split; vm_compute; reflexivity. Qed.

(** C10, amended.  On a network built by a script, a satellite of altitude 0
    is visible at a coordinate of altitude 0 exactly when it is a member and
    the cosine [cospsi] that [lineofsight] computes for the two is greater
    than 1.0. *)
Theorem ground_visibility (rt : Runtime) :
  set_iter_ok rt →
  ∀ (script : list call) (lat lon : float) (X : gset loc) (s : loc),
    (Network.visible_satellites_at (Coordinates lat lon 0) (run script)).1 = Ok X →
    altitude (_coordinates (obj (run script) s)) = 0%float →
    s ∈ X ↔
    s ∈ _satellites (run script) ∧
    ∃ g x, Satellite.geometry (Coordinates lat lon 0) = Ok g ∧
           Satellite.cospsi (obj (run script) s) (instance "T" (Coordinates lat lon 0) g) = Ok x ∧
           (1 <? x)%float = true.
Proof.
  intros Hiter script lat lon X s Hvis Halt.
  pose proof (wf_run Hiter script) as Hwf.
  destruct (Network.visible_satellites_at _ _) as [r σ1] eqn:Hv. simpl in Hvis. subst r.
  rewrite (visible_satellites_at_sees Hiter _ _ _ _ Hwf Hv). unfold sees.
  assert (Hhor : s ∈ _satellites (run script) → _horizon (obj (run script) s) = Horizon 0 1).
  { intros Hs. pose proof (wf_geometry _ Hwf s (wf_members _ Hwf s Hs)) as Hg.
    destruct (_coordinates (obj (run script) s)) as [la lo al]. simpl in Halt. subst al.
    rewrite geometry_ground in Hg. by injection Hg as _ <-. }
  split.
  - intros (Hs & g & Hg & Hlos). split; [done|]. exists g.
    rewrite lineofsight_ground in Hlos; [|by apply Hhor|].
    + destruct (Satellite.cospsi _ _) as [x|e]; [|done]. exists x.
      simpl in Hlos. by injection Hlos as ->.
    + rewrite geometry_ground in Hg. by injection Hg as <-.
  - intros (Hs & g & x & Hg & Hx & Hlt). split; [done|]. exists g. split; [done|].
    rewrite lineofsight_ground; [|by apply Hhor|].
    + rewrite Hx. simpl. by rewrite Hlt.
    + rewrite geometry_ground in Hg. by injection Hg as <-.
Qed.

Lemma ground_visibility_witness :
  1%positive ∈ ({[1%positive]} : gset loc) ↔
  1%positive ∈ _satellites (run (rt:=table_rt) grounded) ∧
  ∃ g x, Satellite.geometry (Coordinates 8 0 0) = Ok g ∧
         Satellite.cospsi (rt:=table_rt) (obj (run (rt:=table_rt) grounded) 1%positive)
           (instance "T" (Coordinates 8 0 0) g) = Ok x ∧
         (1 <? x)%float = true.
Proof.
  apply (ground_visibility table_rt table_rt_iter_ok grounded 8 0 {[1%positive]} 1%positive).
  - vm_compute. reflexivity.
  - vm_compute. reflexivity.
Defined.

(** C10 as stated fails: at 8 degrees north the sum of the squares of the
    rounded sine and cosine is the float after 1.0, and a satellite on the
    ground is visible at its own coordinates. *)
Lemma grounded_satellite_visible :
  altitude (_coordinates (obj (run (rt:=table_rt) grounded) 1%positive)) = 0%float ∧
  (Network.visible_satellites_at (rt:=table_rt) (Coordinates 8 0 0)
     (run (rt:=table_rt) grounded)).1 = Ok {[1%positive]}.
Proof. split; vm_compute; reflexivity. Qed.

(** * More of the program *)

(** ** The network *)

Section NetworkFacts.
Context {rt : Runtime} (Hiter : set_iter_ok rt).

(** What [visible_satellites_at] returns does not depend on the probes that
    were allocated before. *)
Lemma visible_satellites_at_allocates (c : coord) (σ σ' : State) :
  wf_state σ → allocates σ σ' →
  (Network.visible_satellites_at c σ').1 = (Network.visible_satellites_at c σ).1.
Proof.
  intros Hwf Ha. pose proof (wf_allocates _ _ Hwf Ha) as Hwf'.
  rewrite !visible_satellites_at_eq. destruct (Satellite.geometry c) as [g|e]; [|done].
  cbn zeta. cbn [fst]. rewrite (satellites_allocates _ _ Ha).
  erewrite filter_res_ext; [done|]. intros s Hs%(set_iter_elem Hiter). simpl.
  rewrite !obj_alloc_old.
  - destruct Ha as [->|(o & _ & _ & ->)]; [done|].
    by rewrite obj_alloc_old by by apply (wf_members _ Hwf).
  - by apply (wf_members _ Hwf).
  - apply (wf_members _ Hwf'). by rewrite (satellites_allocates _ _ Ha).
Qed.

Lemma visible_satellites_at_raises (c : coord) (σ : State) (e : exception) :
  wf_state σ →
  (Network.visible_satellites_at c σ).1 = Raise e ↔
  Satellite.geometry c = Raise e ∨
  ∃ g s, Satellite.geometry c = Ok g ∧ s ∈ _satellites σ ∧
         Satellite.lineofsight (obj σ s) (instance "T" c g) = Raise e.
Proof.
  intros Hwf. rewrite visible_satellites_at_eq.
  destruct (Satellite.geometry c) as [g|e'] eqn:Hg; cbn zeta; cbn [fst].
  - rewrite (filter_res_ext _ (λ s, Satellite.lineofsight (obj σ s) (instance "T" c g))).
    2:{ intros s Hs%(set_iter_elem Hiter). simpl.
        by rewrite obj_alloc_old by by apply (wf_members _ Hwf). }
    destruct (filter_res _ _) as [ys|e'] eqn:Hf.
    + split; [done|]. intros [?|(g' & s & [= <-] & Hs & Hlos)]; [done|].
      apply filter_res_Ok in Hf as [Hf _].
      destruct (Hf s) as [b Hb]; [by apply (set_iter_elem Hiter)|]. simpl in Hb. congruence.
    + apply filter_res_Raise in Hf as Hs. destruct Hs as (s & Hs%(set_iter_elem Hiter) & Hlos).
      split.
      * intros [= ->]. right. by exists g, s.
      * intros [?|(g' & s' & [= <-] & _ & Hlos')]; [done|].
        apply lineofsight_raises in Hlos, Hlos'. by subst.
  - split; [intros [= ->]; by left|]. intros [[= ->]|(g & s & ? & _)]; done.
Qed.

Lemma connect_raises (l : loc) (σ σ' : State) (e : exception) :
  wf_state σ → l ∈ dom (heap σ) →
  Network.connect l σ = (Raise e, σ') → e = ValueError ∧ unchanged σ σ'.
Proof.
  intros Hwf Hl. rewrite connect_eq.
  pose proof (unchanged_visible (_coordinates (obj σ l)) σ) as Hun.
  destruct (Network.visible_satellites_at _ σ) as [[X|e'] σ1] eqn:Hv; [done|].
  intros [= -> ->]. split; [|done].
  assert (H : (Network.visible_satellites_at (_coordinates (obj σ l)) σ).1 = Raise e)
    by by rewrite Hv.
  apply (visible_satellites_at_raises _ _ _ Hwf) in H as [H|(g & s & _ & _ & H)].
  - by rewrite (wf_geometry _ Hwf l Hl) in H.
  - by apply lineofsight_raises in H.
Qed.

(** [connect] when it returns. *)
Lemma connect_returns (l : loc) (σ σ' : State) :
  wf_state σ → l ∈ dom (heap σ) →
  Network.connect l σ = (Ok tt, σ') →
  let visible s :=
    s ∈ _satellites σ ∧ Satellite.lineofsight (obj σ s) (obj σ l) = Ok true in
  wf_state σ' ∧ dom (heap σ) ⊆ dom (heap σ') ∧
  (∀ x, _coordinates (obj σ' x) = _coordinates (obj σ x) ∨ x ∉ dom (heap σ)) ∧
  (∀ x, x ∈ dom (heap σ) → same_geometry (obj σ' x) (obj σ x)) ∧
  _satellites σ' = _satellites σ ∪ {[l]} ∧
  ∀ x y, y ∈ nb σ' x ↔
    (x = l ∧ visible y) ∨ (x ≠ l ∧ y ∈ nb σ x) ∨ (visible x ∧ y = l).
Proof.
  intros Hwf Hl. rewrite connect_eq.
  destruct (Network.visible_satellites_at _ σ) as [[X|e'] σ1] eqn:Hv; [|done].
  intros [= <-]. intros visible.
  destruct (connect_Ok Hiter l σ σ1 X Hwf Hl Hv) as (Hwf1 & Hl1 & Hm & Hnb & Hobj & HX).
  assert (HX' : ∀ s, s ∈ X ↔ visible s).
  { intros s. rewrite HX. unfold visible. pose proof (Hobj l Hl) as Hol.
    split; intros [Hs H]; (split; [done|]);
      pose proof (Hobj s (wf_members _ Hwf s Hs)) as Hos; congruence. }
  assert (Hdom : dom (heap σ) ⊆ dom (heap σ1)).
  { intros x Hx. destruct (visible_satellites_at_state (_coordinates (obj σ l)) σ)
      as [H|(g & _ & H)]; rewrite Hv in H; simpl in H; subst σ1; [done|].
    rewrite dom_alloc. set_solver. }
  split_and!.
  - apply (wf_connect_state Hiter); [done..|]. intros s Hs. by apply HX in Hs as [? ?]; rewrite Hm.
  - rewrite dom_connect_state. set_solver.
  - intros x. destruct (decide (x ∈ dom (heap σ))) as [Hx|Hx]; [left|by right].
    rewrite (proj1 (geometry_connect_state Hiter l X σ1 x)). by rewrite Hobj.
  - intros x Hx. destruct (geometry_connect_state Hiter l X σ1 x) as [_ [H1 H2]].
    split; [rewrite H1|rewrite H2]; by rewrite Hobj.
  - by rewrite satellites_connect_state, Hm.
  - intros x y. rewrite (nb_connect_state Hiter), !HX', Hnb. done.
Qed.

End NetworkFacts.

(** ** Paths *)

Section PathFacts.
Context {rt : Runtime} (Hiter : set_iter_ok rt).

Lemma is_path_cons (σ : State) (x y : loc) (l : list loc) :
  is_path σ (x :: y :: l) ↔ y ∈ nb σ x ∧ is_path σ (y :: l).
Proof.
  split.
  - intros H. split; [by apply (H 0)|]. intros i a b Ha Hb. by apply (H (S i)).
  - intros [Hxy H] [|i] a b Ha Hb; simpl in *; [by simplify_eq|]. by apply (H i).
Qed.

Lemma is_path_singleton (σ : State) (x : loc) : is_path σ [x].
Proof. intros [|i] a b Ha Hb; simpl in *; [done|by destruct i]. Qed.

Lemma is_path_app_r (σ : State) (p q : list loc) : is_path σ (p ++ q) → is_path σ q.
Proof.
  intros H i x y Hx Hy. apply (H (length p + i)).
  - by rewrite lookup_app_r, Nat.add_comm, Nat.add_sub by lia.
  - rewrite lookup_app_r by lia. by replace (S (length p + i) - length p) with (S i) by lia.
Qed.

Lemma is_path_join (σ : State) (p q : list loc) (x : loc) :
  is_path σ (p ++ [x]) → is_path σ (x :: q) → is_path σ (p ++ x :: q).
Proof.
  induction p as [|a p IH]; [done|]. intros Hp Hq.
  destruct p as [|b p]; simpl in *.
  - apply is_path_cons in Hp as [Hax _]. by apply is_path_cons.
  - apply is_path_cons in Hp as [Hab Hp]. apply is_path_cons. split; [done|]. by apply IH.
Qed.

Lemma is_path_reverse (σ : State) (p : list loc) :
  symmetric σ → is_path σ p → is_path σ (reverse p).
Proof.
  intros Hsym H i x y [Hx Hi]%reverse_lookup_Some [Hy HSi]%reverse_lookup_Some.
  apply Hsym, (H (length p - S (S i))); [done|].
  by replace (S (length p - S (S i))) with (length p - S i) by lia.
Qed.

Lemma connects_reverse (σ : State) (start finish : coord) (p : list loc) :
  symmetric σ → connects σ start finish p → connects σ finish start (reverse p).
Proof.
  intros Hsym (Hp & Hs & Hf). split_and!.
  - by apply is_path_reverse.
  - by rewrite head_reverse.
  - by rewrite last_reverse.
Qed.

Lemma not_NoDup_split {A} `{EqDecision A} (l : list A) :
  ¬ NoDup l → ∃ a x b c, l = a ++ x :: b ++ x :: c.
Proof.
  induction l as [|y l IH]; [by intros []; constructor|]. intros Hl.
  destruct (decide (y ∈ l)) as [Hy|Hy].
  - apply list_elem_of_split in Hy as (b & c & ->). by exists [], y, b, c.
  - destruct IH as (a & x & b & c & ->); [by intros ?; apply Hl; constructor|].
    by exists (y :: a), x, b, c.
Qed.

(** A path that visits a satellite twice can be cut short. *)
Lemma connects_shortcut (σ : State) (start finish : coord) (a b c : list loc) (x : loc) :
  connects σ start finish (a ++ x :: b ++ x :: c) →
  connects σ start finish (a ++ x :: c).
Proof.
  intros (Hp & Hs & Hf). split_and!.
  - apply is_path_join.
    + apply (is_path_app_l _ _ (b ++ x :: c)). by rewrite <- app_assoc.
    + apply (is_path_app_r _ (a ++ x :: b)). by rewrite <- app_assoc.
  - by destruct a.
  - replace (a ++ x :: b ++ x :: c) with ((a ++ x :: b) ++ x :: c) in Hf
      by (by rewrite <- app_assoc).
    rewrite last_app_cons in Hf. by rewrite last_app_cons.
Qed.

Lemma connects_members (σ : State) (start finish : coord) (p : list loc) :
  wf_state σ → connects σ start finish p → p ≠ [] ∧ ∀ x, x ∈ p → x ∈ _satellites σ.
Proof.
  intros Hwf (Hp & (s & Hs & Hsees) & _). split; [by destruct p|].
  intros x [i Hi]%list_elem_of_lookup. destruct i as [|i].
  - rewrite <- head_lookup in Hi. rewrite Hs in Hi. injection Hi as <-. apply Hsees.
  - destruct (lookup_lt_is_Some_2 p i) as [y Hy]; [apply lookup_lt_Some in Hi; lia|].
    by apply (wf_neighbours _ Hwf y x), (Hp i).
Qed.

(** What [route] returns, when it returns a path. *)
Lemma route_Ok (start finish : coord) (σ : State) (path : list loc) :
  wf_state σ →
  fst <$> Network.route start finish σ = Some (Ok path) →
  (∃ S F σ1, Network.visible_satellites_at start σ = (Ok S, σ1) ∧
             (Network.visible_satellites_at finish σ1).1 = Ok F) ∧
  connects σ start finish path ∧
  ∀ p, connects σ start finish p → length path ≤ length p.
Proof.
  intros Hwf Hr.
  destruct (route_spec Hiter start finish σ Hwf) as (r & σ' & Hroute & Hout).
  rewrite Hroute in Hr. simpl in Hr. injection Hr as ->.
  destruct (Network.visible_satellites_at start _) as [[S|e] σ1]; [|done].
  case_decide; [done|].
  destruct (Network.visible_satellites_at finish σ1) as [[F|e] σ2] eqn:HF; [|done].
  case_decide; [done|].
  destruct Hout as [[? _]|(p & Hp & Hc & Hmin)]; [done|]. injection Hp as <-.
  split; [|done]. exists S, F, σ1. by rewrite HF.
Qed.

(** [route] returns a path when there is one and neither call of
    [visible_satellites_at] raises. *)
Lemma route_returns (start finish : coord) (σ : State) (p : list loc) (S F : gset loc) :
  wf_state σ →
  (Network.visible_satellites_at start σ).1 = Ok S →
  (Network.visible_satellites_at finish σ).1 = Ok F →
  connects σ start finish p →
  ∃ path, fst <$> Network.route start finish σ = Some (Ok path) ∧ length path ≤ length p.
Proof.
  intros Hwf HS HF Hp.
  destruct (route_spec Hiter start finish σ Hwf) as (r & σ' & Hroute & Hout).
  rewrite Hroute. simpl.
  pose proof (allocates_visible start σ) as Ha.
  destruct (Network.visible_satellites_at start σ) as [[S'|e] σ1] eqn:Hv; [|done].
  simpl in HS, Ha. injection HS as ->.
  pose proof Hp as (_ & (s & _ & Hs) & (f & _ & Hf)).
  apply (visible_satellites_at_sees Hiter _ _ _ _ Hwf Hv) in Hs.
  case_decide; [set_solver|].
  pose proof (visible_satellites_at_allocates Hiter finish σ σ1 Hwf Ha) as HF1.
  rewrite HF in HF1.
  destruct (Network.visible_satellites_at finish σ1) as [[F'|e] σ2] eqn:Hv2; [|done].
  simpl in HF1. injection HF1 as ->.
  apply (sees_allocates σ σ1) in Hf; [|done..].
  apply (visible_satellites_at_sees Hiter _ _ _ _ (wf_allocates _ _ Hwf Ha) Hv2) in Hf.
  case_decide; [set_solver|].
  destruct Hout as [[_ Hno]|(path & -> & _ & Hmin)]; [by destruct (Hno p)|].
  exists path. split; [done|]. by apply Hmin.
Qed.

End PathFacts.

(** ** Scripts *)

Section ScriptFacts.
Context {rt : Runtime} (Hiter : set_iter_ok rt).

Lemma obj_allocates (σ σ' : State) (x : loc) :
  allocates σ σ' → x ∈ dom (heap σ) → obj σ' x = obj σ x.
Proof. intros [->|(o & _ & _ & ->)] Hx; [done|by apply obj_alloc_old]. Qed.

Lemma dom_allocates (σ σ' : State) : allocates σ σ' → dom (heap σ) ⊆ dom (heap σ').
Proof. intros [->|(o & _ & _ & ->)]; [done|]. rewrite dom_alloc. set_solver. Qed.

(** A call either leaves the network and the instances as they are, or is a
    [connect] that returns. *)
Lemma exec_step (σ : State) (c : call) :
  wf_state σ →
  (_satellites (exec σ c) = _satellites σ ∧ (∀ x, nb (exec σ c) x = nb σ x) ∧
   ∀ x, x ∈ dom (heap σ) → obj (exec σ c) x = obj σ x) ∨
  ∃ l, c = Connect l ∧ l ∈ dom (heap σ) ∧ Network.connect l σ = (Ok tt, exec σ c).
Proof.
  intros Hwf.
  destruct (exec_cases Hiter σ c Hwf) as [(σ1 & H1 & H2)|(l & X & σ1 & -> & Hl & Hvis & Hex)].
  - left. pose proof (wf_allocates _ _ Hwf H1) as Hwf1. split_and!.
    + by rewrite (satellites_allocates _ _ H2), (satellites_allocates _ _ H1).
    + intros x. by rewrite (nb_allocates _ _ _ Hwf1 H2), (nb_allocates _ _ _ Hwf H1).
    + intros x Hx. rewrite (obj_allocates _ _ _ H2), (obj_allocates _ _ _ H1); [done..|].
      by apply (dom_allocates _ _ H1).
  - right. exists l. split_and!; [done..|]. by rewrite connect_eq, Hvis, Hex.
Qed.

(** Members and neighbours stay. *)
Lemma exec_grows (Heven : libm_cos_even rt) (σ : State) (c : call) :
  wf_state σ →
  _satellites σ ⊆ _satellites (exec σ c) ∧ ∀ x, nb σ x ⊆ nb (exec σ c) x.
Proof.
  intros Hwf. destruct (exec_step σ c Hwf) as [(Hm & Hnb & _)|(l & -> & Hl & Hc)].
  - split; [by rewrite Hm|]. intros x. by rewrite Hnb.
  - destruct (connect_returns Hiter l σ _ Hwf Hl Hc) as (_ & _ & _ & _ & Hm & Hnb).
    split; [rewrite Hm; set_solver|]. intros x y Hy. apply Hnb.
    destruct (decide (x = l)) as [->|Hx]; [left|by right; left].
    split; [done|]. split; [by apply (wf_neighbours _ Hwf l y)|].
    destruct (wf_sight _ Hwf l y Hy) as [H|H]; [done|].
    by rewrite (lineofsight_sym rt _ _ Heven).
Qed.

Lemma run_grows (Heven : libm_cos_even rt) (script more : list call) :
  _satellites (run script) ⊆ _satellites (run (script ++ more)) ∧
  ∀ x, nb (run script) x ⊆ nb (run (script ++ more)) x.
Proof.
  induction more as [|c more [IH1 IH2]] using rev_ind; [by rewrite app_nil_r|].
  rewrite app_assoc, run_snoc.
  destruct (exec_grows Heven (run (script ++ more)) c (wf_run Hiter _)) as [H1 H2].
  split; [set_solver|]. intros x. specialize (IH2 x). specialize (H2 x). set_solver.
Qed.

(** Two members that see each other are neighbours. *)
Lemma complete_run (Heven : libm_cos_even rt) (script : list call) (x y : loc) :
  x ∈ _satellites (run script) → y ∈ _satellites (run script) → x ≠ y →
  Satellite.lineofsight (obj (run script) x) (obj (run script) y) = Ok true →
  y ∈ nb (run script) x.
Proof.
  revert x y. induction script as [|c script IH] using rev_ind; [by intros x y ?%elem_of_empty|].
  pose proof (wf_run Hiter script) as Hwf. rewrite run_snoc.
  destruct (exec_step (run script) c Hwf) as [(Hm & Hnb & Hobj)|(l & -> & Hl & Hc)].
  - intros x y Hx Hy Hxy. rewrite Hm in Hx, Hy. rewrite Hnb.
    rewrite !Hobj by by apply (wf_members _ Hwf). by apply IH.
  - destruct (connect_returns Hiter l _ _ Hwf Hl Hc) as (_ & _ & _ & Hgeo & Hm & Hnb).
    assert (Hin : ∀ z, z ∈ _satellites (run script) ∪ {[l]} → z ∈ dom (heap (run script))).
    { intros z [Hz| ->%elem_of_singleton]%elem_of_union; [by apply (wf_members _ Hwf)|done]. }
    intros x y Hx Hy Hxy Hlos. rewrite Hm in Hx, Hy.
    rewrite (lineofsight_ext _ (obj (run script) x) _ (obj (run script) y)) in Hlos
      by (apply Hgeo; by apply Hin).
    apply Hnb. destruct (decide (x = l)) as [->|Hxl].
    + left. split; [done|]. split; [set_solver|].
      by rewrite (lineofsight_sym rt _ _ Heven).
    + destruct (decide (y = l)) as [->|Hyl].
      * right; right. split; [|done]. split; [set_solver|done].
      * right; left. split; [done|]. apply IH; [set_solver..|done|done].
Qed.

(** Neighbours are members that see each other. *)
Lemma sound_run (Heven : libm_cos_even rt) (script : list call) (x y : loc) :
  y ∈ nb (run script) x →
  x ∈ _satellites (run script) ∧ y ∈ _satellites (run script) ∧
  Satellite.lineofsight (obj (run script) x) (obj (run script) y) = Ok true.
Proof.
  intros Hy. pose proof (wf_run Hiter script) as Hwf.
  destruct (wf_neighbours _ Hwf x y Hy) as [Hx Hy']. split_and!; [done..|].
  destruct (wf_sight _ Hwf x y Hy) as [H|H]; [|done].
  by rewrite (lineofsight_sym rt _ _ Heven).
Qed.

(** Instances stay where they are, with their geometry. *)
Lemma exec_geometry (σ : State) (c : call) (x : loc) :
  wf_state σ → x ∈ dom (heap σ) →
  x ∈ dom (heap (exec σ c)) ∧ same_geometry (obj (exec σ c) x) (obj σ x).
Proof.
  intros Hwf Hx.
  destruct (exec_cases Hiter σ c Hwf) as [(σ1 & H1 & H2)|(l & X & σ1 & -> & Hl & Hvis & Hex)].
  - pose proof (dom_allocates _ _ H1 x Hx) as Hx1. split; [by apply (dom_allocates _ _ H2)|].
    by rewrite (obj_allocates _ _ _ H2), (obj_allocates _ _ _ H1).
  - assert (Hc : Network.connect l σ = (Ok tt, exec σ (Connect l)))
      by by rewrite connect_eq, Hvis, Hex.
    destruct (connect_returns Hiter l σ _ Hwf Hl Hc) as (_ & Hdom & _ & Hgeo & _).
    split; [by apply Hdom|by apply Hgeo].
Qed.

Lemma run_geometry (script more : list call) (x : loc) :
  x ∈ dom (heap (run script)) →
  x ∈ dom (heap (run (script ++ more))) ∧
  same_geometry (obj (run (script ++ more)) x) (obj (run script) x).
Proof.
  intros Hx. induction more as [|c more [IH1 [IH2 IH3]]] using rev_ind.
  { by rewrite app_nil_r. }
  rewrite app_assoc, run_snoc.
  destruct (exec_geometry (run (script ++ more)) c x (wf_run Hiter _) IH1) as [H1 [H2 H3]].
  split; [done|]. split; congruence.
Qed.

(** A path stays a path when the script goes on. *)
Lemma connects_grows (Heven : libm_cos_even rt) (script more : list call)
    (start finish : coord) (p : list loc) :
  connects (run script) start finish p → connects (run (script ++ more)) start finish p.
Proof.
  destruct (run_grows Heven script more) as [Hm Hnb].
  assert (Hsees : ∀ c s, sees (run script) c s → sees (run (script ++ more)) c s).
  { intros c s [Hs (g & Hg & Hlos)]. split; [by apply Hm|]. exists g. split; [done|].
    rewrite <- Hlos. apply lineofsight_ext; [|done].
    by apply run_geometry, (wf_members _ (wf_run Hiter script)). }
  intros (Hp & (s & Hs & Hss) & (f & Hf & Hsf)). split_and!.
  - intros i x y Hx Hy. by apply Hnb, (Hp i).
  - exists s. split; [done|]. by apply Hsees.
  - exists f. split; [done|]. by apply Hsees.
Qed.

End ScriptFacts.

(** ** The script *)

Section ScriptReading.
Context {rt : Runtime} {bt : Builtins}.

Lemma visible_satellites_at_floats (c : raw_coord) (σ : State) :
  Script.visible_satellites_at c σ =
  match Script.floats c with
  | Ok c' => Network.visible_satellites_at c' σ
  | Raise e => (Raise e, σ)
  end.
Proof.
  unfold Script.visible_satellites_at, mbind, M_bind, lift.
  by destruct (Script.floats c).
Qed.

(** On floats [route] is the method of [Network]. *)
Lemma route_floats (start finish : raw_coord) (s f : coord) (σ : State) :
  Script.floats start = Ok s → Script.floats finish = Ok f →
  Script.route start finish σ = Network.route s f σ.
Proof.
  intros Hs Hf. unfold Script.route, Network.route.
  rewrite visible_satellites_at_floats, Hs.
  destruct (Network.visible_satellites_at s σ) as [[S|e] σ1]; [|done].
  case_decide; [done|]. by rewrite visible_satellites_at_floats, Hf.
Qed.

Lemma route_not_floats (start finish : raw_coord) (σ : State) (e : exception) :
  Script.floats start = Raise e → Script.route start finish σ = Some (Raise e, σ).
Proof.
  intros Hs. unfold Script.route. by rewrite visible_satellites_at_floats, Hs.
Qed.




Lemma read_line_SAT (line : string) (σ : State) (q : request) :
  Script.startswith line "SAT" = true →
  Script.read_line line (σ, q) =
  ((Script.sat_line line σ).1, ((Script.sat_line line σ).2, q)).
Proof.
  intros H. unfold Script.read_line. rewrite H.
  assert (Script.startswith line "#" = false) as ->.
  { unfold Script.startswith in *. destruct line as [|a line]; [done|].
    cbn -[ascii_dec] in *. by destruct (ascii_dec "S" a) as [<-|]. }
  assert (Script.startswith line "ROUTE" = false) as ->.
  { unfold Script.startswith in *. destruct line as [|a line]; [done|].
    cbn -[ascii_dec] in *. by destruct (ascii_dec "S" a) as [<-|]. }
  by destruct (Script.sat_line line σ) as [[[]|e] σ'].
Qed.

Lemma read_app (l1 l2 : list string) (v : State * request) :
  Script.read (l1 ++ l2) v =
  match Script.read l1 v with
  | (Ok _, v') => Script.read l2 v'
  | (Raise e, v') => (Raise e, v')
  end.
Proof.
  revert v. induction l1 as [|line l1 IH]; intros v; cbn [Script.read app].
  { by destruct (Script.read l2 v) as [[[]|e] v']. }
  destruct (Script.read_line line v) as [[[]|e] v']; [apply IH|done].
Qed.

(** A line reads and writes the network whatever [start] and [finish] are,
    and either assigns them or leaves them. *)
Lemma read_line_request (line : string) (σ : State) :
  ∃ r σ' o, ∀ q, Script.read_line line (σ, q) =
    (r, (σ', match o with Some q' => Some q' | None => q end)).
Proof.
  unfold Script.read_line. destruct (Script.startswith line "#").
  { by exists (Ok tt), σ, None. }
  destruct (if Script.startswith line "SAT" then _ else _) as [[[]|e] σ'].
  - destruct (Script.startswith line "ROUTE").
    + destruct (Script.route_line line) as [q'|e].
      * by exists (Ok tt), σ', (Some q').
      * by exists (Raise e), σ', None.
    + by exists (Ok tt), σ', None.
  - by exists (Raise e), σ', None.
Qed.

Lemma read_request (lines : list string) (σ : State) :
  ∃ r σ' o, ∀ q, Script.read lines (σ, q) =
    (r, (σ', match o with Some q' => Some q' | None => q end)).
Proof.
  revert σ. induction lines as [|line lines IH]; intros σ.
  { by exists (Ok tt), σ, None. }
  destruct (read_line_request line σ) as (r1 & σ1 & o1 & H1).
  destruct (IH σ1) as (r2 & σ2 & o2 & H2).
  destruct r1 as [[]|e].
  - exists r2, σ2, (match o2 with Some q' => Some q' | None => o1 end).
    intros q. cbn [Script.read]. rewrite H1, H2. by destruct o2, o1.
  - exists (Raise e), σ1, o1. intros q. cbn [Script.read]. by rewrite H1.
Qed.

(** Lines that assign nothing leave [start] and [finish]. *)
Lemma read_no_ROUTE (lines : list string) (σ : State) (q : request) :
  (∀ line, line ∈ lines → Script.startswith line "ROUTE" = false) →
  (Script.read lines (σ, q)).2.2 = q.
Proof.
  revert σ. induction lines as [|line lines IH]; intros σ Hno; [done|]. cbn [Script.read].
  assert (Hline : ∃ r σ', Script.read_line line (σ, q) = (r, (σ', q))).
  { unfold Script.read_line. rewrite (Hno line) by (apply elem_of_cons; by left).
    destruct (Script.startswith line "#"); [by eauto|].
    destruct (if Script.startswith line "SAT" then _ else _) as [[[]|e] σ']; by eauto. }
  destruct Hline as (r & σ' & ->). destruct r as [[]|e]; [|done].
  apply IH. intros l Hl. apply Hno, elem_of_cons. by right.
Qed.

End ScriptReading.

Section ScriptNetwork.
Context {rt : Runtime} {bt : Builtins} (Hiter : set_iter_ok rt).

Lemma sat_line_eq (line : string) (σ : State) :
  Script.sat_line line σ =
  match Script.split "," line with
  | [ID; lat; lon; alt] =>
      match Script.floats (RawCoordinates (Str lat) (Str lon) (Str alt)) with
      | Ok c =>
          match Satellite.geometry c with
          | Ok g => Network.connect (fresh (dom (heap σ))) (alloc (instance ID c g) σ)
          | Raise e => (Raise e, σ)
          end
      | Raise e => (Raise e, σ)
      end
  | _ => (Raise ValueError, σ)
  end.
Proof.
  unfold Script.sat_line.
  destruct (Script.split "," line) as [|ID [|lat [|lon [|alt [|? ?]]]]]; try done.
  unfold Script.Satellite_, mbind, M_bind, lift.
  destruct (Script.floats _) as [c|e]; [|done].
  rewrite __init___eq. by destruct (Satellite.geometry c).
Qed.

Lemma id_visible_satellites_at (c : coord) (σ : State) (x : loc) :
  x ∈ dom (heap σ) → obj (Network.visible_satellites_at c σ).2 x = obj σ x.
Proof.
  intros Hx. destruct (visible_satellites_at_state c σ) as [->|(g & _ & ->)]; [done|].
  by apply obj_alloc_old.
Qed.

Lemma id_connect (l : loc) (σ : State) (x : loc) :
  x ∈ dom (heap σ) → _id (obj (Network.connect l σ).2 x) = _id (obj σ x).
Proof.
  intros Hx. rewrite connect_eq.
  pose proof (id_visible_satellites_at (_coordinates (obj σ l)) σ x Hx) as H.
  destruct (Network.visible_satellites_at _ σ) as [[X|e] σ1]; simpl in *; [|by rewrite H].
  by rewrite (obj_connect_state Hiter), <- H.
Qed.

Lemma satellites_connect (l : loc) (σ : State) :
  _satellites (Network.connect l σ).2 ⊆ _satellites σ ∪ {[l]}.
Proof.
  clear Hiter. rewrite connect_eq.
  pose proof (unchanged_visible (_coordinates (obj σ l)) σ) as [H _].
  destruct (Network.visible_satellites_at _ σ) as [[X|e] σ1]; simpl in *.
  - rewrite satellites_connect_state, H. set_solver.
  - rewrite H. set_solver.
Qed.

(** A line that starts with [SAT] is a call of [Satellite] and a call of
    [connect], or nothing. *)
Lemma sat_line_run (line : string) (script : list call) :
  ∃ script', (Script.sat_line line (run script)).2 = run script' ∧
    ∀ ids : list string, (∀ m, m ∈ _satellites (run script) → _id (obj (run script) m) ∈ ids) →
           (∀ ID, head (Script.split "," line) = Some ID → ID ∈ ids) →
           ∀ m, m ∈ _satellites (run script') → _id (obj (run script') m) ∈ ids.
Proof.
  rewrite sat_line_eq.
  destruct (Script.split "," line) as [|ID [|lat [|lon [|alt [|? ?]]]]];
    try (exists script; by split).
  destruct (Script.floats _) as [c|e]; [|exists script; by split].
  destruct (Satellite.geometry c) as [g|e] eqn:Hg; [|exists script; by split].
  set (l := fresh (dom (heap (run script)))).
  assert (Hl : l ∈ dom (heap (alloc (instance ID c g) (run script)))).
  { rewrite dom_alloc. set_solver. }
  assert (H1 : run (script ++ [NewSatellite ID c]) = alloc (instance ID c g) (run script)).
  { rewrite run_snoc. simpl. by rewrite __init___eq, Hg. }
  exists ((script ++ [NewSatellite ID c]) ++ [Connect l]). split.
  { rewrite run_snoc, H1. cbn [exec]. by rewrite decide_True. }
  intros ids Hids HID m. rewrite run_snoc, H1. cbn [exec].
  rewrite decide_True by done. intros Hm.
  apply satellites_connect in Hm. simpl in Hm.
  destruct (decide (m = l)) as [->|Hml].
  - rewrite id_connect by done. rewrite obj_alloc, decide_True by done. simpl. by apply HID.
  - assert (Hm' : m ∈ _satellites (run script)) by set_solver.
    pose proof (wf_members _ (wf_run Hiter script) m Hm') as Hdom.
    rewrite id_connect by (rewrite dom_alloc; set_solver).
    rewrite obj_alloc_old by done. by apply Hids.
Qed.

Lemma read_line_run (line : string) (script : list call) (q : request) :
  ∃ script', (Script.read_line line (run script, q)).2.1 = run script' ∧
    ∀ ids : list string, (∀ m, m ∈ _satellites (run script) → _id (obj (run script) m) ∈ ids) →
           (∀ ID, Script.startswith line "SAT" = true →
                  head (Script.split "," line) = Some ID → ID ∈ ids) →
           ∀ m, m ∈ _satellites (run script') → _id (obj (run script') m) ∈ ids.
Proof.
  unfold Script.read_line. destruct (Script.startswith line "#"); [exists script; by split|].
  destruct (Script.startswith line "SAT") eqn:HSAT.
  - destruct (sat_line_run line script) as (script' & Hrun & Hids).
    exists script'. split.
    + destruct (Script.sat_line line (run script)) as [[[]|e] σ']; simpl in *; [|done].
      destruct (Script.startswith line "ROUTE"); [|done].
      by destruct (Script.route_line line).
    + intros ids H1 H2. apply Hids; [done|]. intros ID. by apply H2.
  - exists script. split; [|done].
    destruct (Script.startswith line "ROUTE"); [|done].
    by destruct (Script.route_line line).
Qed.

Lemma names_cons (line : string) (lines : list string) :
  Script.names (line :: lines) =
  match (if Script.startswith line "SAT" then head (Script.split "," line) else None) with
  | Some ID => ID :: Script.names lines
  | None => Script.names lines
  end.
Proof. done. Qed.

Lemma names_app (l1 l2 : list string) :
  Script.names (l1 ++ l2) = Script.names l1 ++ Script.names l2.
Proof. apply omap_app. Qed.

(** The network that the lines build is the network of a script, and its
    members have the names of the lines. *)
Lemma read_run (lines : list string) (q : request) :
  ∃ script, (Script.read lines (initial, q)).2.1 = run script ∧
    ∀ m, m ∈ _satellites (run script) → _id (obj (run script) m) ∈ Script.names lines.
Proof.
  revert q. induction lines as [|line lines IH] using rev_ind; intros q.
  { exists []. split; [done|]. by intros m ?%elem_of_empty. }
  rewrite read_app. destruct (IH q) as (script & Hrun & Hids).
  destruct (Script.read lines (initial, q)) as [[[]|e] [σ q1]]; simpl in Hrun; subst σ.
  - cbn [Script.read].
    destruct (read_line_run line script q1) as (script' & Hrun' & Hids').
    exists script'. split.
    + by destruct (Script.read_line line (run script, q1)) as [[[]|e] [σ' q']].
    + apply Hids'.
      * intros m Hm. rewrite names_app. apply elem_of_app. left. by apply Hids.
      * intros ID HSAT HID. rewrite names_app. apply elem_of_app. right.
        rewrite names_cons, HSAT, HID. apply elem_of_cons. by left.
  - exists script. split; [done|]. intros m Hm. rewrite names_app. apply elem_of_app.
    left. by apply Hids.
Qed.

End ScriptNetwork.

Section MoreFacts.
Context {rt : Runtime} {bt : Builtins} (Hiter : set_iter_ok rt).

Lemma set_iter_empty : set_iter (∅ : gset loc) = [].
Proof. apply Permutation_nil_r. rewrite (Hiter ∅). by rewrite elements_empty. Qed.

Lemma NoDup_set_iter (X : gset loc) : NoDup (set_iter X).
Proof. rewrite (Hiter X). apply NoDup_elements. Qed.

(** Members were connected, and are allocated. *)
Lemma members_connected (script : list call) (x : loc) :
  x ∈ _satellites (run script) → x ∈ connected script.
Proof.
  revert x. induction script as [|c script IH] using rev_ind; [by intros x ?%elem_of_empty|].
  intros x. rewrite run_snoc. unfold connected. rewrite omap_app. fold (connected script).
  destruct (exec_step Hiter (run script) c (wf_run Hiter script))
    as [(Hm & _ & _)|(l & -> & Hl & Hc)].
  - rewrite Hm. intros Hx. apply elem_of_app. left. by apply IH.
  - intros Hx.
    replace (exec (run script) (Connect l)) with (Network.connect l (run script)).2 in Hx
      by by rewrite Hc.
    apply satellites_connect in Hx. apply elem_of_app.
    apply elem_of_union in Hx as [Hx| ->%elem_of_singleton]; [left; by apply IH|right].
    simpl. apply elem_of_cons. by left.
Qed.

(** A path that [route] returns visits no satellite twice. *)
Lemma route_NoDup (start finish : coord) (σ : State) (path : list loc) :
  wf_state σ → fst <$> Network.route start finish σ = Some (Ok path) → NoDup path.
Proof.
  intros Hwf Hr. destruct (route_Ok Hiter start finish σ path Hwf Hr) as (_ & Hc & Hmin).
  destruct (decide (NoDup path)) as [|Hnd]; [done|].
  apply not_NoDup_split in Hnd as (a & x & b & c & ->).
  apply connects_shortcut in Hc. apply Hmin in Hc.
  rewrite !length_app in Hc. simpl in Hc. rewrite length_app in Hc. simpl in Hc. lia.
Qed.

(** Both directions of a route. *)
Lemma route_reverse (Heven : libm_cos_even rt) (start finish : coord)
    (script : list call) (path : list loc) :
  fst <$> Network.route start finish (run script) = Some (Ok path) →
  ∃ path', fst <$> Network.route finish start (run script) = Some (Ok path') ∧
           length path' ≤ length path.
Proof.
  intros Hr. pose proof (wf_run Hiter script) as Hwf.
  destruct (route_Ok Hiter _ _ _ _ Hwf Hr) as ((S & F & σ1 & HS & HF) & Hc & _).
  pose proof (allocates_visible start (run script)) as Ha. rewrite HS in Ha. simpl in Ha.
  rewrite (visible_satellites_at_allocates Hiter finish (run script) σ1 Hwf Ha) in HF.
  destruct (route_returns Hiter finish start (run script) (reverse path) F S)
    as (path' & Hr' & Hlen); [done..|by rewrite HS| |].
  - apply connects_reverse; [|done]. by apply symmetric_run.
  - exists path'. split; [done|]. by rewrite length_reverse in Hlen.
Qed.

Lemma floats_raises (c : raw_coord) (e : exception) :
  Script.floats c = Raise e → e = ValueError.
Proof.
  unfold Script.floats, Script.float_. destruct c as [[la|] [lo|] [al|]]; simpl;
    repeat (match goal with |- context [float_of_str ?s] => destruct (float_of_str s) end;
            simpl); congruence.
Qed.

(** Lines without [ROUTE] read and write the network only. *)
Lemma read_frame (lines : list string) (σ : State) :
  (∀ line, line ∈ lines → Script.startswith line "ROUTE" = false) →
  ∃ r σ', ∀ q, Script.read lines (σ, q) = (r, (σ', q)).
Proof.
  intros Hno. destruct (read_request lines σ) as (r & σ' & o & H).
  exists r, σ'. intros q. rewrite H. f_equal. f_equal.
  pose proof (read_no_ROUTE lines σ None Hno) as Hq. rewrite H in Hq. simpl in Hq.
  by destruct o.
Qed.

(** What [main] does after the lines are read. *)
Lemma main_eq (lines : list string) :
  Script.main lines =
  match Script.read lines (initial, None) with
  | (Raise e, _) => Some (Traceback e)
  | (Ok _, (σ, None)) => Some (NameError "start")
  | (Ok _, (σ, Some (start, finish))) =>
      r ← Script.route start finish σ;
      Some match r.1 with
           | Ok path => Printed (Script.print_path r.2 path)
           | Raise (RouteNotFound reason) => Exited reason 1
           | Raise e => Traceback e
           end
  end.
Proof. done. Qed.

(** [route] on the coordinates of a line always ends. *)
Lemma script_route_spec (start finish : raw_coord) (script : list call) :
  ∃ r σ', Script.route start finish (run script) = Some (r, σ') ∧
    match r with
    | Ok path =>
        ∃ s f, Script.floats start = Ok s ∧ Script.floats finish = Ok f ∧
               Network.route s f (run script) = Some (Ok path, σ')
    | Raise e =>
        e = ValueError ∨ e = ZeroDivisionError ∨
        e = RouteNotFound Network.no_start ∨ e = RouteNotFound Network.no_finish ∨
        e = RouteNotFound Network.no_route
    end.
Proof.
  pose proof (wf_run Hiter script) as Hwf.
  assert (Hraise : ∀ c σ e, wf_state σ → (Network.visible_satellites_at c σ).1 = Raise e →
                            e = ValueError ∨ e = ZeroDivisionError).
  { intros c σ e Hσ H.
    apply (visible_satellites_at_raises Hiter c σ e Hσ) in H as [H|(g & s & _ & _ & H)].
    - rewrite geometry_eq in H. cbv zeta in H.
      destruct (_ =? 0)%float; [right; congruence|].
      destruct (_ <? 0)%float; [left; congruence|done].
    - left. by apply lineofsight_raises in H. }
  destruct (Script.floats start) as [s|e] eqn:Hs.
  2:{ exists (Raise e), (run script). rewrite (route_not_floats _ _ _ e Hs).
      split; [done|]. left. by apply floats_raises in Hs. }
  destruct (Script.floats finish) as [f|e] eqn:Hf.
  - rewrite (route_floats _ _ s f) by done.
    destruct (route_spec Hiter s f (run script) Hwf) as (r & σ' & Hroute & Hout).
    exists r, σ'. split; [done|]. destruct r as [path|e]; [by exists s, f|].
    pose proof (allocates_visible s (run script)) as Ha.
    pose proof (Hraise s (run script)) as H1.
    destruct (Network.visible_satellites_at s (run script)) as [[S|e1] σ1];
      [|injection Hout as ->; destruct (H1 e1) as [?|?]; by eauto].
    simpl in Ha. pose proof (wf_allocates _ _ Hwf Ha) as Hwf1.
    case_decide; [injection Hout as ->; by eauto|].
    pose proof (Hraise f σ1) as H2.
    destruct (Network.visible_satellites_at f σ1) as [[F|e2] σ2];
      [|injection Hout as ->; destruct (H2 e2) as [?|?]; by eauto].
    case_decide; [injection Hout as ->; by eauto 6|].
    destruct Hout as [[[= ->] _]|(p & ? & _)]; [by eauto 6|done].
  - unfold Script.route. rewrite !visible_satellites_at_floats, Hs.
    pose proof (Hraise s (run script)) as H1.
    destruct (Network.visible_satellites_at s (run script)) as [[S|e1] σ1].
    + case_decide.
      { exists (Raise (RouteNotFound Network.no_start)), σ1. split; [done|]. by eauto. }
      rewrite visible_satellites_at_floats, Hf.
      exists (Raise e), σ1. split; [done|]. left. by apply floats_raises in Hf.
    + exists (Raise e1), σ1. split; [done|]. destruct (H1 e1) as [?|?]; by eauto.
Qed.

End MoreFacts.

Section ScriptErrors.
Context {rt : Runtime} {bt : Builtins} (Hiter : set_iter_ok rt).


Lemma route_line_raises (line : string) (e : exception) :
  Script.route_line line = Raise e → e = ValueError.
Proof.
  unfold Script.route_line.
  destruct (Script.split "," line) as [|a [|b [|c [|d [|? [|? ?]]]]]]; congruence.
Qed.

Lemma geometry_raises (c : coord) (e : exception) :
  Satellite.geometry c = Raise e → e = ValueError ∨ e = ZeroDivisionError.
Proof.
  rewrite geometry_eq. cbv zeta.
  destruct (_ =? 0)%float; [right; congruence|].
  destruct (_ <? 0)%float; [left; congruence|done].
Qed.

Lemma sat_line_raises (line : string) (script : list call) (e : exception) :
  (Script.sat_line line (run script)).1 = Raise e → e = ValueError ∨ e = ZeroDivisionError.
Proof.
  rewrite sat_line_eq.
  destruct (Script.split "," line) as [|ID [|lat [|lon [|alt [|? ?]]]]];
    try (simpl; intros [= <-]; by left).
  destruct (Script.floats _) as [c|e'] eqn:Hc.
  2:{ simpl. intros [= <-]. left. by apply floats_raises in Hc. }
  destruct (Satellite.geometry c) as [g|e'] eqn:Hg.
  2:{ simpl. intros [= <-]. by apply geometry_raises in Hg. }
  intros H. left.
  assert (H1 : run (script ++ [NewSatellite ID c]) = alloc (instance ID c g) (run script)).
  { rewrite run_snoc. simpl. by rewrite __init___eq, Hg. }
  rewrite <- H1 in H.
  destruct (Network.connect _ _) as [r σ'] eqn:Hconn. simpl in H. subst r.
  apply (connect_raises Hiter) in Hconn as [-> _]; [done|apply (wf_run Hiter)|].
  rewrite H1, dom_alloc. set_solver.
Qed.

Lemma read_line_raises (line : string) (script : list call) (q : request) (e : exception) :
  (Script.read_line line (run script, q)).1 = Raise e →
  e = ValueError ∨ e = ZeroDivisionError.
Proof.
  unfold Script.read_line. destruct (Script.startswith line "#"); [done|].
  destruct (Script.startswith line "SAT").
  - pose proof (sat_line_raises line script) as H.
    destruct (Script.sat_line line (run script)) as [[[]|e'] σ']; simpl in *.
    + destruct (Script.startswith line "ROUTE"); [|done].
      destruct (Script.route_line line) as [q'|e'] eqn:Hq; [done|].
      simpl. intros [= <-]. left. by apply route_line_raises in Hq.
    + intros [= <-]. by apply H.
  - destruct (Script.startswith line "ROUTE"); [|done].
    destruct (Script.route_line line) as [q'|e'] eqn:Hq; [done|].
    simpl. intros [= <-]. left. by apply route_line_raises in Hq.
Qed.

Lemma read_raises (lines : list string) (q : request) (e : exception) :
  (Script.read lines (initial, q)).1 = Raise e → e = ValueError ∨ e = ZeroDivisionError.
Proof.
  induction lines as [|line lines IH] using rev_ind; [done|].
  rewrite read_app. destruct (read_run Hiter lines q) as (script & Hrun & _).
  destruct (Script.read lines (initial, q)) as [[[]|e'] [σ q1]]; cbn [fst snd] in *; [|done].
  subst σ. cbn [Script.read].
  pose proof (read_line_raises line script q1 e) as H.
  destruct (Script.read_line line (run script, q1)) as [[[]|e'] v']; cbn [fst] in *; [done|exact H].
Qed.

(** The network and the exceptions of the reading loop. *)
Lemma read_network (lines : list string) (q q' : request) (r : result unit) (σ : State) :
  Script.read lines (initial, q) = (r, (σ, q')) →
  ∃ script, σ = run script ∧
    (∀ m, m ∈ _satellites σ → _id (obj σ m) ∈ Script.names lines) ∧
    ∀ e, r = Raise e → e = ValueError ∨ e = ZeroDivisionError.
Proof.
  intros Hread. destruct (read_run Hiter lines q) as (script & Hrun & Hids).
  pose proof (read_raises lines q) as Hraise.
  rewrite Hread in Hrun, Hraise. simpl in *. subst σ.
  exists script. split_and!; [done..|]. intros e ->. by apply Hraise.
Qed.

End ScriptErrors.

(** ** Properties of the network *)

(** X1.  A [connect] that returns on a network built by a script makes the
    satellite a member, makes the members in its line of sight its
    neighbours, adds it to the neighbours of each of them, and leaves every
    other neighbour set as it was. *)
Theorem connect_links_visible (rt : Runtime) :
  set_iter_ok rt →
  ∀ (script : list call) (l : loc),
    l ∈ dom (heap (run script)) →
    (Network.connect l (run script)).1 = Ok tt →
    let σ := run script in
    let σ' := (Network.connect l (run script)).2 in
    let visible s :=
      s ∈ _satellites σ ∧ Satellite.lineofsight (obj σ s) (obj σ l) = Ok true in
    _satellites σ' = _satellites σ ∪ {[l]} ∧
    ∀ x y, y ∈ _neighbours (obj σ' x) ↔
      (x = l ∧ visible y) ∨ (x ≠ l ∧ y ∈ _neighbours (obj σ x)) ∨ (visible x ∧ y = l).
Proof.
  intros Hiter script l Hl Hr σ σ' visible.
  assert (Hc : Network.connect l σ = (Ok tt, σ')).
  { subst σ σ'. by destruct (Network.connect l (run script)) as [[[]|e] σ1]. }
  destruct (connect_returns Hiter l σ σ' (wf_run Hiter script) Hl Hc)
    as (_ & _ & _ & _ & Hm & Hnb).
  split; [done|]. apply Hnb.
Qed.

Lemma connect_links_visible_witness :
  _satellites (Network.connect (rt:=table_rt) 3%positive (run (rt:=table_rt) equator_two)).2
    = _satellites (run (rt:=table_rt) equator_two) ∪ {[3%positive]}.
Proof.
  apply (connect_links_visible table_rt table_rt_iter_ok equator_two 3%positive).
  - vm_compute. reflexivity.
  - vm_compute. reflexivity.
Defined.

(** X2.  A [connect] that raises on a network built by a script raises
    [ValueError] (from [math.sin] or [math.cos]) and leaves the network as it
    was: the satellite is no member, and no neighbour set has changed. *)
Theorem connect_raises_ValueError (rt : Runtime) :
  set_iter_ok rt →
  ∀ (script : list call) (l : loc) (e : exception),
    l ∈ dom (heap (run script)) →
    (Network.connect l (run script)).1 = Raise e →
    e = ValueError ∧ unchanged (run script) (Network.connect l (run script)).2.
Proof.
  intros Hiter script l e Hl Hr.
  apply (connect_raises Hiter l (run script)); [apply (wf_run Hiter)|done|].
  by destruct (Network.connect l (run script)) as [[[]|e'] σ1]; simplify_eq/=.
Qed.

Lemma connect_raises_ValueError_witness :
  ValueError = ValueError ∧
  unchanged (run (rt:=table_rt) off_table)
    (Network.connect (rt:=table_rt) 3%positive (run (rt:=table_rt) off_table)).2.
Proof.
  apply (connect_raises_ValueError table_rt table_rt_iter_ok off_table 3%positive).
  - vm_compute. reflexivity.
  - vm_compute. reflexivity.
Defined.

(** X3.  The set that [visible_satellites_at] returns on a network built by a
    script holds the members whose [lineofsight] to the probe is [True], and
    nothing else, whatever the order in which the members are tested. *)
Theorem visible_satellites_at_members (rt : Runtime) :
  set_iter_ok rt →
  ∀ (script : list call) (c : coord) (X : gset loc),
    (Network.visible_satellites_at c (run script)).1 = Ok X →
    ∀ s, s ∈ X ↔
      s ∈ _satellites (run script) ∧
      ∃ g, Satellite.geometry c = Ok g ∧
           Satellite.lineofsight (obj (run script) s) (instance "T" c g) = Ok true.
Proof.
  intros Hiter script c X Hr.
  destruct (Network.visible_satellites_at c (run script)) as [r σ1] eqn:Hv.
  simpl in Hr. subst r.
  apply (visible_satellites_at_sees Hiter _ _ _ _ (wf_run Hiter script) Hv).
Qed.

Lemma visible_satellites_at_members_witness :
  5%positive ∈ ({[5%positive]} : gset loc) ↔
  5%positive ∈ _satellites (run (rt:=table_rt) equator) ∧
  ∃ g, Satellite.geometry (Coordinates 0 100 0) = Ok g ∧
       Satellite.lineofsight (rt:=table_rt) (obj (run (rt:=table_rt) equator) 5%positive)
         (instance "T" (Coordinates 0 100 0) g) = Ok true.
Proof.
  apply (visible_satellites_at_members table_rt table_rt_iter_ok equator
           (Coordinates 0 100 0) {[5%positive]}).
  vm_compute. reflexivity.
Defined.

(** X4.  On a network built by a script [visible_satellites_at] raises
    exactly when the probe cannot be constructed or the [lineofsight] of some
    member to the probe raises, and it raises that exception. *)
Theorem visible_satellites_at_errors (rt : Runtime) :
  set_iter_ok rt →
  ∀ (script : list call) (c : coord) (e : exception),
    (Network.visible_satellites_at c (run script)).1 = Raise e ↔
    Satellite.geometry c = Raise e ∨
    ∃ g s, Satellite.geometry c = Ok g ∧ s ∈ _satellites (run script) ∧
           Satellite.lineofsight (obj (run script) s) (instance "T" c g) = Raise e.
Proof.
  intros Hiter script c e. apply (visible_satellites_at_raises Hiter), (wf_run Hiter).
Qed.

Lemma visible_satellites_at_errors_witness :
  (Network.visible_satellites_at (rt:=table_rt) (Coordinates 0 33 1000)
     (run (rt:=table_rt) off_table)).1 = Raise ValueError ↔
  Satellite.geometry (Coordinates 0 33 1000) = Raise ValueError ∨
  ∃ g s, Satellite.geometry (Coordinates 0 33 1000) = Ok g ∧
         s ∈ _satellites (run (rt:=table_rt) off_table) ∧
         Satellite.lineofsight (rt:=table_rt) (obj (run (rt:=table_rt) off_table) s)
           (instance "T" (Coordinates 0 33 1000) g) = Raise ValueError.
Proof. apply (visible_satellites_at_errors table_rt table_rt_iter_ok off_table). Defined.

(** X5.  No call removes a member or a neighbour: the members and the
    neighbours of every satellite after a script are still there after any
    further calls. *)
Theorem members_and_neighbours_stay (rt : Runtime) :
  set_iter_ok rt → libm_cos_even rt →
  ∀ script more : list call,
    _satellites (run script) ⊆ _satellites (run (script ++ more)) ∧
    ∀ x, _neighbours (obj (run script) x) ⊆ _neighbours (obj (run (script ++ more)) x).
Proof. intros Hiter Heven script more. apply (run_grows Hiter Heven). Qed.

Lemma members_and_neighbours_stay_witness :
  _satellites (run (rt:=table_rt) equator_two)
    ⊆ _satellites (run (rt:=table_rt) (equator_two ++ [Connect 3%positive])) ∧
  ∀ x, _neighbours (obj (run (rt:=table_rt) equator_two) x)
         ⊆ _neighbours (obj (run (rt:=table_rt) (equator_two ++ [Connect 3%positive])) x).
Proof.
  apply (members_and_neighbours_stay table_rt table_rt_iter_ok table_cos_even equator_two).
Defined.

(** X6.  After any script the neighbour graph is the line-of-sight graph of
    the members: neighbours are members whose [lineofsight] is [True], and two
    different members whose [lineofsight] is [True] are neighbours. *)
Theorem neighbours_are_line_of_sight (rt : Runtime) :
  set_iter_ok rt → libm_cos_even rt →
  ∀ (script : list call) (A B : loc),
    let σ := run script in
    (B ∈ _neighbours (obj σ A) →
     A ∈ _satellites σ ∧ B ∈ _satellites σ ∧
     Satellite.lineofsight (obj σ A) (obj σ B) = Ok true) ∧
    (A ∈ _satellites σ → B ∈ _satellites σ → A ≠ B →
     Satellite.lineofsight (obj σ A) (obj σ B) = Ok true →
     B ∈ _neighbours (obj σ A)).
Proof.
  intros Hiter Heven script A B σ. split.
  - apply (sound_run Hiter Heven).
  - apply (complete_run Hiter Heven).
Qed.

Lemma neighbours_are_line_of_sight_witness :
  (5%positive ∈ _neighbours (obj (run (rt:=table_rt) equator) 3%positive) →
   3%positive ∈ _satellites (run (rt:=table_rt) equator) ∧
   5%positive ∈ _satellites (run (rt:=table_rt) equator) ∧
   Satellite.lineofsight (rt:=table_rt) (obj (run (rt:=table_rt) equator) 3%positive)
     (obj (run (rt:=table_rt) equator) 5%positive) = Ok true) ∧
  (3%positive ∈ _satellites (run (rt:=table_rt) equator) →
   5%positive ∈ _satellites (run (rt:=table_rt) equator) → 3%positive ≠ 5%positive →
   Satellite.lineofsight (rt:=table_rt) (obj (run (rt:=table_rt) equator) 3%positive)
     (obj (run (rt:=table_rt) equator) 5%positive) = Ok true →
   5%positive ∈ _neighbours (obj (run (rt:=table_rt) equator) 3%positive)).
Proof.
  apply (neighbours_are_line_of_sight table_rt table_rt_iter_ok table_cos_even equator).
Defined.

(** X7.  A new instance has the name and the coordinates it was given and no
    neighbours; on a network built by a script it is no member and nobody's
    neighbour, and the network is as it was. *)
Theorem new_satellite_is_isolated (rt : Runtime) :
  set_iter_ok rt →
  ∀ (script : list call) (id : string) (c : coord) (l : loc),
    (Satellite.__init__ id c (run script)).1 = Ok l →
    let σ' := (Satellite.__init__ id c (run script)).2 in
    Satellite.__str__ (obj σ' l) = id ∧ _coordinates (obj σ' l) = c ∧
    _neighbours (obj σ' l) = ∅ ∧
    (l ∉ _satellites σ') ∧ (∀ x, l ∉ _neighbours (obj σ' x)) ∧
    unchanged (run script) σ'.
Proof.
  intros Hiter script id c l Hr σ'. subst σ'. pose proof (wf_run Hiter script) as Hwf.
  rewrite __init___eq in *. destruct (Satellite.geometry c) as [g|e] eqn:Hg; [|done].
  simpl in *. injection Hr as <-.
  assert (Hl : fresh (dom (heap (run script))) ∉ _satellites (run script)).
  { intros H%(wf_members _ Hwf). by apply is_fresh in H. }
  rewrite obj_alloc, decide_True by done. split_and!; [done..| |by apply unchanged_alloc].
  intros x Hx. fold (nb (alloc (instance id c g) (run script)) x) in Hx.
  rewrite nb_alloc in Hx by done. by apply (wf_neighbours _ Hwf) in Hx as [_ Hx].
Qed.

Lemma new_satellite_is_isolated_witness :
  Satellite.__str__ (obj (Satellite.__init__ "S3" (Coordinates 0 80 1000)
                            (run (rt:=table_rt) equator_two)).2 4%positive) = "S3".
Proof.
  apply (new_satellite_is_isolated table_rt table_rt_iter_ok equator_two
           "S3" (Coordinates 0 80 1000) 4%positive).
  vm_compute. reflexivity.
Defined.

(** X8.  Iterating over a network built by a script yields its members, each
    once; all of them were passed to [connect]. *)
Theorem iter_yields_members (rt : Runtime) :
  set_iter_ok rt →
  ∀ script : list call,
    ∃ l, __iter__ (run script) = (Ok l, run script) ∧ NoDup l ∧
         (∀ x, x ∈ l ↔ x ∈ _satellites (run script)) ∧
         ∀ x, x ∈ l → x ∈ connected script.
Proof.
  intros Hiter script. exists (set_iter (_satellites (run script))).
  split_and!; [done|by apply NoDup_set_iter|by apply set_iter_elem|].
  intros x Hx%(set_iter_elem Hiter). by apply (members_connected Hiter).
Qed.

Lemma iter_yields_members_witness :
  ∃ l, __iter__ (rt:=table_rt) (run (rt:=table_rt) equator)
         = (Ok l, run (rt:=table_rt) equator) ∧ NoDup l ∧
       (∀ x, x ∈ l ↔ x ∈ _satellites (run (rt:=table_rt) equator)) ∧
       ∀ x, x ∈ l → x ∈ connected equator.
Proof. apply (iter_yields_members table_rt table_rt_iter_ok equator). Defined.

(** ** Properties of routes *)

(** X9.  A path that [route] returns on a network built by a script is not
    empty, visits no satellite twice and visits members only. *)
Theorem route_path_is_simple (rt : Runtime) :
  set_iter_ok rt →
  ∀ (script : list call) (start finish : coord) (path : list loc),
    fst <$> Network.route start finish (run script) = Some (Ok path) →
    path ≠ [] ∧ NoDup path ∧ ∀ x, x ∈ path → x ∈ _satellites (run script).
Proof.
  intros Hiter script start finish path Hr. pose proof (wf_run Hiter script) as Hwf.
  destruct (route_Ok Hiter _ _ _ _ Hwf Hr) as (_ & Hc & _).
  destruct (connects_members _ _ _ _ Hwf Hc) as [Hne Hm].
  split_and!; [done| |done]. by apply (route_NoDup Hiter start finish (run script)).
Qed.

Lemma route_path_is_simple_witness :
  [1; 3; 5]%positive ≠ [] ∧ NoDup [1; 3; 5]%positive ∧
  ∀ x, x ∈ [1; 3; 5]%positive → x ∈ _satellites (run (rt:=table_rt) equator).
Proof.
  apply (route_path_is_simple table_rt table_rt_iter_ok equator
           (Coordinates 0 (-20) 0) (Coordinates 0 100 0)).
  vm_compute. reflexivity.
Defined.

(** X10.  On a network built by a script [route] finds a path from [start]
    to [finish] exactly when it finds one from [finish] to [start], and the
    two have the same number of hops. *)
Theorem route_hops_symmetric (rt : Runtime) :
  set_iter_ok rt → libm_cos_even rt →
  ∀ (script : list call) (start finish : coord),
    match fst <$> Network.route start finish (run script),
          fst <$> Network.route finish start (run script) with
    | Some (Ok p), Some (Ok q) => hops p = hops q
    | Some (Raise _), Some (Raise _) => True
    | _, _ => False
    end.
Proof.
  intros Hiter Heven script start finish. pose proof (wf_run Hiter script) as Hwf.
  destruct (route_spec Hiter start finish _ Hwf) as (r1 & σ1 & H1 & _).
  destruct (route_spec Hiter finish start _ Hwf) as (r2 & σ2 & H2 & _).
  pose proof (route_reverse Hiter Heven start finish script) as H12.
  pose proof (route_reverse Hiter Heven finish start script) as H21.
  rewrite H1, H2 in *. simpl in *.
  destruct r1 as [p|e1], r2 as [q|e2]; [| | |done].
  - destruct (H12 p eq_refl) as (q' & [= <-] & ?).
    destruct (H21 q eq_refl) as (p' & [= <-] & ?). unfold hops. lia.
  - by destruct (H12 p eq_refl) as (q' & ? & _).
  - by destruct (H21 q eq_refl) as (p' & ? & _).
Qed.

Lemma route_hops_symmetric_witness :
  match fst <$> Network.route (rt:=table_rt) (Coordinates 0 (-20) 0) (Coordinates 0 100 0)
                  (run (rt:=table_rt) equator),
        fst <$> Network.route (rt:=table_rt) (Coordinates 0 100 0) (Coordinates 0 (-20) 0)
                  (run (rt:=table_rt) equator) with
  | Some (Ok p), Some (Ok q) => hops p = hops q
  | Some (Raise _), Some (Raise _) => True
  | _, _ => False
  end.
Proof. apply (route_hops_symmetric table_rt table_rt_iter_ok table_cos_even equator). Defined.

(** X11.  When [route] returns a path and some member is visible at [start]
    and at [finish], the path is one satellite that is visible at both. *)
Theorem route_direct (rt : Runtime) :
  set_iter_ok rt →
  ∀ (script : list call) (start finish : coord) (path : list loc) (s : loc),
    fst <$> Network.route start finish (run script) = Some (Ok path) →
    sees (run script) start s → sees (run script) finish s →
    ∃ s', path = [s'] ∧ sees (run script) start s' ∧ sees (run script) finish s'.
Proof.
  intros Hiter script start finish path s Hr Hs Hf.
  destruct (route_Ok Hiter _ _ _ _ (wf_run Hiter script) Hr)
    as (_ & (Hp & (a & Ha & Hsa) & (b & Hb & Hfb)) & Hmin).
  assert (Hc : connects (run script) start finish [s]).
  { split_and!; [apply is_path_singleton|by exists s..]. }
  apply Hmin in Hc. destruct path as [|x [|y path]]; simpl in *; [done| |lia].
  exists x. by simplify_eq.
Qed.

Lemma route_direct_witness :
  ∃ s', [3%positive] = [s'] ∧
        sees (rt:=table_rt) (run (rt:=table_rt) pole_pair) (Coordinates 90 0 0) s' ∧
        sees (rt:=table_rt) (run (rt:=table_rt) pole_pair) (Coordinates 90 0 0) s'.
Proof.
  assert (Hs : sees (rt:=table_rt) (run (rt:=table_rt) pole_pair) (Coordinates 90 0 0)
                 1%positive).
  { split; [vm_compute; reflexivity|]. eexists. split; vm_compute; reflexivity. }
  apply (route_direct table_rt table_rt_iter_ok pole_pair (Coordinates 90 0 0)
           (Coordinates 90 0 0) [3%positive] 1%positive); [|done..].
  vm_compute. reflexivity.
Defined.

(** X12.  On a network without members [route] raises [RouteNotFound] with
    the reason of the start coordinates, unless the start probe cannot be
    constructed; the finish coordinates are not looked at. *)
Theorem route_without_members (rt : Runtime) :
  set_iter_ok rt →
  ∀ (σ : State) (start finish : coord),
    _satellites σ = ∅ →
    fst <$> Network.route start finish σ =
    Some match Satellite.geometry start with
         | Ok _ => Raise (RouteNotFound Network.no_start)
         | Raise e => Raise e
         end.
Proof.
  intros Hiter σ start finish Hσ. unfold Network.route.
  rewrite visible_satellites_at_eq, Hσ, (set_iter_empty Hiter).
  destruct (Satellite.geometry start) as [g|e]; [|done]. simpl.
  by rewrite decide_True.
Qed.

Lemma route_without_members_witness :
  fst <$> Network.route (rt:=table_rt) (Coordinates 0 0 0) (Coordinates 0 0 (-7000)) initial =
  Some match Satellite.geometry (Coordinates 0 0 0) with
       | Ok _ => Raise (RouteNotFound Network.no_start)
       | Raise e => Raise e
       end.
Proof. by apply (route_without_members table_rt table_rt_iter_ok initial). Defined.

(** X13.  More satellites never make a route longer: a route that [route]
    returns after further calls has no more hops than the one it returned
    before them. *)
Theorem route_not_longer_later (rt : Runtime) :
  set_iter_ok rt → libm_cos_even rt →
  ∀ (script more : list call) (start finish : coord) (p p' : list loc),
    fst <$> Network.route start finish (run script) = Some (Ok p) →
    fst <$> Network.route start finish (run (script ++ more)) = Some (Ok p') →
    hops p' ≤ hops p.
Proof.
  intros Hiter Heven script more start finish p p' Hr Hr'.
  destruct (route_Ok Hiter _ _ _ _ (wf_run Hiter script) Hr) as (_ & Hc & _).
  destruct (route_Ok Hiter _ _ _ _ (wf_run Hiter _) Hr') as (_ & _ & Hmin).
  apply (connects_grows Hiter Heven script more), Hmin in Hc. unfold hops. lia.
Qed.

Lemma route_not_longer_later_witness :
  hops [1; 3]%positive ≤ hops [1; 3]%positive.
Proof.
  apply (route_not_longer_later table_rt table_rt_iter_ok table_cos_even
           (take 4 equator) (drop 4 equator) (Coordinates 0 (-20) 0) (Coordinates 0 40 0)).
  - vm_compute. reflexivity.
  - vm_compute. reflexivity.
Defined.

(** ** Properties of the queue *)

(** X14.  [heappush] on a list that is a heap for a key that the order [lt]
    respects returns a heap with the same items and the new one. *)
Theorem heappush_keeps_heap {A : Type} (lt : A → A → bool) (key : A → nat) :
  (∀ a b, lt a b = true → key a ≤ key b) →
  (∀ a b, lt a b = false → key b ≤ key a) →
  ∀ (h : list A) (item : A),
    heap_ok key h →
    ∃ h', heapq.heappush lt h item = Some h' ∧ heap_ok key h' ∧ h' ≡ₚ item :: h.
Proof. intros Hlt Hnlt h item Hh. by apply (heappush_spec lt key Hlt Hnlt). Qed.

Lemma heappush_keeps_heap_witness :
  ∃ h', heapq.heappush Nat.ltb [1; 3; 2] 0 = Some h' ∧ heap_ok id h' ∧ h' ≡ₚ [0; 1; 3; 2].
Proof.
  apply (heappush_keeps_heap Nat.ltb id).
  - intros a b H%Nat.ltb_lt. unfold id. lia.
  - intros a b H%Nat.ltb_ge. unfold id. lia.
  - intros [|[|[|[|j]]]] x y Hj Hx Hy; simpl in *; simplify_eq; unfold id; lia.
Defined.

(** X15.  [heappop] raises [IndexError] on the empty list; on a heap that is
    not empty it returns an item of the least key and leaves a heap of the
    other items. *)
Theorem heappop_least {A : Type} (lt : A → A → bool) (key : A → nat) :
  (∀ a b, lt a b = true → key a ≤ key b) →
  (∀ a b, lt a b = false → key b ≤ key a) →
  ∀ h : list A,
    heap_ok key h →
    match h with
    | [] => heapq.heappop lt h = Some (Raise IndexError)
    | _ :: _ =>
        ∃ x h', heapq.heappop lt h = Some (Ok (x, h')) ∧ h ≡ₚ x :: h' ∧ heap_ok key h' ∧
                ∀ y, y ∈ h → key x ≤ key y
    end.
Proof.
  intros Hlt Hnlt h Hh. destruct h as [|a h]; [done|].
  by apply (heappop_spec lt key Hlt Hnlt).
Qed.

Lemma heappop_least_witness :
  ∃ x h', heapq.heappop Nat.ltb [1; 3; 2] = Some (Ok (x, h')) ∧ [1; 3; 2] ≡ₚ x :: h' ∧
          heap_ok id h' ∧ ∀ y, y ∈ [1; 3; 2] → id x ≤ id y.
Proof.
  assert (Hlt : ∀ a b, Nat.ltb a b = true → id a ≤ id b).
  { intros a b H%Nat.ltb_lt. unfold id. lia. }
  assert (Hnlt : ∀ a b, Nat.ltb a b = false → id b ≤ id a).
  { intros a b H%Nat.ltb_ge. unfold id. lia. }
  assert (Hh : heap_ok id [1; 3; 2]).
  { intros [|[|[|j]]] x y Hj Hx Hy; simpl in *; simplify_eq; unfold id; lia. }
  exact (heappop_least Nat.ltb id Hlt Hnlt [1; 3; 2] Hh).
Defined.

(** ** Properties of the script *)







(** X19.  Without a line that starts with [ROUTE] the script prints no route
    and no message: it ends with the exception of a line, or with the
    [NameError] of [start]. *)
Theorem main_without_route (rt : Runtime) (bt : Builtins) (lines : list string) :
  (∀ line, line ∈ lines → Script.startswith line "ROUTE" = false) →
  Script.main lines =
  Some match (Script.read lines (initial, None)).1 with
       | Ok _ => NameError "start"
       | Raise e => Traceback e
       end.
Proof.
  intros Hno. rewrite main_eq.
  destruct (read_frame lines initial Hno) as (r & σ' & Hread). rewrite Hread.
  by destruct r as [[]|e].
Qed.

Lemma main_without_route_witness :
  Script.main (rt:=table_rt) (bt:=table_bt) (take 2 equator_file) =
  Some match (Script.read (rt:=table_rt) (bt:=table_bt) (take 2 equator_file)
                (initial, None)).1 with
       | Ok _ => NameError "start"
       | Raise e => Traceback e
       end.
Proof.
  apply (main_without_route table_rt table_bt).
  intros line Hline. simpl in Hline.
  apply elem_of_cons in Hline as [->|Hline]; [done|].
  by apply list_elem_of_singleton in Hline as ->.
Defined.

(** X20.  What the script prints is a shortest route on the network of the
    [SAT] lines: the lines were read without an exception into a network
    that a script of calls builds, the coordinates of the last [ROUTE] line
    are numbers, and the output is the names, separated by commas, of the
    satellites of a path from a satellite visible at the start to one visible
    at the finish that no such path beats in hops. *)
Theorem main_prints_shortest_route (rt : Runtime) (bt : Builtins) :
  set_iter_ok rt →
  ∀ (lines : list string) (out : string),
    Script.main lines = Some (Printed out) →
    ∃ script start finish s f path,
      Script.read lines (initial, None) = (Ok tt, (run script, Some (start, finish))) ∧
      Script.floats start = Ok s ∧ Script.floats finish = Ok f ∧
      connects (run script) s f path ∧
      (∀ p, connects (run script) s f p → hops path ≤ hops p) ∧
      out = String.concat "," ((λ x, _id (obj (run script) x)) <$> path)
              +:+ String "010" EmptyString.
Proof.
  intros Hiter lines out. rewrite main_eq.
  destruct (Script.read lines (initial, None)) as [[[]|e] [σ [[start finish]|]]] eqn:Hread;
    try done.
  destruct (read_network Hiter lines _ _ _ _ Hread) as (script & -> & _).
  destruct (script_route_spec Hiter start finish script) as (r & σ' & Hroute & Hr).
  rewrite Hroute. cbn [mbind option_bind fst snd].
  destruct r as [path|e]; [|by destruct e].
  destruct Hr as (s & f & Hs & Hf & Hnet). intros [= <-].
  pose proof (wf_run Hiter script) as Hwf.
  destruct (route_Ok Hiter s f (run script) path Hwf) as (_ & Hc & Hmin); [by rewrite Hnet|].
  exists script, start, finish, s, f, path. split_and!; [done..| |].
  - intros p Hp. specialize (Hmin p Hp). unfold hops. lia.
  - unfold Script.print_path. f_equal. f_equal. apply list_fmap_ext.
    intros i x Hx. unfold Satellite.__str__. f_equal.
    pose proof (unchanged_route s f (run script)) as Hun. rewrite Hnet in Hun.
    destruct Hun as (_ & _ & Hheap).
    destruct (connects_members _ _ _ _ Hwf Hc) as [_ Hm].
    assert (Hdom : x ∈ dom (heap (run script))).
    { apply (wf_members _ Hwf), Hm. by eapply list_elem_of_lookup_2. }
    apply elem_of_dom in Hdom as [o Ho]. unfold obj. by rewrite (Hheap x o Ho), Ho.
Qed.

Lemma main_prints_shortest_route_witness :
  ∃ script start finish s f path,
    Script.read (rt:=table_rt) (bt:=table_bt) equator_file (initial, None)
      = (Ok tt, (run (rt:=table_rt) script, Some (start, finish))) ∧
    Script.floats (bt:=table_bt) start = Ok s ∧ Script.floats (bt:=table_bt) finish = Ok f ∧
    connects (rt:=table_rt) (run (rt:=table_rt) script) s f path ∧
    (∀ p, connects (rt:=table_rt) (run (rt:=table_rt) script) s f p → hops path ≤ hops p) ∧
    "SAT1,SAT2,SAT3
" = String.concat "," ((λ x, _id (obj (run (rt:=table_rt) script) x)) <$> path)
      +:+ String "010" EmptyString.
Proof.
  apply (main_prints_shortest_route table_rt table_bt table_rt_iter_ok equator_file).
  vm_compute. reflexivity.
Defined.

(** X21.  The names that the script prints are first fields of lines that
    start with [SAT]. *)
Theorem main_prints_names (rt : Runtime) (bt : Builtins) :
  set_iter_ok rt →
  ∀ (lines : list string) (out : string),
    Script.main lines = Some (Printed out) →
    ∃ names, out = String.concat "," names +:+ String "010" EmptyString ∧
             names ≠ [] ∧ ∀ name, name ∈ names → name ∈ Script.names lines.
Proof.
  intros Hiter lines out. rewrite main_eq.
  destruct (Script.read lines (initial, None)) as [[[]|e] [σ [[start finish]|]]] eqn:Hread;
    try done.
  destruct (read_network Hiter lines _ _ _ _ Hread) as (script & -> & Hids & _).
  destruct (script_route_spec Hiter start finish script) as (r & σ' & Hroute & Hr).
  rewrite Hroute. cbn [mbind option_bind fst snd].
  destruct r as [path|e]; [|by destruct e].
  destruct Hr as (s & f & Hs & Hf & Hnet). intros [= <-].
  pose proof (wf_run Hiter script) as Hwf.
  destruct (route_Ok Hiter s f (run script) path Hwf) as (_ & Hc & _); [by rewrite Hnet|].
  destruct (connects_members _ _ _ _ Hwf Hc) as [Hne Hm].
  exists ((λ x, Satellite.__str__ (obj σ' x)) <$> path). split_and!; [done| |].
  - by destruct path.
  - intros name (x & -> & Hx)%list_elem_of_fmap. unfold Satellite.__str__.
    pose proof (unchanged_route s f (run script)) as Hun. rewrite Hnet in Hun.
    destruct Hun as (_ & _ & Hheap).
    assert (Hdom : x ∈ dom (heap (run script))) by by apply (wf_members _ Hwf), Hm.
    apply elem_of_dom in Hdom as [o Ho].
    replace (obj σ' x) with (obj (run script) x)
      by (unfold obj; by rewrite (Hheap x o Ho), Ho).
    by apply Hids, Hm.
Qed.

Lemma main_prints_names_witness :
  ∃ names, "SAT1,SAT2,SAT3
" = String.concat "," names +:+ String "010" EmptyString ∧
           names ≠ [] ∧ ∀ name, name ∈ names → name ∈ Script.names equator_file.
Proof.
  apply (main_prints_names table_rt table_bt table_rt_iter_ok equator_file).
  vm_compute. reflexivity.
Defined.

(** X22.  The script always ends.  When it ends in [fail], the exit status
    is 1 and the message is one of the three reasons of [RouteNotFound]; an
    exception that goes uncaught is a [ValueError] or a [ZeroDivisionError];
    the message of the handler of the reading loop is never printed. *)
Theorem main_ends (rt : Runtime) (bt : Builtins) :
  set_iter_ok rt →
  ∀ lines : list string,
    ∃ o, Script.main lines = Some o ∧
         match o with
         | Printed _ => True
         | Exited message exitcode =>
             exitcode = 1%Z ∧
             (message = Network.no_start ∨ message = Network.no_finish ∨
              message = Network.no_route)
         | Traceback e => e = ValueError ∨ e = ZeroDivisionError
         | NameError name => name = "start"
         end.
Proof.
  intros Hiter lines. rewrite main_eq.
  destruct (Script.read lines (initial, None)) as [[[]|e] [σ q]] eqn:Hread;
    destruct (read_network Hiter lines _ _ _ _ Hread) as (script & -> & _ & Hraise).
  2:{ exists (Traceback e). split; [done|]. by apply Hraise. }
  destruct q as [[start finish]|]; [|exists (NameError "start"); by split].
  destruct (script_route_spec Hiter start finish script) as (r & σ' & Hroute & Hr).
  rewrite Hroute. cbn [mbind option_bind fst snd].
  eexists. split; [done|]. destruct r as [path|e]; [done|].
  destruct Hr as [->|[->|[->|[->| ->]]]]; simpl; by eauto.
Qed.

Lemma main_ends_witness :
  ∃ o, Script.main (rt:=table_rt) (bt:=table_bt) equator_file = Some o ∧
       match o with
       | Printed _ => True
       | Exited message exitcode =>
           exitcode = 1%Z ∧
           (message = Network.no_start ∨ message = Network.no_finish ∨
            message = Network.no_route)
       | Traceback e => e = ValueError ∨ e = ZeroDivisionError
       | NameError name => name = "start"
       end.
Proof. apply (main_ends table_rt table_bt table_rt_iter_ok equator_file). Defined.

(** X23.  A line that starts with [SAT] and has not four fields ends the
    script with a [ValueError], whatever follows. *)
Theorem main_bad_SAT_line (rt : Runtime) (bt : Builtins) (pre post : list string)
    (line : string) :
  (Script.read pre (initial, None)).1 = Ok tt →
  Script.startswith line "SAT" = true → length (Script.split "," line) ≠ 4 →
  Script.main (pre ++ line :: post) = Some (Traceback ValueError).
Proof.
  intros Hpre HSAT Hlen. rewrite main_eq, read_app.
  destruct (Script.read pre (initial, None)) as [[[]|e] [σ q]]; [|done].
  cbn [Script.read]. rewrite (read_line_SAT line σ q HSAT), sat_line_eq.
  by destruct (Script.split "," line) as [|ID [|lat [|lon [|alt [|? ?]]]]].
Qed.

Lemma main_bad_SAT_line_witness :
  Script.main (rt:=table_rt) (bt:=table_bt)
    (take 2 equator_file ++ "SAT2,0,40" :: drop 3 equator_file) =
  Some (Traceback ValueError).
Proof.
  apply (main_bad_SAT_line table_rt table_bt); [|done|].
  - vm_compute. reflexivity.
  - vm_compute. lia.
Defined.

(** X24.  Coordinates of the [ROUTE] line that are not numbers are found
    only when the route is searched: when [float] raises on the start
    coordinates the script ends with that [ValueError], not with a message. *)
Theorem main_route_not_numbers (rt : Runtime) (bt : Builtins) (lines : list string)
    (σ : State) (start finish : raw_coord) (e : exception) :
  Script.read lines (initial, None) = (Ok tt, (σ, Some (start, finish))) →
  Script.floats start = Raise e →
  e = ValueError ∧ Script.main lines = Some (Traceback ValueError).
Proof.
  intros Hread Hstart. pose proof (floats_raises _ _ Hstart) as ->. split; [done|].
  by rewrite main_eq, Hread, (route_not_floats start finish σ ValueError Hstart).
Qed.

Lemma main_route_not_numbers_witness :
  ValueError = ValueError ∧
  Script.main (rt:=table_rt) (bt:=table_bt) ["ROUTE,north,0,0,0"] = Some (Traceback ValueError).
Proof.
  apply (main_route_not_numbers table_rt table_bt ["ROUTE,north,0,0,0"] initial
           (RawCoordinates (Str "north") (Str "0") Default)
           (RawCoordinates (Str "0") (Str "0") Default)).
  - vm_compute. reflexivity.
  - vm_compute. reflexivity.
Defined.
